(** * ao-wallet-kit: the wallet manager, its observers and the signer
      normalisation, embedded from the TypeScript sources.

    The manager (class [WalletManager]) is stateful code that calls into
    wallet backends, the browser's [localStorage] and observer callbacks.
    It is embedded as state-passing code in a small state-and-exception
    monad over a [Machine]: an exception leaves the state reached so far in
    place, as in JavaScript.

    What the embedding takes for granted:
    - [async]/[await] is read sequentially (one logical caller, no
      interleaving of manager operations); a rejected promise is a thrown
      exception;
    - the types of the interfaces are taken at their word: a method typed
      [Promise<string>] returns a string or throws;
    - a strategy works on its backend only, it does not call the manager;
    - an observer callback may subscribe, unsubscribe and throw; it does not
      call the other methods of the manager and does not assign to the state
      object it is handed;
    - the provider component is rendered with the state the manager has
      published, and React runs its effects in the order of the source after
      the first commit and again when one of their dependencies has changed;
    - diagnostic logging is left out. *)

From stdpp Require Import gmap strings list.

Declare Scope js_scope.
Delimit Scope js_scope with js.
Local Open Scope string_scope.
Local Open Scope list_scope.

(** ** JavaScript strings *)

Module JsString.

(** [s.startsWith(p)] *)
Definition startsWith (s p : string) : bool := String.prefix p s.

(** The characters of [s] from position [n] on. *)
Fixpoint slice (n : nat) (s : string) : string :=
  match n, s with
  | O, _ => s
  | S n', String _ s' => slice n' s'
  | S _, EmptyString => EmptyString
  end.

(** [s.replace(pat, rep)] with a string pattern: the first occurrence of
    [pat], scanning from the left, is replaced; without an occurrence the
    string is returned as it is. *)
Fixpoint replace (s pat rep : string) : string :=
  if String.prefix pat s then rep +:+ slice (String.length pat) s
  else match s with
       | EmptyString => EmptyString
       | String c s' => String c (replace s' pat rep)
       end.

(** Truthiness of a string: every string but the empty one. *)
Definition truthy (s : string) : bool :=
  match s with
  | EmptyString => false
  | String _ _ => true
  end.

(** Truthiness of a [string | null]. *)
Definition truthy_opt (s : option string) : bool :=
  match s with
  | Some s => truthy s
  | None => false
  end.

End JsString.

(** ** Exceptions and outcomes *)

(** What is thrown: an [Error] or a [TypeError] with its message, or a DOM
    exception with its name (storage access, quota). *)
Inductive Exn :=
| Error (message : string)
| TypeError (message : string)
| DOMException (name : string).

Inductive Outcome (A : Type) :=
| Returns (a : A)
| Throws (e : Exn).
Arguments Returns {A} a.
Arguments Throws {A} e.

(** ** Constants (constants.ts) *)

Module STORAGE_KEYS.
Definition STRATEGY : string := "ao_wallet_strategy".
Definition ADDRESS : string := "ao_wallet_address".
End STORAGE_KEYS.

Module WAuthProviders.
Definition Github : string := "github".
Definition Google : string := "google".
Definition Discord : string := "discord".
Definition X : string := "twitter".
End WAuthProviders.

(** ** The browser's localStorage *)

(** The stored items, and the two ways an access fails in a browser: every
    access throws when storage is denied to the page, and [setItem] throws
    when the quota is exceeded. *)
Record Storage := {
  items : gmap string string;
  accessDenied : bool;
  quotaExceeded : bool;
}.

Module localStorage.

Definition getItem (key : string) (ls : Storage) : Outcome (option string) :=
  if accessDenied ls then Throws (DOMException "SecurityError")
  else Returns (items ls !! key).

Definition setItem (key value : string) (ls : Storage) : Outcome unit * Storage :=
  if accessDenied ls then (Throws (DOMException "SecurityError"), ls)
  else if quotaExceeded ls then (Throws (DOMException "QuotaExceededError"), ls)
  else (Returns tt,
        {| items := <[key := value]> (items ls);
           accessDenied := accessDenied ls;
           quotaExceeded := quotaExceeded ls |}).

Definition removeItem (key : string) (ls : Storage) : Outcome unit * Storage :=
  if accessDenied ls then (Throws (DOMException "SecurityError"), ls)
  else (Returns tt,
        {| items := delete key (items ls);
           accessDenied := accessDenied ls;
           quotaExceeded := quotaExceeded ls |}).

End localStorage.

(** ** The strategy contract (types.ts, interface WalletStrategy) *)

Section Manager.

(** Everything behind the strategies: the browser extensions, the OAuth
    SDK and whatever state they keep. *)
Variable World : Type.

(** A backend call runs against the world and returns or throws. *)
Definition Call (A : Type) : Type := World -> Outcome A * World.

(** The members of the interface the manager uses.  [oid] is the identity
    of the object ([===] on strategies compares it); [reconnect] is an
    optional member. *)
Record WalletStrategy := {
  oid : nat;
  id : string;
  connect : option (list string) -> Call unit;
  disconnect : Call unit;
  getActiveAddress : Call string;
  getActivePublicKey : Call string;
  getPermissions : Call (list string);
  reconnect : option (Call unit);
}.

(** The method bodies of one strategy class, which talk to its backend. *)
Record Methods := {
  m_connect : option (list string) -> Call unit;
  m_disconnect : Call unit;
  m_getActiveAddress : Call string;
  m_getActivePublicKey : Call string;
  m_getPermissions : Call (list string);
}.

(** ** Connection state (types.ts, interface WalletConnectionState) *)

Record WalletConnectionState := {
  connected : bool;
  address : option string;
  publicKey : option string;
  permissions : list string;
  strategy : option WalletStrategy;
}.

(** [Partial<WalletConnectionState>]: the fields an update carries. *)
Record Partial := {
  p_connected : option bool;
  p_address : option (option string);
  p_publicKey : option (option string);
  p_permissions : option (list string);
  p_strategy : option (option WalletStrategy);
}.

(** [{ ...state, ...updates }] *)
Definition spread (state : WalletConnectionState) (updates : Partial)
  : WalletConnectionState :=
  {| connected := default (connected state) (p_connected updates);
     address := default (address state) (p_address updates);
     publicKey := default (publicKey state) (p_publicKey updates);
     permissions := default (permissions state) (p_permissions updates);
     strategy := default (strategy state) (p_strategy updates) |}.

(** The field initialiser of [state], also what [disconnect] resets to. *)
Definition disconnected : WalletConnectionState :=
  {| connected := false; address := None; publicKey := None;
     permissions := []; strategy := None |}.

#[local] Instance WalletConnectionState_inhabited : Inhabited WalletConnectionState :=
  populate disconnected.

(** ** Observers *)

(** What an observer callback may do with the manager while it runs:
    subscribe a callback, call the unsubscribe handle of a callback, or
    throw.  Callbacks are functions, compared by identity (a number). *)
Inductive CallbackAction :=
| Subscribe (listener : nat)
| Unsubscribe (listener : nat)
| Raise (e : Exn).

(** What is recorded of a run, for the statements about observers: a
    callback was invoked with a state object (its reference and what it
    held), an unsubscribe handle was called. *)
Inductive Event :=
| Notified (listener : nat) (obj : nat) (seen : WalletConnectionState)
| Unsubscribed (listener : nat).

(** ** The page the manager runs in *)

(** What the manager is handed from outside: the method bodies of the three
    strategy classes, by object identity (and by provider for the OAuth
    class, the only one with [reconnect]); how the world moves on while the
    manager waits ([setTimeout]); and the bodies of the observer callbacks,
    what each does on the state it is given. *)
Record Environment := {
  arweaveWallet : nat -> Methods;
  ethereum : nat -> Methods;
  wauth : string -> nat -> Methods;
  wauth_reconnect : string -> nat -> Call unit;
  elapse : nat -> World -> World;
  callbacks : nat -> WalletConnectionState -> list CallbackAction;
}.

Variable env : Environment.

(** ** The strategy classes (strategies directory) *)

Definition ArweaveWalletStrategy (o : nat) : WalletStrategy :=
  {| oid := o;
     id := "arweave-native";
     connect := m_connect (arweaveWallet env o);
     disconnect := m_disconnect (arweaveWallet env o);
     getActiveAddress := m_getActiveAddress (arweaveWallet env o);
     getActivePublicKey := m_getActivePublicKey (arweaveWallet env o);
     getPermissions := m_getPermissions (arweaveWallet env o);
     reconnect := None |}.

Definition MetaMaskWalletStrategy (o : nat) : WalletStrategy :=
  {| oid := o;
     id := "metamask";
     connect := m_connect (ethereum env o);
     disconnect := m_disconnect (ethereum env o);
     getActiveAddress := m_getActiveAddress (ethereum env o);
     getActivePublicKey := m_getActivePublicKey (ethereum env o);
     getPermissions := m_getPermissions (ethereum env o);
     reconnect := None |}.

(** [this.id = 'wauth-' + this.provider] *)
Definition WAuthStrategy (provider : string) (o : nat) : WalletStrategy :=
  {| oid := o;
     id := "wauth-" +:+ provider;
     connect := m_connect (wauth env provider o);
     disconnect := m_disconnect (wauth env provider o);
     getActiveAddress := m_getActiveAddress (wauth env provider o);
     getActivePublicKey := m_getActivePublicKey (wauth env provider o);
     getPermissions := m_getPermissions (wauth env provider o);
     reconnect := Some (wauth_reconnect env provider o) |}.

(** ** The machine *)

(** The fields of the [WalletManager] instance.  [state] is a reference to
    a state object in the heap. *)
Record WalletManager := {
  strategies : gmap string WalletStrategy;
  currentStrategy : option WalletStrategy;
  state : nat;
  stateListeners : list nat;
}.

(** [stateObjs]: the heap of connection-state objects, a reference is an
    index; [allocated]: how many strategy objects were constructed. *)
Record Machine := {
  world : World;
  storage : Storage;
  stateObjs : list WalletConnectionState;
  allocated : nat;
  this : WalletManager;
  trace : list Event;
}.

Definition M (A : Type) : Type := Machine -> Outcome A * Machine.

Definition ret {A} (a : A) : M A := fun σ => (Returns a, σ).

Definition bind {A B} (m : M A) (k : A -> M B) : M B :=
  fun σ => match m σ with
           | (Returns a, σ') => k a σ'
           | (Throws e, σ') => (Throws e, σ')
           end.

Definition throw {A} (e : Exn) : M A := fun σ => (Throws e, σ).

(** [try { m } catch (error) { handler(error) }] *)
Definition try_catch {A} (m : M A) (handler : Exn -> M A) : M A :=
  fun σ => match m σ with
           | (Returns a, σ') => (Returns a, σ')
           | (Throws e, σ') => handler e σ'
           end.

Definition gets {A} (f : Machine -> A) : M A := fun σ => (Returns (f σ), σ).

Definition modify (f : Machine -> Machine) : M unit := fun σ => (Returns tt, f σ).

Notation "x <- m ;; k" := (bind m (fun x => k))
  (at level 20, m at level 99, k at level 200, only parsing) : js_scope.
Notation "m ;; k" := (bind m (fun _ => k))
  (at level 100, k at level 200, only parsing, right associativity) : js_scope.
Local Open Scope js_scope.

(** Field updates. *)
Definition with_world (w : World) (σ : Machine) : Machine :=
  {| world := w; storage := storage σ; stateObjs := stateObjs σ;
     allocated := allocated σ; this := this σ; trace := trace σ |}.

Definition with_storage (ls : Storage) (σ : Machine) : Machine :=
  {| world := world σ; storage := ls; stateObjs := stateObjs σ;
     allocated := allocated σ; this := this σ; trace := trace σ |}.

Definition with_stateObjs (h : list WalletConnectionState) (σ : Machine) : Machine :=
  {| world := world σ; storage := storage σ; stateObjs := h;
     allocated := allocated σ; this := this σ; trace := trace σ |}.

Definition with_allocated (n : nat) (σ : Machine) : Machine :=
  {| world := world σ; storage := storage σ; stateObjs := stateObjs σ;
     allocated := n; this := this σ; trace := trace σ |}.

Definition with_this (m : WalletManager) (σ : Machine) : Machine :=
  {| world := world σ; storage := storage σ; stateObjs := stateObjs σ;
     allocated := allocated σ; this := m; trace := trace σ |}.

Definition with_trace (t : list Event) (σ : Machine) : Machine :=
  {| world := world σ; storage := storage σ; stateObjs := stateObjs σ;
     allocated := allocated σ; this := this σ; trace := t |}.

Definition set_strategies (r : gmap string WalletStrategy) (m : WalletManager) :=
  {| strategies := r; currentStrategy := currentStrategy m;
     state := state m; stateListeners := stateListeners m |}.

Definition set_currentStrategy (s : option WalletStrategy) (m : WalletManager) :=
  {| strategies := strategies m; currentStrategy := s;
     state := state m; stateListeners := stateListeners m |}.

Definition set_state (l : nat) (m : WalletManager) :=
  {| strategies := strategies m; currentStrategy := currentStrategy m;
     state := l; stateListeners := stateListeners m |}.

Definition set_stateListeners (ls : list nat) (m : WalletManager) :=
  {| strategies := strategies m; currentStrategy := currentStrategy m;
     state := state m; stateListeners := ls |}.

(** [await s.method(...)]: run a backend call against the world. *)
Definition await {A} (c : Call A) : M A :=
  fun σ => let '(o, w) := c (world σ) in (o, with_world w σ).

(** [new C(...)]: construct a strategy object with a fresh identity. *)
Definition new (C : nat -> WalletStrategy) : M WalletStrategy :=
  fun σ => (Returns (C (allocated σ)), with_allocated (S (allocated σ)) σ).

(** The object [this.state] refers to. *)
Definition this_state (σ : Machine) : WalletConnectionState :=
  stateObjs σ !!! state (this σ).

(** Allocate a state object; its reference is returned. *)
Definition alloc_state (o : WalletConnectionState) : M nat :=
  fun σ => (Returns (length (stateObjs σ)),
            with_stateObjs (stateObjs σ ++ [o]) σ).

(** ** WalletManager (manager.ts) *)

(** [this.stateListeners.indexOf(listener)], [None] for -1. *)
Fixpoint indexOf (ls : list nat) (listener : nat) : option nat :=
  match ls with
  | [] => None
  | x :: ls' => if decide (x = listener) then Some 0
                else S <$> indexOf ls' listener
  end.

(** [onStateChange(listener)]: the push.  The closure it returns is
    [unsubscribe listener] below. *)
Definition onStateChange (listener : nat) : M unit :=
  modify (fun σ => with_this
    (set_stateListeners (stateListeners (this σ) ++ [listener]) (this σ)) σ).

(** The closure returned by [onStateChange(listener)]. *)
Definition unsubscribe (listener : nat) : M unit :=
  modify (fun σ =>
    let ls := stateListeners (this σ) in
    with_trace (trace σ ++ [Unsubscribed listener])
      match indexOf ls listener with
      | Some index => with_this (set_stateListeners (delete index ls) (this σ)) σ
      | None => σ
      end).

(** The actions of a running callback, in order. *)
Fixpoint perform (actions : list CallbackAction) : M unit :=
  match actions with
  | [] => ret tt
  | Subscribe l :: rest => onStateChange l ;; perform rest
  | Unsubscribe l :: rest => unsubscribe l ;; perform rest
  | Raise e :: _ => throw e
  end.

(** [listener(this.state)] *)
Definition invoke (listener : nat) : M unit :=
  fun σ =>
    let seen := this_state σ in
    perform (callbacks env listener seen)
      (with_trace (trace σ ++ [Notified listener (state (this σ)) seen]) σ).

(** [Array.prototype.forEach] on the live array: the length is read once,
    then every index below it that is still present is visited. *)
Fixpoint forEach_from (remaining k : nat) : M unit :=
  match remaining with
  | O => ret tt
  | S remaining' =>
      ls <- gets (fun σ => stateListeners (this σ)) ;;
      match ls !! k with
      | Some listener => invoke listener ;; forEach_from remaining' (S k)
      | None => forEach_from remaining' (S k)
      end
  end.

Definition notifyListeners : M unit :=
  len <- gets (fun σ => length (stateListeners (this σ))) ;;
  forEach_from len 0.

Definition updateState (updates : Partial) : M unit :=
  old <- gets this_state ;;
  l <- alloc_state (spread old updates) ;;
  modify (fun σ => with_this (set_state l (this σ)) σ) ;;
  notifyListeners.

(** *** The session cache *)

Definition storage_getItem (key : string) : M (option string) :=
  fun σ => (localStorage.getItem key (storage σ), σ).

Definition storage_setItem (key value : string) : M unit :=
  fun σ => let '(o, ls) := localStorage.setItem key value (storage σ) in
           (o, with_storage ls σ).

Definition storage_removeItem (key : string) : M unit :=
  fun σ => let '(o, ls) := localStorage.removeItem key (storage σ) in
           (o, with_storage ls σ).

Definition cacheStrategy (strategyId : option string) : M unit :=
  try_catch
    (match strategyId with
     | Some i => if JsString.truthy i
                 then storage_setItem STORAGE_KEYS.STRATEGY i
                 else storage_removeItem STORAGE_KEYS.STRATEGY
     | None => storage_removeItem STORAGE_KEYS.STRATEGY
     end)
    (fun _ => ret tt).

Definition cacheAddress (address : option string) : M unit :=
  try_catch
    (match address with
     | Some a => if JsString.truthy a
                 then storage_setItem STORAGE_KEYS.ADDRESS a
                 else storage_removeItem STORAGE_KEYS.ADDRESS
     | None => storage_removeItem STORAGE_KEYS.ADDRESS
     end)
    (fun _ => ret tt).

Definition getCachedAddress : M (option string) :=
  try_catch (storage_getItem STORAGE_KEYS.ADDRESS) (fun _ => ret None).

(** *** The registry *)

(** [this.strategies.set(id, strategy)] *)
Definition strategies_set (i : string) (s : WalletStrategy) : M unit :=
  modify (fun σ => with_this
    (set_strategies (<[i := s]> (strategies (this σ))) (this σ)) σ).

(** [this.strategies.get(id)], [None] for [undefined]. *)
Definition strategies_get (i : string) : M (option WalletStrategy) :=
  gets (fun σ => strategies (this σ) !! i).

(** [this.strategies.has(id)] *)
Definition strategies_has (i : string) : M bool :=
  gets (fun σ => match strategies (this σ) !! i with
                 | Some _ => true
                 | None => false
                 end).

Definition initializeStrategies : M unit :=
  arweaveStrategy <- new ArweaveWalletStrategy ;;
  strategies_set (id arweaveStrategy) arweaveStrategy ;;
  metamaskStrategy <- new MetaMaskWalletStrategy ;;
  strategies_set (id metamaskStrategy) metamaskStrategy.

Definition getOrCreateWAuthStrategy (provider : string) : M (option WalletStrategy) :=
  let strategyId := "wauth-" +:+ provider in
  present <- strategies_has strategyId ;;
  (if negb present
   then strategy <- new (WAuthStrategy provider) ;;
        strategies_set strategyId strategy
   else ret tt) ;;
  strategies_get strategyId.

(** [this.currentStrategy = s] *)
Definition assign_currentStrategy (s : option WalletStrategy) : M unit :=
  modify (fun σ => with_this (set_currentStrategy s (this σ)) σ).

(** [updateState({ strategy })] *)
Definition only_strategy (s : option WalletStrategy) : Partial :=
  {| p_connected := None; p_address := None; p_publicKey := None;
     p_permissions := None; p_strategy := Some s |}.

Definition loadCachedStrategy : M unit :=
  try_catch
    (cachedStrategyId <- storage_getItem STORAGE_KEYS.STRATEGY ;;
     match cachedStrategyId with
     | Some i =>
         if JsString.truthy i then
           if JsString.startsWith i "wauth-" then
             let provider := JsString.replace i "wauth-" "" in
             strategy <- getOrCreateWAuthStrategy provider ;;
             assign_currentStrategy strategy ;;
             updateState (only_strategy strategy)
           else
             strategy <- strategies_get i ;;
             match strategy with
             | Some s =>
                 assign_currentStrategy (Some s) ;;
                 updateState (only_strategy (Some s))
             | None => ret tt
             end
         else ret tt
     | None => ret tt
     end)
    (fun _ => ret tt).

(** [new WalletManager()] in a page with the given backends and storage:
    the field initialisers, then [initializeStrategies] and
    [loadCachedStrategy]. *)
Definition fresh (w : World) (ls : Storage) : Machine :=
  {| world := w; storage := ls; stateObjs := [disconnected]; allocated := 0;
     this := {| strategies := ∅; currentStrategy := None; state := 0;
                stateListeners := [] |};
     trace := [] |}.

Definition constructor (w : World) (ls : Storage) : Outcome unit * Machine :=
  (initializeStrategies ;; loadCachedStrategy) (fresh w ls).

(** *** Selection and snapshots *)

Definition setStrategy (strategyId : string) : M bool :=
  strategy <- (if JsString.startsWith strategyId "wauth-"
               then getOrCreateWAuthStrategy (JsString.replace strategyId "wauth-" "")
               else strategies_get strategyId) ;;
  match strategy with
  | Some s =>
      assign_currentStrategy (Some s) ;;
      updateState (only_strategy (Some s)) ;;
      ret true
  | None => ret false
  end.

(** [return { ...this.state }]: a new object holding the same fields. *)
Definition getState : M nat :=
  current <- gets this_state ;;
  alloc_state current.

(** *** connect, disconnect *)

(** [this.currentStrategy.member]: a property access on the field, which
    throws a [TypeError] on [null]. *)
Definition this_currentStrategy : M WalletStrategy :=
  cur <- gets (fun σ => currentStrategy (this σ)) ;;
  match cur with
  | Some s => ret s
  | None => throw (TypeError "Cannot read properties of null")
  end.

Definition connect_updates (address publicKey : string) (walletPermissions : list string)
    (s : option WalletStrategy) : Partial :=
  {| p_connected := Some true;
     p_address := Some (Some address);
     p_publicKey := Some (Some publicKey);
     p_permissions := Some walletPermissions;
     p_strategy := Some s |}.

Definition WalletManager_connect (permissions : option (list string)) : M unit :=
  cur <- gets (fun σ => currentStrategy (this σ)) ;;
  match cur with
  | None => throw (Error "No wallet strategy selected")
  | Some _ =>
      try_catch
        (s <- this_currentStrategy ;;
         await (connect s permissions) ;;
         s <- this_currentStrategy ;;
         address <- await (getActiveAddress s) ;;
         s <- this_currentStrategy ;;
         publicKey <- await (getActivePublicKey s) ;;
         s <- this_currentStrategy ;;
         walletPermissions <- await (getPermissions s) ;;
         cur <- gets (fun σ => currentStrategy (this σ)) ;;
         updateState (connect_updates address publicKey walletPermissions cur) ;;
         s <- this_currentStrategy ;;
         cacheStrategy (Some (id s)) ;;
         cacheAddress (Some address))
        (fun error => throw error)
  end.

Definition disconnect_updates : Partial :=
  {| p_connected := Some false;
     p_address := Some None;
     p_publicKey := Some None;
     p_permissions := Some [];
     p_strategy := Some None |}.

Definition WalletManager_disconnect : M unit :=
  cur <- gets (fun σ => currentStrategy (this σ)) ;;
  match cur with
  | None => ret tt
  | Some _ =>
      try_catch
        (s <- this_currentStrategy ;;
         await (disconnect s) ;;
         assign_currentStrategy None ;;
         updateState disconnect_updates ;;
         cacheStrategy None ;;
         cacheAddress None)
        (fun error => throw error)
  end.

(** *** autoReconnect *)

(** [await this.currentStrategy?.member()]: [None] (undefined) without an
    active strategy. *)
Definition optional_call {A} (member : WalletStrategy -> Call A) : M (option A) :=
  cur <- gets (fun σ => currentStrategy (this σ)) ;;
  match cur with
  | Some s => a <- await (member s) ;; ret (Some a)
  | None => ret None
  end.

Definition sync_updates (address : string) (publicKey : option string)
    (permissions : option (list string)) (s : option WalletStrategy) : Partial :=
  {| p_connected := Some true;
     p_address := Some (Some address);
     p_publicKey := Some publicKey;
     p_permissions := Some (default [] permissions);
     p_strategy := Some s |}.

(** The block guarded by [cachedStrategyId.startsWith('wauth-')]: the wait,
    then the probe in its own [try]/[catch].  It yields [true] where the
    source returns [true] from [autoReconnect], [false] where it falls
    through to the reconnect below. *)
Definition wauth_probe : M bool :=
  modify (fun σ => with_world (elapse env 500 (world σ)) σ) ;;
  try_catch
    (address <- optional_call getActiveAddress ;;
     match address with
     | Some a =>
         if JsString.truthy a then
           publicKey <- optional_call getActivePublicKey ;;
           permissions <- optional_call getPermissions ;;
           cur <- gets (fun σ => currentStrategy (this σ)) ;;
           updateState (sync_updates a publicKey permissions cur) ;;
           ret true
         else ret false
     | None => ret false
     end)
    (fun _ => ret false).

Definition autoReconnect : M bool :=
  cachedStrategyId <- storage_getItem STORAGE_KEYS.STRATEGY ;;
  cachedAddress <- getCachedAddress ;;
  match cachedStrategyId with
  | Some i =>
      if JsString.truthy i && JsString.truthy_opt cachedAddress then
        try_catch
          (success <- setStrategy i ;;
           if negb success then throw (Error "Failed to set cached strategy")
           else
             synced <- (if JsString.startsWith i "wauth-"
                        then wauth_probe else ret false) ;;
             if synced then ret true
             else
               cur <- gets (fun σ => currentStrategy (this σ)) ;;
               match cur ≫= reconnect with
               | Some strategy_reconnect => await strategy_reconnect
               | None => WalletManager_connect None
               end ;;
               ret true)
          (fun _ => ret false)
      else ret false
  | None => ret false
  end.

(** ** Clients of the manager *)

(** An assignment to a top-level field of a state object. *)
Inductive FieldWrite :=
| Write_connected (v : bool)
| Write_address (v : option string)
| Write_publicKey (v : option string)
| Write_permissions (v : list string)
| Write_strategy (v : option WalletStrategy).

Definition write (w : FieldWrite) (o : WalletConnectionState) : WalletConnectionState :=
  match w with
  | Write_connected v =>
      {| connected := v; address := address o; publicKey := publicKey o;
         permissions := permissions o; strategy := strategy o |}
  | Write_address v =>
      {| connected := connected o; address := v; publicKey := publicKey o;
         permissions := permissions o; strategy := strategy o |}
  | Write_publicKey v =>
      {| connected := connected o; address := address o; publicKey := v;
         permissions := permissions o; strategy := strategy o |}
  | Write_permissions v =>
      {| connected := connected o; address := address o; publicKey := publicKey o;
         permissions := v; strategy := strategy o |}
  | Write_strategy v =>
      {| connected := connected o; address := address o; publicKey := publicKey o;
         permissions := permissions o; strategy := v |}
  end.

(** [obj.field = v] on the state object at reference [l]. *)
Definition assign (l : nat) (w : FieldWrite) : M unit :=
  modify (fun σ => with_stateObjs (alter (write w) l (stateObjs σ)) σ).

(** ** Runs of the manager *)

Inductive Operation :=
| Op_setStrategy (strategyId : string)
| Op_connect (permissions : option (list string))
| Op_disconnect
| Op_autoReconnect
| Op_onStateChange (listener : nat)
| Op_unsubscribe (listener : nat)
| Op_getState.

(** The machine after an operation, whether it returned or threw. *)
Definition after (op : Operation) (σ : Machine) : Machine :=
  match op with
  | Op_setStrategy i => snd (setStrategy i σ)
  | Op_connect p => snd (WalletManager_connect p σ)
  | Op_disconnect => snd (WalletManager_disconnect σ)
  | Op_autoReconnect => snd (autoReconnect σ)
  | Op_onStateChange l => snd (onStateChange l σ)
  | Op_unsubscribe l => snd (unsubscribe l σ)
  | Op_getState => snd (getState σ)
  end.

(** The states a manager goes through: constructed in some page, then any
    operations in sequence. *)
Inductive reachable : Machine -> Prop :=
| reachable_constructed w ls : reachable (snd (constructor w ls))
| reachable_after op σ : reachable σ -> reachable (after op σ).

End Manager.

(** The world is read off the other arguments. *)
Arguments spread {World}.
Arguments disconnected {World}.
Arguments ArweaveWalletStrategy {World}.
Arguments MetaMaskWalletStrategy {World}.
Arguments WAuthStrategy {World}.
Arguments ret {World A} a.
Arguments bind {World A B} m k.
Arguments throw {World A} e.
Arguments try_catch {World A} m handler.
Arguments gets {World A} f.
Arguments modify {World}.
Arguments with_world {World}.
Arguments with_storage {World}.
Arguments with_stateObjs {World}.
Arguments with_allocated {World}.
Arguments with_this {World}.
Arguments with_trace {World}.
Arguments set_strategies {World}.
Arguments set_currentStrategy {World}.
Arguments set_state {World}.
Arguments set_stateListeners {World}.
Arguments await {World A} c.
Arguments new {World}.
Arguments this_state {World}.
Arguments alloc_state {World}.
Arguments onStateChange {World}.
Arguments unsubscribe {World}.
Arguments perform {World}.
Arguments invoke {World}.
Arguments forEach_from {World}.
Arguments notifyListeners {World}.
Arguments updateState {World}.
Arguments storage_getItem {World}.
Arguments storage_setItem {World}.
Arguments storage_removeItem {World}.
Arguments cacheStrategy {World}.
Arguments cacheAddress {World}.
Arguments getCachedAddress {World}.
Arguments strategies_set {World}.
Arguments strategies_get {World}.
Arguments strategies_has {World}.
Arguments initializeStrategies {World}.
Arguments getOrCreateWAuthStrategy {World}.
Arguments assign_currentStrategy {World}.
Arguments only_strategy {World}.
Arguments loadCachedStrategy {World}.
Arguments fresh {World}.
Arguments constructor {World}.
Arguments setStrategy {World}.
Arguments getState {World}.
Arguments this_currentStrategy {World}.
Arguments connect_updates {World}.
Arguments WalletManager_connect {World}.
Arguments disconnect_updates {World}.
Arguments WalletManager_disconnect {World}.
Arguments optional_call {World A} member.
Arguments sync_updates {World}.
Arguments wauth_probe {World}.
Arguments autoReconnect {World}.
Arguments write {World}.
Arguments assign {World}.
Arguments after {World}.
Arguments Build_WalletStrategy {World}.
Arguments oid {World}.
Arguments id {World}.
Arguments connect {World}.
Arguments disconnect {World}.
Arguments getActiveAddress {World}.
Arguments getActivePublicKey {World}.
Arguments getPermissions {World}.
Arguments reconnect {World}.
Arguments Build_Methods {World}.
Arguments m_connect {World}.
Arguments m_disconnect {World}.
Arguments m_getActiveAddress {World}.
Arguments m_getActivePublicKey {World}.
Arguments m_getPermissions {World}.
Arguments Build_WalletConnectionState {World}.
Arguments connected {World}.
Arguments address {World}.
Arguments publicKey {World}.
Arguments permissions {World}.
Arguments strategy {World}.
Arguments Build_Partial {World}.
Arguments p_connected {World}.
Arguments p_address {World}.
Arguments p_publicKey {World}.
Arguments p_permissions {World}.
Arguments p_strategy {World}.
Arguments Notified {World}.
Arguments Unsubscribed {World}.
Arguments Build_Environment {World}.
Arguments arweaveWallet {World}.
Arguments ethereum {World}.
Arguments wauth {World}.
Arguments wauth_reconnect {World}.
Arguments elapse {World}.
Arguments callbacks {World}.
Arguments Build_WalletManager {World}.
Arguments strategies {World}.
Arguments currentStrategy {World}.
Arguments state {World}.
Arguments stateListeners {World}.
Arguments Build_Machine {World}.
Arguments world {World}.
Arguments storage {World}.
Arguments stateObjs {World}.
Arguments allocated {World}.
Arguments this {World}.
Arguments trace {World}.
Arguments Write_connected {World}.
Arguments Write_address {World}.
Arguments Write_publicKey {World}.
Arguments Write_permissions {World}.
Arguments Write_strategy {World}.
Arguments reachable {World}.
Arguments reachable_constructed {World}.
Arguments reachable_after {World}.

(** ** Raw-signer normalisation (signer.ts) *)

Module Signer.

(** The runtime values a raw signer can be.  Functions and objects are
    references; numbers are kept as integers, with [NaN] apart. *)
Inductive JsValue :=
| Undefined
| Null
| Boolean (b : bool)
| Number (n : Z)
| NaN
| BigInt (n : Z)
| Str (s : string)
| Symbol (description : string)
| Function (ref : nat)
| Object (ref : nat).

Definition typeof (v : JsValue) : string :=
  match v with
  | Undefined => "undefined"
  | Null => "object"
  | Boolean _ => "boolean"
  | Number _ | NaN => "number"
  | BigInt _ => "bigint"
  | Str _ => "string"
  | Symbol _ => "symbol"
  | Function _ => "function"
  | Object _ => "object"
  end.

(** [!!v] *)
Definition truthy (v : JsValue) : bool :=
  match v with
  | Undefined | Null | NaN => false
  | Boolean b => b
  | Number n | BigInt n => negb (Z.eqb n 0)
  | Str s => JsString.truthy s
  | Symbol _ | Function _ | Object _ => true
  end.

(** [v !== null] *)
Definition not_null (v : JsValue) : bool :=
  match v with
  | Null => false
  | _ => true
  end.

Section Adapter.

(** [createDataItemSigner] of @permaweb/aoconnect, which returns the
    wrapped signer or throws. *)
Variable createDataItemSigner : JsValue -> Outcome JsValue.

(** The result is [AoSignerFunction | null]. *)
Definition createAoSigner (rawSigner : JsValue) : option JsValue :=
  if negb (truthy rawSigner) then None
  else if String.eqb (typeof rawSigner) "function" then Some rawSigner
  else if String.eqb (typeof rawSigner) "object" && not_null rawSigner then
    match createDataItemSigner rawSigner with
    | Returns wrapped => Some wrapped
    | Throws _ => None
    end
  else None.

Definition isValidSigner (signer : JsValue) : bool :=
  String.eqb (typeof signer) "function".

End Adapter.

End Signer.

(** ** Vocabulary of the statements *)

Section Vocabulary.

Context {World : Type}.

(** A run of operations, in order. *)
Definition run (env : Environment World) (ops : list Operation)
    (σ : Machine World) : Machine World :=
  foldl (fun σ op => after env op σ) σ ops.

(** [m] keeps [P], whether it returns or throws. *)
Definition preserves {A} (P : Machine World -> Prop) (m : M World A) : Prop :=
  forall σ, P σ -> P (snd (m σ)).

(** [m] does not throw. *)
Definition never_throws {A} (m : M World A) : Prop :=
  forall σ, exists a, fst (m σ) = Returns a.

(** What is left of the machine when the observers and the trace are put
    aside. *)
Definition core (σ : Machine World) :=
  (world σ, storage σ, stateObjs σ, allocated σ,
   strategies (this σ), currentStrategy (this σ), state (this σ)).

(** One of the four backend steps of [connect] throws [e], the ones before
    it having returned; [w'] is the world it leaves. *)
Inductive backend_failure (s : WalletStrategy World)
    (permissions : option (list string)) (w : World) (e : Exn) (w' : World) : Prop :=
| connect_throws :
    connect s permissions w = (Throws e, w') ->
    backend_failure s permissions w e w'
| getActiveAddress_throws w1 :
    connect s permissions w = (Returns tt, w1) ->
    getActiveAddress s w1 = (Throws e, w') ->
    backend_failure s permissions w e w'
| getActivePublicKey_throws w1 a w2 :
    connect s permissions w = (Returns tt, w1) ->
    getActiveAddress s w1 = (Returns a, w2) ->
    getActivePublicKey s w2 = (Throws e, w') ->
    backend_failure s permissions w e w'
| getPermissions_throws w1 a w2 k w3 :
    connect s permissions w = (Returns tt, w1) ->
    getActiveAddress s w1 = (Returns a, w2) ->
    getActivePublicKey s w2 = (Returns k, w3) ->
    getPermissions s w3 = (Throws e, w') ->
    backend_failure s permissions w e w'.

(** The invariant of a connection state: connected only with an address. *)
Definition connected_has_address (st : WalletConnectionState World) : Prop :=
  connected st = true -> is_Some (address st).

(** [this.state] refers to an allocated object, which satisfies the
    invariant. *)
Definition state_ok (σ : Machine World) : Prop :=
  state (this σ) < length (stateObjs σ) /\ connected_has_address (this_state σ).

(** A connected state has an active strategy. *)
Definition connected_has_strategy (σ : Machine World) : Prop :=
  connected (this_state σ) = true -> is_Some (currentStrategy (this σ)).

(** How often a callback is in the array of listeners. *)
Fixpoint occurrences (x : nat) (ls : list nat) : nat :=
  match ls with
  | [] => 0
  | y :: ls' => (if decide (y = x) then 1 else 0) + occurrences x ls'
  end.

(** In a trace, no notification of [x] comes after a call of the
    unsubscribe handle of [x]. *)
Definition quiet_after (x : nat) (evs : list (Event World)) : Prop :=
  forall i j obj seen,
    evs !! i = Some (Unsubscribed x) ->
    evs !! j = Some (Notified x obj seen) ->
    j < i.

(** What the run so far has established about the observer [x]: it is
    subscribed at most once, it was not notified after being unsubscribed,
    and once unsubscribed it is no longer in the array. *)
Definition observer_ok (x : nat) (σ : Machine World) : Prop :=
  occurrences x (stateListeners (this σ)) <= 1
  /\ quiet_after x (trace σ)
  /\ (Unsubscribed x ∈ trace σ -> occurrences x (stateListeners (this σ)) = 0).

(** Two machines that differ at most in what the state object at
    reference [l] holds, [l] being allocated and not [this.state]. *)
Definition agree_off (l : nat) (σa σb : Machine World) : Prop :=
  world σa = world σb /\ storage σa = storage σb /\ allocated σa = allocated σb
  /\ this σa = this σb /\ trace σa = trace σb
  /\ length (stateObjs σa) = length (stateObjs σb)
  /\ (forall i, i <> l -> stateObjs σa !! i = stateObjs σb !! i)
  /\ l < length (stateObjs σa)
  /\ state (this σa) <> l.

(** [m] does the same on two such machines. *)
Definition simulates (l : nat) {A} (m : M World A) : Prop :=
  forall σa σb,
    agree_off l σa σb ->
    fst (m σa) = fst (m σb) /\ agree_off l (snd (m σa)) (snd (m σb)).

(** The observers whose unsubscribe handle a callback calls, in order. *)
Definition unsubscribed_by (actions : list CallbackAction) : list nat :=
  omap (fun a => match a with Unsubscribe l => Some l | _ => None end) actions.

(** A callback that does nothing but call unsubscribe handles. *)
Definition only_unsubscribes (actions : list CallbackAction) : Prop :=
  forall a, a ∈ actions -> exists l, a = Unsubscribe l.

(** A round of notifications as an iteration over a snapshot of the
    observers: each observer of [pending] is notified in its turn, unless an
    observer notified before it in the round has unsubscribed it.  [drops x]
    is what the callback of [x] unsubscribes, [dropped] what has been
    unsubscribed in the round so far.  The result lists who is notified. *)
Fixpoint notified_of (drops : nat -> list nat) (dropped pending : list nat) : list nat :=
  match pending with
  | [] => []
  | x :: rest =>
      if decide (x ∈ dropped) then notified_of drops dropped rest
      else x :: notified_of drops (drops x ++ dropped) rest
  end.

(** What such a round writes to the trace: each notification, with the
    state object delivered, followed by the unsubscriptions of the callback. *)
Fixpoint round_events (drops : nat -> list nat) (obj : nat)
    (seen : WalletConnectionState World) (notified : list nat) : list (Event World) :=
  match notified with
  | [] => []
  | x :: rest =>
      Notified x obj seen :: (Unsubscribed <$> drops x) ++ round_events drops obj seen rest
  end.

(** The hazard of unsubscribing during a round does not arise: no callback
    unsubscribes its own observer, or an observer notified before it in the
    round, while an observer after it is still to be notified.  [before]
    are the observers of the snapshot ahead of [pending]. *)
Fixpoint splice_safe (drops : nat -> list nat) (dropped before pending : list nat) : Prop :=
  match pending with
  | [] => True
  | x :: rest =>
      if decide (x ∈ dropped) then splice_safe drops dropped (before ++ [x]) rest
      else
        (filter (fun y => y ∉ drops x ++ dropped) rest <> [] ->
         forall y, y ∈ drops x -> y ∈ before ++ [x] -> y ∈ dropped)
        /\ splice_safe drops (drops x ++ dropped) (before ++ [x]) rest
  end.

(** The machine with [ls] as its array of listeners and [evs] added to the
    trace. *)
Definition observing (ls : list nat) (evs : list (Event World)) (σ : Machine World)
  : Machine World :=
  with_trace (trace σ ++ evs) (with_this (set_stateListeners ls (this σ)) σ).

(** Every strategy the manager holds has a non-empty identifier. *)
Definition ids_ok (σ : Machine World) : Prop :=
  (forall i s, strategies (this σ) !! i = Some s -> JsString.truthy (id s) = true)
  /\ (forall s, currentStrategy (this σ) = Some s -> JsString.truthy (id s) = true).

End Vocabulary.

(** ** Concrete pages *)

Module Scenario.

(** The world of these pages counts the backend calls made. *)
Definition tick {A} (o : Outcome A) : Call nat A := fun w => (o, S w).

(** A wallet holding one account.  Its [disconnect] can be made to reject,
    and its account can be locked away, so that reading the address
    rejects. *)
Definition wallet (account : string) (rejects_disconnect locked : bool) : Methods nat :=
  {| m_connect := fun _ => tick (Returns tt);
     m_disconnect :=
       tick (if rejects_disconnect
             then Throws (Error "User rejected the request")
             else Returns tt);
     m_getActiveAddress :=
       tick (if locked then Throws (Error "Wallet is locked") else Returns account);
     m_getActivePublicKey := tick (Returns "public-key");
     m_getPermissions := tick (Returns ["ACCESS_ADDRESS"; "SIGN_TRANSACTION"]) |}.

(** No observer does anything. *)
Definition idle : nat -> WalletConnectionState nat -> list CallbackAction :=
  fun _ _ => [].

(** Observer 2 unsubscribes observer 1 whenever it is called. *)
Definition second_drops_first : nat -> WalletConnectionState nat -> list CallbackAction :=
  fun listener _ => if decide (listener = 2) then [Unsubscribe 1] else [].

(** Observer 3 unsubscribes observer 2 whenever it is called. *)
Definition third_drops_second : nat -> WalletConnectionState nat -> list CallbackAction :=
  fun listener _ => if decide (listener = 3) then [Unsubscribe 2] else [].

(** A page with the given extension wallet and observers. *)
Definition page (extension : Methods nat)
    (observers : nat -> WalletConnectionState nat -> list CallbackAction)
  : Environment nat :=
  {| arweaveWallet := fun _ => extension;
     ethereum := fun _ => wallet "0x52908400098527886E0F7030069857D2E4169EE7" false false;
     wauth := fun _ _ => wallet "oauth-account" false false;
     wauth_reconnect := fun _ _ => tick (Returns tt);
     elapse := fun _ w => w;
     callbacks := observers |}.

Definition good_page : Environment nat :=
  page (wallet "arweave-account" false false) idle.

(** A page whose extension wallet reports the empty string as its active
    address; [rejects_disconnect] as for [wallet]. *)
Definition blank_page (rejects_disconnect : bool) : Environment nat :=
  page (wallet "" rejects_disconnect false) idle.

Definition storage_with (entries : gmap string string) (denied full : bool) : Storage :=
  {| items := entries; accessDenied := denied; quotaExceeded := full |}.

Definition empty_storage : Storage := storage_with ∅ false false.

(** A manager constructed in [env], with the extension wallet selected. *)
Definition selected (env : Environment nat) (ls : Storage) : Machine nat :=
  after env (Op_setStrategy "arweave-native") (snd (constructor env 0 ls)).

(** The same after [connect()]. *)
Definition connected_page (env : Environment nat) (ls : Storage) : Machine nat :=
  after env (Op_connect None) (selected env ls).

(** A manager constructed in [env] on an empty storage, with observers 1,
    2 and 3 subscribed in this order. *)
Definition observed (env : Environment nat) : Machine nat :=
  run env [Op_onStateChange 1; Op_onStateChange 2; Op_onStateChange 3]
    (snd (constructor env 0 empty_storage)).

End Scenario.

(** ** Claims in the words of the specification *)

(** Statements that the properties below compare the code with.  They are
    written from the specification, not from the source. *)
Module AsStated.

(** "disconnect clears the active strategy reference, resets the state to
    the disconnected default and removes both cache entries, even when the
    strategy's own disconnect throws." *)
Definition disconnect_always_clears : Prop :=
  forall (World : Type) (env : Environment World) (σ : Machine World),
    reachable env σ ->
    is_Some (currentStrategy (this σ)) ->
    let σ' := snd (WalletManager_disconnect env σ) in
    currentStrategy (this σ') = None
    /\ this_state σ' = disconnected
    /\ items (storage σ') !! STORAGE_KEYS.STRATEGY = None
    /\ items (storage σ') !! STORAGE_KEYS.ADDRESS = None.

(** "After every successful connect the cache holds exactly the connected
    strategy's id and the connected address; after every completed
    disconnect both cache entries are absent." *)
Definition cache_round_trip : Prop :=
  forall (World : Type) (env : Environment World) (σ : Machine World),
    reachable env σ ->
    (forall permissions σ',
       WalletManager_connect env permissions σ = (Returns tt, σ') ->
       items (storage σ') !! STORAGE_KEYS.STRATEGY = id <$> strategy (this_state σ')
       /\ items (storage σ') !! STORAGE_KEYS.ADDRESS = address (this_state σ'))
    /\ (forall σ',
          WalletManager_disconnect env σ = (Returns tt, σ') ->
          items (storage σ') !! STORAGE_KEYS.STRATEGY = None
          /\ items (storage σ') !! STORAGE_KEYS.ADDRESS = None).

(** The identifiers of the OAuth strategies, which the registry creates on
    first reference. *)
Definition oauth_ids : list string :=
  (fun provider => "wauth-" +:+ provider)
    <$> [WAuthProviders.Github; WAuthProviders.Google;
         WAuthProviders.Discord; WAuthProviders.X].

(** An identifier names a registered strategy: one the registry holds, or
    one of the OAuth strategies. *)
Definition registered {World : Type} (σ : Machine World) (i : string) : Prop :=
  is_Some (strategies (this σ) !! i) \/ i ∈ oauth_ids.

(** "For every identifier that does not name a registered strategy,
    setStrategy is a no-op, returns false and does not throw." *)
Definition unknown_id_rejected : Prop :=
  forall (World : Type) (env : Environment World) (σ : Machine World) (i : string),
    reachable env σ ->
    ~ registered σ i ->
    setStrategy env i σ = (Returns false, σ).

(** "Every state replacement notifies all currently subscribed observers":
    with observers A, B, C that only subscribe and unsubscribe, whoever is
    subscribed when the replacement is over has been notified of it. *)
Definition observers_all_notified : Prop :=
  forall (World : Type) (env : Environment World) (σ : Machine World)
         (A B C : nat) (updates : Partial World),
    stateListeners (this σ) = [A; B; C] ->
    NoDup [A; B; C] ->
    trace σ = [] ->
    (forall l st e, Raise e ∉ callbacks env l st) ->
    (forall l st x, Subscribe x ∉ callbacks env l st) ->
    let σ' := snd (updateState env updates σ) in
    forall l, l ∈ stateListeners (this σ') ->
              exists obj seen, Notified l obj seen ∈ trace σ'.

End AsStated.

(** ** The rest of the manager (manager.ts): queries and pass-through *)

Section ManagerQueries.

Import Signer.

Variable World : Type.

(** The further members of a strategy object that the manager reaches for.
    [sign] is a required member of the interface, the others are optional.
    Values typed [unknown], data items and array buffers are runtime
    values. *)
Record Members := {
  sign : JsValue -> JsValue -> Call World JsValue;
  signDataItem : option (JsValue -> Call World JsValue);
  signAns104 : option (JsValue -> Call World JsValue);
  getEmail : option (Call World JsValue);
  getUsername : option (Call World (option string));
  addConnectedWallet : option (JsValue -> Call World JsValue);
  removeConnectedWallet : option (string -> Call World JsValue);
  getConnectedWallets : option (Call World (list JsValue));
  getAuthData : option (Call World JsValue);
  onAuthDataChange : option (nat -> Call World unit);
  getAoSigner : option (Call World JsValue);
}.

(** What the browser adds to the page: the further members of each strategy
    object, and the global [window]: [None] where [window] is undefined,
    else the value of [window.arweaveWallet]. *)
Record Browser := {
  members : WalletStrategy World -> Members;
  window_arweaveWallet : World -> option JsValue;
}.

Variable env : Environment World.
Variable browser : Browser.

Notation "x <- m ;; k" := (bind m (fun x => k))
  (at level 20, m at level 99, k at level 200, only parsing) : js_scope.
Notation "m ;; k" := (bind m (fun _ => k))
  (at level 100, k at level 200, only parsing, right associativity) : js_scope.
Local Open Scope js_scope.

Definition getCurrentStrategy : M World (option (WalletStrategy World)) :=
  gets (fun σ => currentStrategy (this σ)).

(** [!this.currentStrategy || !this.state.connected] *)
Definition not_in_session (σ : Machine World) : bool :=
  match currentStrategy (this σ) with
  | Some _ => negb (connected (this_state σ))
  | None => true
  end.

Definition WalletManager_getActiveAddress : M World (option string) :=
  idle <- gets not_in_session ;;
  if idle then ret None
  else
    try_catch
      (s <- this_currentStrategy ;;
       a <- await (getActiveAddress s) ;;
       ret (Some a))
      (fun _ => ret None).

Definition WalletManager_getActivePublicKey : M World (option string) :=
  idle <- gets not_in_session ;;
  if idle then ret None
  else
    try_catch
      (s <- this_currentStrategy ;;
       k <- await (getActivePublicKey s) ;;
       ret (Some k))
      (fun _ => ret None).

Definition WalletManager_sign (transaction options : JsValue) : M World JsValue :=
  cur <- gets (fun σ => currentStrategy (this σ)) ;;
  match cur with
  | None => throw (Error "No wallet strategy selected")
  | Some _ =>
      s <- this_currentStrategy ;;
      await (sign (members browser s) transaction options)
  end.

(** [this.currentStrategy?.member]: the optional member of the active
    strategy, [None] without a strategy or without the member. *)
Definition optional_member {A} (member : Members -> option A) : M World (option A) :=
  gets (fun σ => currentStrategy (this σ) ≫= fun s => member (members browser s)).

Definition WalletManager_signDataItem (dataItem : JsValue) : M World JsValue :=
  member <- optional_member signDataItem ;;
  match member with
  | None => throw (Error "Sign data item not supported by current strategy")
  | Some strategy_signDataItem => await (strategy_signDataItem dataItem)
  end.

Definition WalletManager_signAns104 (dataItem : JsValue) : M World JsValue :=
  member <- optional_member signAns104 ;;
  match member with
  | None => throw (Error "Sign ANS-104 not supported by current strategy")
  | Some strategy_signAns104 => await (strategy_signAns104 dataItem)
  end.

Definition WalletManager_getEmail : M World JsValue :=
  member <- optional_member getEmail ;;
  match member with
  | None => ret Null
  | Some strategy_getEmail => try_catch (await strategy_getEmail) (fun _ => ret Null)
  end.

Definition WalletManager_getUsername : M World (option string) :=
  member <- optional_member getUsername ;;
  match member with
  | None => ret None
  | Some strategy_getUsername => try_catch (await strategy_getUsername) (fun _ => ret None)
  end.

Definition WalletManager_addConnectedWallet (wallet : JsValue) : M World JsValue :=
  member <- optional_member addConnectedWallet ;;
  match member with
  | None => throw (Error "Add connected wallet not supported by current strategy")
  | Some strategy_addConnectedWallet => await (strategy_addConnectedWallet wallet)
  end.

Definition WalletManager_removeConnectedWallet (walletId : string) : M World JsValue :=
  member <- optional_member removeConnectedWallet ;;
  match member with
  | None => throw (Error "Remove connected wallet not supported by current strategy")
  | Some strategy_removeConnectedWallet => await (strategy_removeConnectedWallet walletId)
  end.

Definition WalletManager_getConnectedWallets : M World (list JsValue) :=
  member <- optional_member getConnectedWallets ;;
  match member with
  | None => ret []
  | Some strategy_getConnectedWallets =>
      try_catch (await strategy_getConnectedWallets) (fun _ => ret [])
  end.

Definition WalletManager_getAuthData : M World JsValue :=
  member <- optional_member getAuthData ;;
  match member with
  | None => ret Null
  | Some strategy_getAuthData => await strategy_getAuthData
  end.

Definition WalletManager_onAuthDataChange (callback : nat) : M World unit :=
  member <- optional_member onAuthDataChange ;;
  match member with
  | Some strategy_onAuthDataChange => await (strategy_onAuthDataChange callback)
  | None => ret tt
  end.

Definition WalletManager_getAoSigner : M World JsValue :=
  member <- optional_member getAoSigner ;;
  match member with
  | None => ret Null
  | Some strategy_getAoSigner => await strategy_getAoSigner
  end.

Definition getRawSigner : M World JsValue :=
  cur <- gets (fun σ => currentStrategy (this σ)) ;;
  match cur with
  | None => ret Null
  | Some s =>
      if String.eqb (id s) "arweave-native" then
        gets (fun σ => match window_arweaveWallet browser (world σ) with
                       | Some wallet => wallet
                       | None => Null
                       end)
      else WalletManager_getAoSigner
  end.

(** [this.currentStrategy?.id.startsWith('wauth-') || false] *)
Definition isWAuthStrategy : M World bool :=
  gets (fun σ => match currentStrategy (this σ) with
                 | Some s => JsString.startsWith (id s) "wauth-"
                 | None => false
                 end).

(** [this.currentStrategy?.id === 'arweave-native'] *)
Definition isArweaveNativeStrategy : M World bool :=
  gets (fun σ => match currentStrategy (this σ) with
                 | Some s => String.eqb (id s) "arweave-native"
                 | None => false
                 end).

Definition isMetaMaskStrategy : M World bool :=
  gets (fun σ => match currentStrategy (this σ) with
                 | Some s => String.eqb (id s) "metamask"
                 | None => false
                 end).

(** [wauthProviders.forEach(provider => this.getOrCreateWAuthStrategy(provider))] *)
Fixpoint forEach_provider (providers : list string) : M World unit :=
  match providers with
  | [] => ret tt
  | provider :: rest =>
      getOrCreateWAuthStrategy env provider ;; forEach_provider rest
  end.

(** [Array.from(this.strategies.values())].  A JavaScript [Map] lists its
    values in insertion order, which the registry as a finite map does not
    keep: the list is the right one up to its order. *)
Definition getStrategies : M World (list (WalletStrategy World)) :=
  forEach_provider [WAuthProviders.Github; WAuthProviders.Google;
                    WAuthProviders.Discord; WAuthProviders.X] ;;
  gets (fun σ => snd <$> map_to_list (strategies (this σ))).

(** *** The helpers exported next to the OAuth strategy (wauth.ts) *)

(** [connected && !address && !localStorage.getItem('pocketbase_auth')]; the
    storage is only read when the first two hold. *)
Definition shouldDisconnect (address : option string) (connected : bool) : M World bool :=
  if connected && negb (JsString.truthy_opt address) then
    auth <- storage_getItem "pocketbase_auth" ;;
    ret (negb (JsString.truthy_opt auth))
  else ret false.

Definition fixConnection (address : option string) (connected : bool)
    (disconnect : M World unit) : M World unit :=
  should <- shouldDisconnect address connected ;;
  if should then
    storage_removeItem "pocketbase_auth" ;;
    storage_removeItem "wallet_kit_strategy_id" ;;
    disconnect
  else ret tt.

(** *** The provider component and the hooks (provider.tsx, hooks.ts) *)

(** The React state kept beside the connection state. *)
Record UiState := {
  isLoading : bool;
  error : option string;
  signer : option JsValue;
  signerLoading : bool;
}.

Definition setIsLoading (b : bool) (ui : UiState) : UiState :=
  {| isLoading := b; error := error ui; signer := signer ui;
     signerLoading := signerLoading ui |}.

Definition setError (e : option string) (ui : UiState) : UiState :=
  {| isLoading := isLoading ui; error := e; signer := signer ui;
     signerLoading := signerLoading ui |}.

Definition setSigner (f : option JsValue) (ui : UiState) : UiState :=
  {| isLoading := isLoading ui; error := error ui; signer := f;
     signerLoading := signerLoading ui |}.

Definition setSignerLoading (b : bool) (ui : UiState) : UiState :=
  {| isLoading := isLoading ui; error := error ui; signer := signer ui;
     signerLoading := b |}.

(** The message of what was thrown.  Every exception of the embedding is an
    instance of [Error]; the message of a DOM exception is the browser's. *)
Variable DOMException_message : string -> string.

Definition message_of (e : Exn) : string :=
  match e with
  | Error m | TypeError m => m
  | DOMException name => DOMException_message name
  end.

(** [setIsLoading(true); setError(null); try { body } catch (err) {
    setError(err.message); throw err } finally { setIsLoading(false) }] *)
Definition guarded (body : M World unit) (ui : UiState) (σ : Machine World)
  : Outcome unit * UiState * Machine World :=
  let ui1 := setError None (setIsLoading true ui) in
  match body σ with
  | (Returns tt, σ') => (Returns tt, setIsLoading false ui1, σ')
  | (Throws err, σ') =>
      (Throws err, setIsLoading false (setError (Some (message_of err)) ui1), σ')
  end.

(** [connect] of the provider; the hook's own [connect] is the same with no
    permissions. *)
Definition provider_connect (permissions : option (list string))
    (strategyId : option string) : UiState -> Machine World -> Outcome unit * UiState * Machine World :=
  guarded
    ((match strategyId with
      | Some i => if JsString.truthy i then setStrategy env i ;; ret tt else ret tt
      | None => ret tt
      end) ;;
     WalletManager_connect env permissions).

Definition provider_disconnect : UiState -> Machine World -> Outcome unit * UiState * Machine World :=
  guarded (WalletManager_disconnect env).

(** What a ref or a callback of the provider holds: an action on the React
    state and the manager. *)
Definition UiAction : Type :=
  UiState -> Machine World -> Outcome unit * UiState * Machine World.

(** [state.connected && !state.address]: the edge case the provider looks
    for, connected with a null or an empty address. *)
Definition connected_without_address (state : WalletConnectionState World) : bool :=
  connected state && negb (JsString.truthy_opt (address state)).

(** The effect "fix connection edge cases" of the provider: on such a state
    it calls what [disconnectRef] holds, if it holds anything
    ([disconnectRef.current?.()]).  The promise is dropped, so a rejection
    does not reach the effect; what the call did stays. *)
Definition fixConnectionEdgeCase (disconnectRef : option UiAction)
    (state : WalletConnectionState World) (ui : UiState) (σ : Machine World)
  : UiState * Machine World :=
  if connected_without_address state then
    match disconnectRef with
    | Some disconnect => let '(_, ui', σ') := disconnect ui σ in (ui', σ')
    | None => (ui, σ)
    end
  else (ui, σ).

(** The first commit of the provider, rendered with [state].  The ref is
    created unset ([useRef()]) and the effects run in the order of the
    source: the fix runs before the effect that stores [disconnect] in the
    ref.  The last component is the ref after the commit. *)
Definition first_commit (state : WalletConnectionState World) (ui : UiState)
    (σ : Machine World) : UiState * Machine World * option UiAction :=
  (fixConnectionEdgeCase None state ui σ, Some provider_disconnect).

(** A later commit, from the render with [prev] to the render with [state]:
    the ref holds [disconnect], and the fix runs when one of its
    dependencies, [state.connected] and [state.address], has changed. *)
Definition later_commit (prev state : WalletConnectionState World) (ui : UiState)
    (σ : Machine World) : UiState * Machine World :=
  if bool_decide (connected prev = connected state /\ address prev = address state)
  then (ui, σ)
  else fixConnectionEdgeCase (Some provider_disconnect) state ui σ.

Variable createDataItemSigner : JsValue -> Outcome JsValue.

(** [updateSigner] of the provider and of [useAoSigner]. *)
Definition updateSigner (ui : UiState) (σ : Machine World) : UiState * Machine World :=
  let ui1 := setSignerLoading true ui in
  match getRawSigner σ with
  | (Returns rawSigner, σ') =>
      (setSignerLoading false
         (setSigner (createAoSigner createDataItemSigner rawSigner) ui1), σ')
  | (Throws _, σ') => (setSignerLoading false (setSigner None ui1), σ')
  end.

End ManagerQueries.

Arguments Build_Members {World}.
Arguments sign {World}.
Arguments signDataItem {World}.
Arguments signAns104 {World}.
Arguments getEmail {World}.
Arguments getUsername {World}.
Arguments addConnectedWallet {World}.
Arguments removeConnectedWallet {World}.
Arguments getConnectedWallets {World}.
Arguments getAuthData {World}.
Arguments onAuthDataChange {World}.
Arguments getAoSigner {World}.
Arguments Build_Browser {World}.
Arguments members {World}.
Arguments window_arweaveWallet {World}.
Arguments getCurrentStrategy {World}.
Arguments not_in_session {World}.
Arguments WalletManager_getActiveAddress {World}.
Arguments WalletManager_getActivePublicKey {World}.
Arguments WalletManager_sign {World}.
Arguments optional_member {World} browser {A} member.
Arguments WalletManager_signDataItem {World}.
Arguments WalletManager_signAns104 {World}.
Arguments WalletManager_getEmail {World}.
Arguments WalletManager_getUsername {World}.
Arguments WalletManager_addConnectedWallet {World}.
Arguments WalletManager_removeConnectedWallet {World}.
Arguments WalletManager_getConnectedWallets {World}.
Arguments WalletManager_getAuthData {World}.
Arguments WalletManager_onAuthDataChange {World}.
Arguments WalletManager_getAoSigner {World}.
Arguments getRawSigner {World}.
Arguments isWAuthStrategy {World}.
Arguments isArweaveNativeStrategy {World}.
Arguments isMetaMaskStrategy {World}.
Arguments forEach_provider {World}.
Arguments getStrategies {World}.
Arguments shouldDisconnect {World}.
Arguments fixConnection {World}.
Arguments guarded {World}.
Arguments provider_connect {World}.
Arguments provider_disconnect {World}.
Arguments UiAction World : clear implicits.
Arguments connected_without_address {World}.
Arguments fixConnectionEdgeCase {World}.
Arguments first_commit {World}.
Arguments later_commit {World}.
Arguments message_of DOMException_message e : assert.
Arguments updateSigner {World}.

(** ** The debug logger (logger.ts) *)

Module Logger.

(** [STORAGE_KEYS.DEBUG] *)
Definition DEBUG : string := "AO_WALLET_DEBUG".

Inductive Level := log | info | warn | error.

(** The two module variables, and what was written to the console: the
    level and the arguments after the ['[ao-wallet]'] tag. *)
Record State (Arg : Type) := {
  debugEnabled : option bool;
  providerDebugOverride : option bool;
  console : list (Level * list Arg);
}.
Arguments debugEnabled {Arg}.
Arguments providerDebugOverride {Arg}.
Arguments console {Arg}.

Section Logging.

Context {Arg : Type}.

(** [envDebug]: whether [import.meta.env.VITE_WALLET_DEBUG] is ['true'].
    The storage is read, and the variable looked at, only when neither the
    override nor the cached answer is set; a storage that throws gives
    [false], which is cached like any answer. *)
Definition isDebugEnabled (envDebug : bool) (ls : Storage) (s : State Arg)
  : bool * State Arg :=
  match providerDebugOverride s with
  | Some enabled => (enabled, s)
  | None =>
      match debugEnabled s with
      | Some enabled => (enabled, s)
      | None =>
          let enabled :=
            match localStorage.getItem DEBUG ls with
            | Returns item =>
                let localStorageDebug :=
                  match item with
                  | Some v => String.eqb v "true"
                  | None => false
                  end in
                localStorageDebug || envDebug
            | Throws _ => false
            end in
          (enabled,
           {| debugEnabled := Some enabled;
              providerDebugOverride := providerDebugOverride s;
              console := console s |})
      end
  end.

Definition setDebugMode (enabled : bool) (s : State Arg) : State Arg :=
  {| debugEnabled := debugEnabled s;
     providerDebugOverride := Some enabled;
     console := console s |}.

Definition resetDebugMode (s : State Arg) : State Arg :=
  {| debugEnabled := None; providerDebugOverride := None; console := console s |}.

Definition print (level : Level) (args : list Arg) (s : State Arg) : State Arg :=
  {| debugEnabled := debugEnabled s;
     providerDebugOverride := providerDebugOverride s;
     console := console s ++ [(level, args)] |}.

(** [logger.debug], [logger.info], [logger.warn]: written when debug mode is
    enabled. *)
Definition conditional (level : Level) (envDebug : bool) (ls : Storage)
    (args : list Arg) (s : State Arg) : State Arg :=
  let '(enabled, s') := isDebugEnabled envDebug ls s in
  if enabled then print level args s' else s'.

Definition debug := conditional log.
Definition logger_info := conditional info.
Definition logger_warn := conditional warn.

(** [logger.error]: always written. *)
Definition logger_error (args : list Arg) (s : State Arg) : State Arg :=
  print error args s.

(** The calls a program makes to the module. *)
Inductive LoggerCall :=
| call_debug (args : list Arg)
| call_info (args : list Arg)
| call_warn (args : list Arg)
| call_error (args : list Arg)
| call_isDebugEnabled.

Definition step (envDebug : bool) (ls : Storage) (c : LoggerCall) (s : State Arg) : State Arg :=
  match c with
  | call_debug args => debug envDebug ls args s
  | call_info args => logger_info envDebug ls args s
  | call_warn args => logger_warn envDebug ls args s
  | call_error args => logger_error args s
  | call_isDebugEnabled => snd (isDebugEnabled envDebug ls s)
  end.

(** A sequence of calls, each made in whatever environment and storage the
    page has at that moment. *)
Fixpoint steps (cs : list (bool * Storage * LoggerCall)) (s : State Arg) : State Arg :=
  match cs with
  | [] => s
  | (envDebug, ls, c) :: rest => steps rest (step envDebug ls c s)
  end.

(** What the module has decided about debug mode, if it has: the
    provider's override, or else the cached answer. *)
Definition decided (s : State Arg) : option bool :=
  match providerDebugOverride s with
  | Some enabled => Some enabled
  | None => debugEnabled s
  end.

(** What a sequence of calls writes when debug mode is [enabled] throughout:
    the errors always, the rest when enabled. *)
Definition written (enabled : bool) (cs : list (bool * Storage * LoggerCall))
  : list (Level * list Arg) :=
  omap (fun c => match c with
                 | (_, _, call_debug args) => if enabled then Some (log, args) else None
                 | (_, _, call_info args) => if enabled then Some (info, args) else None
                 | (_, _, call_warn args) => if enabled then Some (warn, args) else None
                 | (_, _, call_error args) => Some (error, args)
                 | (_, _, call_isDebugEnabled) => None
                 end) cs.

End Logging.

End Logger.

(** ** Address listeners of the strategies *)

Module AddressEvents.

(** [array.splice(start, deleteCount)] without items to insert: a negative
    [start] counts from the end, and both ends are clamped to the array. *)
Definition splice (start : Z) (deleteCount : nat) (ls : list nat) : list nat :=
  let len := Z.of_nat (length ls) in
  let actualStart :=
    Z.to_nat (if (start <? 0)%Z then Z.max (len + start) 0 else Z.min start len) in
  take actualStart ls ++ drop (actualStart + deleteCount) ls.

(** [array.indexOf(x)], with -1 when [x] is not in the array. *)
Definition indexOf_or_minus_one (ls : list nat) (x : nat) : Z :=
  match indexOf ls x with
  | Some i => Z.of_nat i
  | None => (-1)%Z
  end.

(** [this.addressListeners.push(listener)] *)
Definition addAddressEvent (listener : nat) (ls : list nat) : list nat :=
  ls ++ [listener].

(** ArweaveWalletStrategy and MetaMaskWalletStrategy: the index is checked. *)
Definition removeAddressEvent (listener : nat) (ls : list nat) : list nat :=
  let index := indexOf_or_minus_one ls listener in
  if (index >? -1)%Z then splice index 1 ls else ls.

(** WAuthStrategy: [splice(indexOf(listener), 1)], the index is not checked. *)
Definition WAuth_removeAddressEvent (listener : nat) (ls : list nat) : list nat :=
  splice (indexOf_or_minus_one ls listener) 1 ls.

End AddressEvents.

(** ** Vocabulary of the further statements *)

Section SessionVocabulary.

Context {World : Type}.

(** The registry files every strategy under its own identifier; every
    strategy object in it was constructed by the manager, as an instance of
    one of the three strategy classes of the page, and no two entries are
    the same object; the active strategy is the registry's entry for its
    identifier. *)
Definition registry_ok (env : Environment World) (σ : Machine World) : Prop :=
  (forall i s, strategies (this σ) !! i = Some s -> id s = i /\ oid s < allocated σ)
  /\ (forall i j s t,
        strategies (this σ) !! i = Some s -> strategies (this σ) !! j = Some t ->
        oid s = oid t -> i = j)
  /\ (forall s, currentStrategy (this σ) = Some s ->
                strategies (this σ) !! id s = Some s)
  /\ (forall i s,
        strategies (this σ) !! i = Some s ->
        s = ArweaveWalletStrategy env (oid s)
        \/ s = MetaMaskWalletStrategy env (oid s)
        \/ exists provider, s = WAuthStrategy env provider (oid s)).

(** Everything but the backend's world. *)
Definition beside_world (σ : Machine World) :=
  (storage σ, stateObjs σ, allocated σ, this σ, trace σ).

End SessionVocabulary.

(** ** Concrete browsers and strategy members *)

Module Pages.

Import Signer.

(** A strategy that has the required [sign] and none of the optional
    members. *)
Definition plain_members : Members nat :=
  {| sign := fun transaction _ => Scenario.tick (Returns transaction);
     signDataItem := None;
     signAns104 := None;
     getEmail := None;
     getUsername := None;
     addConnectedWallet := None;
     removeConnectedWallet := None;
     getConnectedWallets := None;
     getAuthData := None;
     onAuthDataChange := None;
     getAoSigner := None |}.

(** A strategy of an OAuth account whose queries fail: the session has
    expired. *)
Definition expired_members : Members nat :=
  {| sign := fun _ _ => Scenario.tick (Throws (Error "Not logged in"));
     signDataItem := None;
     signAns104 := None;
     getEmail := Some (Scenario.tick (Throws (Error "Not logged in")));
     getUsername := Some (Scenario.tick (Throws (Error "Not logged in")));
     addConnectedWallet := None;
     removeConnectedWallet := None;
     getConnectedWallets := Some (Scenario.tick (Throws (Error "Not logged in")));
     getAuthData := Some (Scenario.tick (Throws (Error "Not logged in")));
     onAuthDataChange := None;
     getAoSigner := Some (Scenario.tick (Returns (Function 7))) |}.

(** A browser without the extension: [window.arweaveWallet] is undefined. *)
Definition plain_browser (members : Members nat) : Browser nat :=
  {| members := fun _ => members;
     window_arweaveWallet := fun _ => Some Undefined |}.

Definition no_ui : UiState :=
  {| isLoading := false; error := None; signer := None; signerLoading := false |}.

End Pages.

(** * Properties *)

Section Framework.

Context {World : Type}.
Implicit Types (σ : Machine World) (P : Machine World -> Prop).

Lemma preserves_ret {A} P (a : A) : preserves P (ret a).
Proof. intros σ H; exact H. Qed.

Lemma preserves_throw {A} P e : preserves P (throw (A:=A) e).
Proof. intros σ H; exact H. Qed.

Lemma preserves_gets {A} P (f : Machine World -> A) : preserves P (gets f).
Proof. intros σ H; exact H. Qed.

Lemma preserves_modify P f :
  (forall σ, P σ -> P (f σ)) -> preserves P (modify f).
Proof. intros Hf σ H; apply Hf, H. Qed.

Lemma preserves_bind {A B} P (m : M World A) (k : A -> M World B) :
  preserves P m -> (forall a, preserves P (k a)) -> preserves P (bind m k).
Proof.
  intros Hm Hk σ H. unfold bind. specialize (Hm σ H).
  destruct (m σ) as [[a|e] σ1]; simpl in *; [apply Hk, Hm | exact Hm].
Qed.

Lemma preserves_try_catch {A} P (m : M World A) h :
  preserves P m -> (forall e, preserves P (h e)) -> preserves P (try_catch m h).
Proof.
  intros Hm Hh σ H. unfold try_catch. specialize (Hm σ H).
  destruct (m σ) as [[a|e] σ1]; simpl in *; [exact Hm | apply Hh, Hm].
Qed.

Lemma preserves_await {A} P (c : Call World A) :
  (forall σ w, P σ -> P (with_world w σ)) -> preserves P (await c).
Proof.
  intros Hw σ H. unfold await. destruct (c (world σ)) as [o w]. apply Hw, H.
Qed.

Lemma preserves_storage_getItem P key : preserves P (storage_getItem key).
Proof. intros σ H; exact H. Qed.

Lemma preserves_storage_setItem P key value :
  (forall σ ls, P σ -> P (with_storage ls σ)) ->
  preserves P (storage_setItem key value).
Proof.
  intros Hs σ H. unfold storage_setItem.
  destruct (localStorage.setItem key value (storage σ)) as [o ls]. apply Hs, H.
Qed.

Lemma preserves_storage_removeItem P key :
  (forall σ ls, P σ -> P (with_storage ls σ)) ->
  preserves P (storage_removeItem key).
Proof.
  intros Hs σ H. unfold storage_removeItem.
  destruct (localStorage.removeItem key (storage σ)) as [o ls]. apply Hs, H.
Qed.

End Framework.

(** Structural steps of a preservation proof: binds, handlers and case
    distinctions are taken apart, the leaves are left to [auto]. *)
Create HintDb preserve.

Ltac preserving :=
  repeat first
    [ solve [auto with preserve]
    | match goal with
      | |- preserves _ (ret _) => apply preserves_ret
      | |- preserves _ (throw _) => apply preserves_throw
      | |- preserves _ (gets _) => apply preserves_gets
      | |- preserves _ (storage_getItem _) => apply preserves_storage_getItem
      | |- preserves _ (bind _ _) => apply preserves_bind; [| intros ?]
      | |- preserves _ (try_catch _ _) => apply preserves_try_catch; [| intros ?]
      | |- preserves _ (match ?x with _ => _ end) => destruct x
      end
    | progress cbv zeta ].

(** ** C1: connected only with an address *)

Section ConnectedHasAddress.

Context {World : Type} (env : Environment World).
Implicit Types (σ : Machine World).

Local Abbreviation keeps_ok := (preserves (World:=World) state_ok).

(** [state_ok] looks at the state heap and at [this.state] only. *)
Lemma state_ok_view σ σ' :
  stateObjs σ' = stateObjs σ -> state (this σ') = state (this σ) ->
  state_ok σ -> state_ok σ'.
Proof.
  unfold state_ok, this_state. intros -> ->. trivial.
Qed.

Lemma state_ok_alloc σ o :
  state_ok σ -> state_ok (with_stateObjs (stateObjs σ ++ [o]) σ).
Proof.
  unfold state_ok, this_state. simpl. intros [Hlt Hok]. split.
  - rewrite length_app. simpl. lia.
  - rewrite lookup_total_app_l by exact Hlt. exact Hok.
Qed.

Lemma state_ok_replace σ o :
  connected_has_address o ->
  state_ok (with_this (set_state (length (stateObjs σ)) (this σ))
              (with_stateObjs (stateObjs σ ++ [o]) σ)).
Proof.
  unfold state_ok, this_state. simpl. intros Hok. split.
  - rewrite length_app. simpl. lia.
  - rewrite list_lookup_total_middle by reflexivity. exact Hok.
Qed.

Lemma onStateChange_state_ok l : keeps_ok (onStateChange l).
Proof. intros σ H. eapply state_ok_view; [| | exact H]; reflexivity. Qed.

Lemma unsubscribe_state_ok l : keeps_ok (unsubscribe l).
Proof.
  intros σ H. unfold unsubscribe, modify. simpl.
  destruct (indexOf (stateListeners (this σ)) l);
    (eapply state_ok_view; [| | exact H]; reflexivity).
Qed.

Lemma perform_state_ok actions : keeps_ok (perform actions).
Proof.
  induction actions as [|[l|l|e] rest IH]; simpl.
  - apply preserves_ret.
  - apply preserves_bind; [apply onStateChange_state_ok | intros _; exact IH].
  - apply preserves_bind; [apply unsubscribe_state_ok | intros _; exact IH].
  - apply preserves_throw.
Qed.

Lemma invoke_state_ok l : keeps_ok (invoke env l).
Proof.
  intros σ H. unfold invoke. apply perform_state_ok.
  eapply state_ok_view; [| | exact H]; reflexivity.
Qed.

Lemma forEach_from_state_ok n k : keeps_ok (forEach_from env n k).
Proof.
  revert k. induction n as [|n IH]; intros k; simpl.
  - apply preserves_ret.
  - apply preserves_bind; [apply preserves_gets |].
    intros ls. destruct (ls !! k).
    + apply preserves_bind; [apply invoke_state_ok | intros _; apply IH].
    + apply IH.
Qed.

Lemma notifyListeners_state_ok : keeps_ok (notifyListeners env).
Proof.
  apply preserves_bind; [apply preserves_gets |].
  intros len. apply forEach_from_state_ok.
Qed.

(** An update that keeps the invariant of the state keeps [state_ok]. *)
Lemma updateState_state_ok updates :
  (forall st, connected_has_address st -> connected_has_address (spread st updates)) ->
  keeps_ok (updateState env updates).
Proof.
  intros Hupd σ [Hlt Hok]. unfold updateState, bind, gets, alloc_state, modify.
  simpl. apply notifyListeners_state_ok.
  apply (state_ok_replace σ). apply Hupd, Hok.
Qed.

Lemma only_strategy_ok s (st : WalletConnectionState World) :
  connected_has_address st -> connected_has_address (spread st (only_strategy s)).
Proof. unfold connected_has_address. simpl. trivial. Qed.

Lemma connect_updates_ok a k p s (st : WalletConnectionState World) :
  connected_has_address st ->
  connected_has_address (spread st (connect_updates a k p s)).
Proof. unfold connected_has_address. simpl. eauto. Qed.

Lemma sync_updates_ok a k p s (st : WalletConnectionState World) :
  connected_has_address st ->
  connected_has_address (spread st (sync_updates a k p s)).
Proof. unfold connected_has_address. simpl. eauto. Qed.

Lemma disconnect_updates_ok (st : WalletConnectionState World) :
  connected_has_address st ->
  connected_has_address (spread st disconnect_updates).
Proof. unfold connected_has_address. simpl. discriminate. Qed.

Lemma state_ok_with_world σ w : state_ok σ -> state_ok (with_world w σ).
Proof. apply state_ok_view; reflexivity. Qed.

Lemma state_ok_with_storage σ ls : state_ok σ -> state_ok (with_storage ls σ).
Proof. apply state_ok_view; reflexivity. Qed.

Lemma state_ok_with_allocated σ n : state_ok σ -> state_ok (with_allocated n σ).
Proof. apply state_ok_view; reflexivity. Qed.

Lemma state_ok_set_strategies σ r :
  state_ok σ -> state_ok (with_this (set_strategies r (this σ)) σ).
Proof. apply state_ok_view; reflexivity. Qed.

Lemma state_ok_set_currentStrategy σ s :
  state_ok σ -> state_ok (with_this (set_currentStrategy s (this σ)) σ).
Proof. apply state_ok_view; reflexivity. Qed.

Hint Resolve state_ok_with_world state_ok_with_storage state_ok_with_allocated
  state_ok_set_strategies state_ok_set_currentStrategy
  only_strategy_ok connect_updates_ok sync_updates_ok disconnect_updates_ok : preserve.
Hint Resolve preserves_await preserves_storage_setItem preserves_storage_removeItem
  preserves_modify updateState_state_ok : preserve.

Lemma cacheStrategy_state_ok i : keeps_ok (cacheStrategy i).
Proof. unfold cacheStrategy. preserving. Qed.

Lemma cacheAddress_state_ok a : keeps_ok (cacheAddress a).
Proof. unfold cacheAddress. preserving. Qed.

Lemma getCachedAddress_state_ok : keeps_ok getCachedAddress.
Proof. unfold getCachedAddress. preserving. Qed.

Lemma new_state_ok C : keeps_ok (new (World:=World) C).
Proof. intros σ H. apply state_ok_with_allocated, H. Qed.

Lemma strategies_set_state_ok i (s : WalletStrategy World) :
  keeps_ok (strategies_set i s).
Proof. unfold strategies_set. preserving. Qed.

Lemma assign_currentStrategy_state_ok (s : option (WalletStrategy World)) :
  keeps_ok (assign_currentStrategy s).
Proof. unfold assign_currentStrategy. preserving. Qed.

Hint Resolve cacheStrategy_state_ok cacheAddress_state_ok getCachedAddress_state_ok
  new_state_ok strategies_set_state_ok assign_currentStrategy_state_ok : preserve.

Lemma getOrCreateWAuthStrategy_state_ok provider :
  keeps_ok (getOrCreateWAuthStrategy env provider).
Proof. unfold getOrCreateWAuthStrategy, strategies_has, strategies_get. preserving. Qed.

Hint Resolve getOrCreateWAuthStrategy_state_ok : preserve.

Lemma initializeStrategies_state_ok : keeps_ok (initializeStrategies env).
Proof. unfold initializeStrategies. preserving. Qed.

Lemma loadCachedStrategy_state_ok : keeps_ok (loadCachedStrategy env).
Proof. unfold loadCachedStrategy, strategies_get. preserving. Qed.

Lemma setStrategy_state_ok i : keeps_ok (setStrategy env i).
Proof. unfold setStrategy, strategies_get. preserving. Qed.

Lemma this_currentStrategy_state_ok :
  keeps_ok (this_currentStrategy (World:=World)).
Proof. unfold this_currentStrategy. preserving. Qed.

Hint Resolve this_currentStrategy_state_ok setStrategy_state_ok : preserve.

Lemma connect_state_ok p : keeps_ok (WalletManager_connect env p).
Proof. unfold WalletManager_connect. preserving. Qed.

Lemma disconnect_state_ok : keeps_ok (WalletManager_disconnect env).
Proof. unfold WalletManager_disconnect. preserving. Qed.

Lemma optional_call_state_ok {A} (member : WalletStrategy World -> Call World A) :
  keeps_ok (optional_call member).
Proof. unfold optional_call. preserving. Qed.

Hint Resolve connect_state_ok optional_call_state_ok : preserve.

Lemma wauth_probe_state_ok : keeps_ok (wauth_probe env).
Proof. unfold wauth_probe. preserving. Qed.

Hint Resolve wauth_probe_state_ok : preserve.

Lemma autoReconnect_state_ok : keeps_ok (autoReconnect env).
Proof. unfold autoReconnect. preserving. Qed.

Lemma getState_state_ok : keeps_ok (getState (World:=World)).
Proof.
  intros σ H. unfold getState, bind, gets, alloc_state. simpl.
  apply state_ok_alloc, H.
Qed.

Lemma after_state_ok op σ : state_ok σ -> state_ok (after env op σ).
Proof.
  destruct op; simpl.
  - apply setStrategy_state_ok.
  - apply connect_state_ok.
  - apply disconnect_state_ok.
  - apply autoReconnect_state_ok.
  - apply onStateChange_state_ok.
  - apply unsubscribe_state_ok.
  - apply getState_state_ok.
Qed.

Lemma constructor_state_ok w ls : state_ok (snd (constructor env w ls)).
Proof.
  unfold constructor.
  assert (Hp : keeps_ok (bind (initializeStrategies env)
                                    (fun _ => loadCachedStrategy env))).
  { apply preserves_bind;
      [apply initializeStrategies_state_ok | intros _; apply loadCachedStrategy_state_ok]. }
  apply Hp. split; [simpl; lia |]. unfold connected_has_address. simpl. discriminate.
Qed.

Lemma reachable_state_ok σ : reachable env σ -> state_ok σ.
Proof.
  induction 1 as [w ls | op σ _ IH].
  - apply constructor_state_ok.
  - apply after_state_ok, IH.
Qed.

End ConnectedHasAddress.

(** ** What a notification leaves alone *)

Section UpdateState.

Context {World : Type} (env : Environment World).
Implicit Types (σ : Machine World).

Local Abbreviation keeps_core c := (preserves (World:=World) (fun σ => core σ = c)).

Lemma onStateChange_core c l : keeps_core c (onStateChange l).
Proof. intros σ H. exact H. Qed.

Lemma unsubscribe_core c l : keeps_core c (unsubscribe l).
Proof.
  intros σ H. unfold unsubscribe, modify. simpl.
  destruct (indexOf (stateListeners (this σ)) l); exact H.
Qed.

Lemma perform_core c actions : keeps_core c (perform actions).
Proof.
  induction actions as [|[l|l|e] rest IH]; simpl.
  - apply preserves_ret.
  - apply preserves_bind; [apply onStateChange_core | intros _; exact IH].
  - apply preserves_bind; [apply unsubscribe_core | intros _; exact IH].
  - apply preserves_throw.
Qed.

Lemma invoke_core c l : keeps_core c (invoke env l).
Proof. intros σ H. unfold invoke. apply perform_core. exact H. Qed.

Lemma forEach_from_core c n k : keeps_core c (forEach_from env n k).
Proof.
  revert k. induction n as [|n IH]; intros k; simpl.
  - apply preserves_ret.
  - apply preserves_bind; [apply preserves_gets |].
    intros ls. destruct (ls !! k).
    + apply preserves_bind; [apply invoke_core | intros _; apply IH].
    + apply IH.
Qed.

Lemma notifyListeners_core σ : core (snd (notifyListeners env σ)) = core σ.
Proof.
  assert (H : keeps_core (core σ) (notifyListeners env)).
  { apply preserves_bind; [apply preserves_gets |].
    intros len. apply forEach_from_core. }
  apply H. reflexivity.
Qed.

(** [updateState] allocates the merged state, makes it [this.state], and
    leaves the rest of the core alone, whatever the observers do. *)
Lemma updateState_core updates σ :
  core (snd (updateState env updates σ))
  = (world σ, storage σ, stateObjs σ ++ [spread (this_state σ) updates],
     allocated σ, strategies (this σ), currentStrategy (this σ),
     length (stateObjs σ)).
Proof.
  unfold updateState, bind, gets, alloc_state, modify. simpl.
  rewrite notifyListeners_core. reflexivity.
Qed.

Lemma updateState_this_state updates σ :
  this_state (snd (updateState env updates σ)) = spread (this_state σ) updates.
Proof.
  pose proof (updateState_core updates σ) as H. unfold core in H.
  unfold this_state at 1.
  injection H as _ _ Hobjs _ _ _ Hst. rewrite Hobjs, Hst.
  apply list_lookup_total_middle. reflexivity.
Qed.

End UpdateState.

(** ** C2: a failed connect commits nothing *)

Section ConnectFailure.

Context {World : Type} (env : Environment World).
Implicit Types (σ : Machine World).

(** C2.  When one of the four backend steps of [connect] throws, [connect]
    throws that same error, and the machine is the one before the call but
    for what the backend did to its own world: the connection state, the
    active strategy, the cache and the observers' trace are as they were. *)
Theorem connect_failure_commits_nothing σ s permissions e w' :
  currentStrategy (this σ) = Some s ->
  backend_failure s permissions (world σ) e w' ->
  WalletManager_connect env permissions σ = (Throws e, with_world w' σ).
Proof.
  intros Hcur Hfail.
  unfold WalletManager_connect, bind at 1, gets at 1. simpl. rewrite Hcur.
  unfold try_catch, bind, this_currentStrategy, bind, gets, await, ret. simpl.
  rewrite Hcur.
  destruct Hfail as [H1 | w1 H1 H2 | w1 a w2 H1 H2 H3 | w1 a w2 k w3 H1 H2 H3 H4];
    rewrite H1; simpl; rewrite ?Hcur; simpl;
    try (rewrite H2; simpl; rewrite ?Hcur; simpl);
    try (rewrite H3; simpl; rewrite ?Hcur; simpl);
    try (rewrite H4; simpl);
    reflexivity.
Qed.

End ConnectFailure.

Section ConnectFailureWitness.

Import Scenario.

Lemma connect_failure_commits_nothing_witness :
  let env := page (wallet "arweave-account" false true) idle in
  let σ := selected env empty_storage in
  WalletManager_connect env None σ
  = (Throws (Error "Wallet is locked"), with_world 2 σ).
Proof.
  intros env σ.
  eapply connect_failure_commits_nothing;
    [ vm_compute; reflexivity
    | eapply getActiveAddress_throws; vm_compute; reflexivity ].
Defined.

End ConnectFailureWitness.

(** ** C3: disconnect *)

Section Disconnect.

Context {World : Type} (env : Environment World).
Implicit Types (σ : Machine World).

Lemma updateState_spec updates σ :
  exists o σ',
    updateState env updates σ = (o, σ')
    /\ world σ' = world σ /\ storage σ' = storage σ
    /\ allocated σ' = allocated σ
    /\ strategies (this σ') = strategies (this σ)
    /\ currentStrategy (this σ') = currentStrategy (this σ)
    /\ this_state σ' = spread (this_state σ) updates.
Proof.
  pose proof (updateState_core env updates σ) as Hcore.
  pose proof (updateState_this_state env updates σ) as Hst.
  destruct (updateState env updates σ) as [o σ']. simpl in *.
  unfold core in Hcore. injection Hcore as Hw Hs _ Ha Hr Hc _.
  exists o, σ'. repeat split; assumption.
Qed.

(** The cache writes swallow what the storage throws. *)
Lemma cacheStrategy_remove σ :
  cacheStrategy None σ
  = (Returns tt,
     with_storage (snd (localStorage.removeItem STORAGE_KEYS.STRATEGY (storage σ))) σ).
Proof.
  unfold cacheStrategy, try_catch, storage_removeItem, localStorage.removeItem.
  destruct (accessDenied (storage σ)); reflexivity.
Qed.

Lemma cacheAddress_remove σ :
  cacheAddress None σ
  = (Returns tt,
     with_storage (snd (localStorage.removeItem STORAGE_KEYS.ADDRESS (storage σ))) σ).
Proof.
  unfold cacheAddress, try_catch, storage_removeItem, localStorage.removeItem.
  destruct (accessDenied (storage σ)); reflexivity.
Qed.

Lemma cacheStrategy_set i σ :
  JsString.truthy i = true ->
  cacheStrategy (Some i) σ
  = (Returns tt,
     with_storage (snd (localStorage.setItem STORAGE_KEYS.STRATEGY i (storage σ))) σ).
Proof.
  intros Hi.
  unfold cacheStrategy, try_catch, storage_setItem, localStorage.setItem. rewrite Hi.
  destruct (accessDenied (storage σ)), (quotaExceeded (storage σ)); reflexivity.
Qed.

Lemma cacheAddress_set a σ :
  JsString.truthy a = true ->
  cacheAddress (Some a) σ
  = (Returns tt,
     with_storage (snd (localStorage.setItem STORAGE_KEYS.ADDRESS a (storage σ))) σ).
Proof.
  intros Ha.
  unfold cacheAddress, try_catch, storage_setItem, localStorage.setItem. rewrite Ha.
  destruct (accessDenied (storage σ)), (quotaExceeded (storage σ)); reflexivity.
Qed.

Lemma cache_keys_differ : STORAGE_KEYS.ADDRESS <> STORAGE_KEYS.STRATEGY.
Proof. discriminate. Qed.

(** Both removals on an accessible storage leave neither entry. *)
Lemma removed_both ls :
  accessDenied ls = false ->
  let ls' := snd (localStorage.removeItem STORAGE_KEYS.ADDRESS
                    (snd (localStorage.removeItem STORAGE_KEYS.STRATEGY ls))) in
  items ls' !! STORAGE_KEYS.STRATEGY = None /\ items ls' !! STORAGE_KEYS.ADDRESS = None.
Proof.
  intros Hacc. unfold localStorage.removeItem. rewrite Hacc. simpl. rewrite ?Hacc. simpl.
  split.
  - rewrite lookup_delete_ne by exact cache_keys_differ. apply lookup_delete_eq.
  - apply lookup_delete_eq.
Qed.

(** The call to [s.disconnect] returns: the reset happens, and the cache
    is cleared when the observers return and the storage is accessible. *)
Lemma disconnect_after_backend_returns σ s w' :
  currentStrategy (this σ) = Some s ->
  disconnect s (world σ) = (Returns tt, w') ->
  exists o σ',
    WalletManager_disconnect env σ = (o, σ')
    /\ currentStrategy (this σ') = None
    /\ this_state σ' = disconnected
    /\ (o = Returns tt -> accessDenied (storage σ) = false ->
        items (storage σ') !! STORAGE_KEYS.STRATEGY = None
        /\ items (storage σ') !! STORAGE_KEYS.ADDRESS = None).
Proof.
  intros Hcur Hd.
  unfold WalletManager_disconnect, bind at 1, gets at 1. simpl. rewrite Hcur.
  unfold try_catch, bind, this_currentStrategy, bind, gets, await, ret,
    assign_currentStrategy, modify. simpl.
  rewrite Hcur, Hd. simpl.
  match goal with
  | |- context [updateState env disconnect_updates ?σb] =>
      destruct (updateState_spec disconnect_updates σb)
        as (o1 & σc & -> & Hw & Hs & Ha & Hr & Hc & Hst)
  end.
  simpl in *. destruct o1 as [[]|e1].
  - rewrite cacheStrategy_remove. simpl. rewrite cacheAddress_remove. simpl.
    eexists _, _. split; [reflexivity |]. simpl.
    split; [exact Hc |]. split; [exact Hst |].
    intros _ Hacc. rewrite Hs. apply removed_both, Hacc.
  - eexists _, _. split; [reflexivity |]. simpl.
    split; [exact Hc |]. split; [exact Hst |]. discriminate.
Qed.

(** The call to [s.disconnect] throws: nothing after it runs. *)
Lemma disconnect_after_backend_throws σ s e w' :
  currentStrategy (this σ) = Some s ->
  disconnect s (world σ) = (Throws e, w') ->
  WalletManager_disconnect env σ = (Throws e, with_world w' σ).
Proof.
  intros Hcur Hd.
  unfold WalletManager_disconnect, bind at 1, gets at 1. simpl. rewrite Hcur.
  unfold try_catch, bind, this_currentStrategy, bind, gets, await, ret. simpl.
  rewrite Hcur, Hd. reflexivity.
Qed.

(** C3, as the code has it.  With an active strategy [s]: when the call to
    [s.disconnect] returns, the active strategy is cleared and the state is
    reset to the disconnected default, and when [disconnect] itself then
    returns on an accessible storage both cache entries are gone; when the
    call to [s.disconnect] throws, [disconnect] throws that error and the
    active strategy, the state and the cache stay as they were. *)
Theorem disconnect_outcomes σ s :
  currentStrategy (this σ) = Some s ->
  (forall w', disconnect s (world σ) = (Returns tt, w') ->
     exists o σ',
       WalletManager_disconnect env σ = (o, σ')
       /\ currentStrategy (this σ') = None
       /\ this_state σ' = disconnected
       /\ (o = Returns tt -> accessDenied (storage σ) = false ->
           items (storage σ') !! STORAGE_KEYS.STRATEGY = None
           /\ items (storage σ') !! STORAGE_KEYS.ADDRESS = None))
  /\ (forall e w', disconnect s (world σ) = (Throws e, w') ->
        WalletManager_disconnect env σ = (Throws e, with_world w' σ)).
Proof.
  intros Hcur. split.
  - intros w'. apply disconnect_after_backend_returns, Hcur.
  - intros e w'. apply disconnect_after_backend_throws, Hcur.
Qed.

End Disconnect.

(** ** C5: the cache after connect and after disconnect *)

Section CacheRoundTrip.

Context {World : Type} (env : Environment World).
Implicit Types (σ : Machine World).

Local Abbreviation keeps_ids := (preserves (World:=World) ids_ok).

Lemma ids_ok_view σ σ' :
  strategies (this σ') = strategies (this σ) ->
  currentStrategy (this σ') = currentStrategy (this σ) ->
  ids_ok σ -> ids_ok σ'.
Proof. unfold ids_ok. intros -> ->. trivial. Qed.

Lemma ids_ok_with_world σ w : ids_ok σ -> ids_ok (with_world w σ).
Proof. apply ids_ok_view; reflexivity. Qed.

Lemma ids_ok_with_storage σ ls : ids_ok σ -> ids_ok (with_storage ls σ).
Proof. apply ids_ok_view; reflexivity. Qed.

Lemma ids_ok_with_allocated σ n : ids_ok σ -> ids_ok (with_allocated n σ).
Proof. apply ids_ok_view; reflexivity. Qed.

Lemma ids_ok_set_currentStrategy σ (s : WalletStrategy World) :
  JsString.truthy (id s) = true ->
  ids_ok σ -> ids_ok (with_this (set_currentStrategy (Some s) (this σ)) σ).
Proof.
  intros Hs [Hreg Hcur]. split; simpl; [exact Hreg |].
  intros s' [= <-]. exact Hs.
Qed.

Lemma ids_ok_clear_currentStrategy σ :
  ids_ok σ -> ids_ok (with_this (set_currentStrategy None (this σ)) σ).
Proof. intros [Hreg Hcur]. split; simpl; [exact Hreg | discriminate]. Qed.

Lemma ids_ok_set_strategies σ i (s : WalletStrategy World) :
  JsString.truthy (id s) = true ->
  ids_ok σ -> ids_ok (with_this (set_strategies (<[i := s]> (strategies (this σ))) (this σ)) σ).
Proof.
  intros Hs [Hreg Hcur]. split; simpl; [| exact Hcur].
  intros j s' Hj. apply lookup_insert_Some in Hj as [[_ <-] | [_ Hj]]; eauto.
Qed.

Lemma updateState_ids_ok updates : keeps_ids (updateState env updates).
Proof.
  intros σ H.
  destruct (updateState_spec env updates σ) as (o & σ' & -> & _ & _ & _ & Hr & Hc & _).
  simpl. eapply ids_ok_view; eassumption.
Qed.

Hint Resolve ids_ok_with_world ids_ok_with_storage ids_ok_with_allocated
  ids_ok_set_currentStrategy ids_ok_clear_currentStrategy ids_ok_set_strategies
  updateState_ids_ok : preserve.
Hint Resolve preserves_await preserves_storage_setItem preserves_storage_removeItem
  preserves_modify : preserve.

Lemma cacheStrategy_ids_ok i : keeps_ids (cacheStrategy i).
Proof. unfold cacheStrategy. preserving. Qed.

Lemma cacheAddress_ids_ok a : keeps_ids (cacheAddress a).
Proof. unfold cacheAddress. preserving. Qed.

Lemma getCachedAddress_ids_ok : keeps_ids getCachedAddress.
Proof. unfold getCachedAddress. preserving. Qed.

Lemma this_currentStrategy_ids_ok : keeps_ids this_currentStrategy.
Proof. unfold this_currentStrategy. preserving. Qed.

Lemma optional_call_ids_ok {A} (member : WalletStrategy World -> Call World A) :
  keeps_ids (optional_call member).
Proof. unfold optional_call. preserving. Qed.

Hint Resolve cacheStrategy_ids_ok cacheAddress_ids_ok getCachedAddress_ids_ok
  this_currentStrategy_ids_ok optional_call_ids_ok : preserve.

(** [getOrCreateWAuthStrategy] keeps the identifiers non-empty and returns
    a strategy with a non-empty identifier. *)
Lemma getOrCreateWAuthStrategy_ids_ok provider σ :
  ids_ok σ ->
  ids_ok (snd (getOrCreateWAuthStrategy env provider σ))
  /\ forall s, fst (getOrCreateWAuthStrategy env provider σ) = Returns (Some s) ->
               JsString.truthy (id s) = true.
Proof.
  intros H.
  unfold getOrCreateWAuthStrategy. cbv zeta.
  set (key := "wauth-" +:+ provider).
  unfold bind, strategies_has, strategies_get, gets, new, strategies_set, modify, ret.
  cbn [fst snd negb this with_allocated with_this strategies set_strategies].
  destruct (strategies (this σ) !! key) as [s0|] eqn:Hlook;
    cbn [fst snd negb this with_allocated with_this strategies set_strategies].
  - rewrite Hlook. split; [exact H |]. intros s [= <-]. eapply (proj1 H), Hlook.
  - rewrite lookup_insert_eq. split.
    + apply (ids_ok_set_strategies (with_allocated (S (allocated σ)) σ)); [reflexivity |].
      apply ids_ok_with_allocated, H.
    + intros s [= <-]. reflexivity.
Qed.

Lemma strategies_get_ids_ok i σ s :
  ids_ok σ -> fst (strategies_get i σ) = Returns (Some s) ->
  JsString.truthy (id s) = true.
Proof. intros H [= Hl]. eapply (proj1 H), Hl. Qed.

Lemma setStrategy_ids_ok i : keeps_ids (setStrategy env i).
Proof.
  intros σ H. unfold setStrategy. unfold bind at 1.
  destruct (JsString.startsWith i "wauth-"); cbv beta iota.
  - destruct (getOrCreateWAuthStrategy_ids_ok (JsString.replace i "wauth-" "") σ H)
      as [H1 H2].
    destruct (getOrCreateWAuthStrategy env _ σ) as [[[s|]|e] σ1]; simpl in *; trivial.
    specialize (H2 s eq_refl). assert (Hk : keeps_ids (bind (assign_currentStrategy (Some s))
              (fun _ => bind (updateState env (only_strategy (Some s)))
                          (fun _ => ret true))))
      by (unfold assign_currentStrategy; preserving).
    apply Hk; assumption.
  - unfold strategies_get, gets.
    destruct (strategies (this σ) !! i) as [s|] eqn:Hl; [| exact H].
    assert (Hs : JsString.truthy (id s) = true) by (eapply (proj1 H), Hl).
    assert (Hk : keeps_ids (bind (assign_currentStrategy (Some s))
              (fun _ => bind (updateState env (only_strategy (Some s)))
                          (fun _ => ret true))))
      by (unfold assign_currentStrategy; preserving).
    apply Hk; assumption.
Qed.

Lemma loadCachedStrategy_ids_ok : keeps_ids (loadCachedStrategy env).
Proof.
  unfold loadCachedStrategy. apply preserves_try_catch; [| intros e; apply preserves_ret].
  apply preserves_bind; [apply preserves_storage_getItem |].
  intros [i|]; [| apply preserves_ret].
  destruct (JsString.truthy i); [| apply preserves_ret].
  intros σ H. cbv zeta.
  destruct (JsString.startsWith i "wauth-"); unfold bind at 1; cbv beta iota.
  - destruct (getOrCreateWAuthStrategy_ids_ok (JsString.replace i "wauth-" "") σ H)
      as [H1 H2].
    destruct (getOrCreateWAuthStrategy env _ σ) as [[[s|]|e] σ1]; simpl in *; trivial.
    + specialize (H2 s eq_refl). assert (Hk : keeps_ids (bind (assign_currentStrategy (Some s))
                (fun _ => updateState env (only_strategy (Some s)))))
        by (unfold assign_currentStrategy; preserving).
      apply Hk; assumption.
    + assert (Hk : keeps_ids (bind (assign_currentStrategy None)
                (fun _ => updateState env (only_strategy None))))
        by (unfold assign_currentStrategy; preserving).
      apply Hk; assumption.
  - unfold strategies_get, gets.
    destruct (strategies (this σ) !! i) as [s|] eqn:Hl; [| exact H].
    assert (Hs : JsString.truthy (id s) = true) by (eapply (proj1 H), Hl).
    assert (Hk : keeps_ids (bind (assign_currentStrategy (Some s))
              (fun _ => updateState env (only_strategy (Some s)))))
      by (unfold assign_currentStrategy; preserving).
    apply Hk; assumption.
Qed.

Lemma initializeStrategies_ids_ok : keeps_ids (initializeStrategies env).
Proof.
  intros σ [Hreg Hcur].
  unfold initializeStrategies, bind, new, strategies_set, modify. simpl.
  split; simpl; [| exact Hcur].
  intros i s Hl.
  apply lookup_insert_Some in Hl as [[_ <-] | [_ Hl]]; [reflexivity |].
  apply lookup_insert_Some in Hl as [[_ <-] | [_ Hl]]; [reflexivity | eauto].
Qed.

Hint Resolve setStrategy_ids_ok : preserve.

Lemma connect_ids_ok p : keeps_ids (WalletManager_connect env p).
Proof. unfold WalletManager_connect. preserving. Qed.

Lemma disconnect_ids_ok : keeps_ids (WalletManager_disconnect env).
Proof. unfold WalletManager_disconnect, assign_currentStrategy. preserving. Qed.

Hint Resolve connect_ids_ok : preserve.

Lemma wauth_probe_ids_ok : keeps_ids (wauth_probe env).
Proof. unfold wauth_probe. preserving. Qed.

Hint Resolve wauth_probe_ids_ok : preserve.

Lemma autoReconnect_ids_ok : keeps_ids (autoReconnect env).
Proof. unfold autoReconnect. preserving. Qed.

Lemma after_ids_ok op σ : ids_ok σ -> ids_ok (after env op σ).
Proof.
  destruct op; simpl.
  - apply setStrategy_ids_ok.
  - apply connect_ids_ok.
  - apply disconnect_ids_ok.
  - apply autoReconnect_ids_ok.
  - apply ids_ok_view; reflexivity.
  - unfold unsubscribe, modify. simpl.
    destruct (indexOf (stateListeners (this σ)) listener);
      apply ids_ok_view; reflexivity.
  - apply ids_ok_view; reflexivity.
Qed.

Lemma reachable_ids_ok σ : reachable env σ -> ids_ok σ.
Proof.
  induction 1 as [w ls | op σ _ IH].
  - unfold constructor.
    assert (Hp : keeps_ids (bind (initializeStrategies env)
                              (fun _ => loadCachedStrategy env))).
    { apply preserves_bind;
        [apply initializeStrategies_ids_ok | intros _; apply loadCachedStrategy_ids_ok]. }
    apply Hp. split; simpl; [intros i s Hl; rewrite lookup_empty in Hl |]; discriminate.
  - apply after_ids_ok, IH.
Qed.

(** Both writes on a storage that takes them leave the two entries. *)
Lemma written_both ls i a :
  accessDenied ls = false -> quotaExceeded ls = false ->
  let ls' := snd (localStorage.setItem STORAGE_KEYS.ADDRESS a
                    (snd (localStorage.setItem STORAGE_KEYS.STRATEGY i ls))) in
  items ls' !! STORAGE_KEYS.STRATEGY = Some i /\ items ls' !! STORAGE_KEYS.ADDRESS = Some a.
Proof.
  intros Hacc Hq. unfold localStorage.setItem. rewrite Hacc, Hq. simpl.
  rewrite ?Hacc, ?Hq. simpl. split.
  - rewrite lookup_insert_ne by exact cache_keys_differ. apply lookup_insert_eq.
  - apply lookup_insert_eq.
Qed.

(** C5, as the code has it.  In a reachable state with an accessible
    storage: after a [connect()] that returns, on a storage that takes
    writes and with a non-empty address, the cache holds the id of the
    connected strategy and the connected address; after a [disconnect()]
    that returns, called with an active strategy, both entries are
    absent. *)
Theorem cache_follows_session σ :
  reachable env σ ->
  accessDenied (storage σ) = false ->
  (forall permissions σ',
     quotaExceeded (storage σ) = false ->
     WalletManager_connect env permissions σ = (Returns tt, σ') ->
     JsString.truthy_opt (address (this_state σ')) = true ->
     items (storage σ') !! STORAGE_KEYS.STRATEGY = id <$> strategy (this_state σ')
     /\ items (storage σ') !! STORAGE_KEYS.ADDRESS = address (this_state σ'))
  /\ (forall σ',
        is_Some (currentStrategy (this σ)) ->
        WalletManager_disconnect env σ = (Returns tt, σ') ->
        items (storage σ') !! STORAGE_KEYS.STRATEGY = None
        /\ items (storage σ') !! STORAGE_KEYS.ADDRESS = None).
Proof.
  intros Hreach Hacc. split.
  - intros permissions σ' Hq Hconn Haddr.
    assert (Hids : ids_ok σ) by (apply reachable_ids_ok, Hreach).
    unfold WalletManager_connect, bind at 1, gets at 1 in Hconn. simpl in Hconn.
    destruct (currentStrategy (this σ)) as [s|] eqn:Hcur; [| discriminate Hconn].
    assert (Hs : JsString.truthy (id s) = true) by exact (proj2 Hids s Hcur).
    unfold try_catch, bind, this_currentStrategy, bind, gets, await, ret, throw in Hconn.
    simpl in Hconn. rewrite Hcur in Hconn.
    destruct (connect s permissions (world σ)) as [[[]|e1] w1];
      simpl in Hconn; [rewrite Hcur in Hconn; simpl in Hconn | discriminate Hconn].
    destruct (getActiveAddress s w1) as [[a|e2] w2];
      simpl in Hconn; [rewrite Hcur in Hconn; simpl in Hconn | discriminate Hconn].
    destruct (getActivePublicKey s w2) as [[k|e3] w3];
      simpl in Hconn; [rewrite Hcur in Hconn; simpl in Hconn | discriminate Hconn].
    destruct (getPermissions s w3) as [[p|e4] w4];
      simpl in Hconn; [| discriminate Hconn].
    match type of Hconn with
    | context [updateState env ?u ?σb] =>
        destruct (updateState_spec env u σb)
          as (o1 & σc & Hu & Hw & Hst & Ha & Hr & Hc & Hthis)
    end.
    rewrite Hcur in Hconn, Hu. rewrite Hu in Hconn.
    simpl in Hc, Hst, Hthis.
    destruct o1 as [[]|e5]; simpl in Hconn; [| discriminate Hconn].
    rewrite Hc, Hcur in Hconn. simpl in Hconn.
    rewrite (cacheStrategy_set (id s) σc Hs) in Hconn.
    simpl in Hconn.
    destruct (JsString.truthy a) eqn:Ha'.
    + rewrite cacheAddress_set in Hconn by exact Ha'. injection Hconn as <-.
      change (this_state (with_storage _ (with_storage _ σc))) with (this_state σc).
      destruct (written_both (storage σ) (id s) a Hacc Hq) as [W1 W2].
      rewrite Hthis, Hcur.
      change (storage (with_storage ?ls _)) with ls. rewrite Hst.
      split; [exact W1 | exact W2].
    + exfalso.
      assert (Hsame : this_state σ' = this_state σc).
      { unfold cacheAddress, try_catch in Hconn. rewrite Ha' in Hconn.
        unfold storage_removeItem in Hconn. simpl in Hconn.
        destruct (localStorage.removeItem _ _) as [[[]|e6] ls]; injection Hconn as <-;
          reflexivity. }
      rewrite Hsame, Hthis in Haddr. simpl in Haddr. congruence.
  - intros σ' [s Hcur] Hd.
    destruct (disconnect s (world σ)) as [[[]|e] w'] eqn:Hsd.
    + destruct (disconnect_after_backend_returns env σ s w' Hcur Hsd)
        as (o & σ1 & Heq & _ & _ & Hcache).
      rewrite Hd in Heq. injection Heq as <- <-. apply Hcache; [reflexivity | exact Hacc].
    + rewrite (disconnect_after_backend_throws env σ s e w' Hcur Hsd) in Hd.
      discriminate Hd.
Qed.

End CacheRoundTrip.

Section CacheAndDisconnectExamples.

Import Scenario.

(** The strategy of the page rejects its disconnect: the manager keeps the
    strategy, the connected state and the cache. *)
Lemma disconnect_always_clears_fails : ~ AsStated.disconnect_always_clears.
Proof.
  intros H.
  pose (env := page (wallet "arweave-account" true false) idle).
  specialize (H nat env (connected_page env empty_storage)).
  destruct H as [Hcur _].
  - apply reachable_after, reachable_after, reachable_constructed.
  - vm_compute. eauto.
  - vm_compute in Hcur. discriminate Hcur.
Qed.

Lemma disconnect_outcomes_witness :
  let σ := connected_page good_page empty_storage in
  exists o σ',
    WalletManager_disconnect good_page σ = (o, σ')
    /\ currentStrategy (this σ') = None
    /\ this_state σ' = disconnected
    /\ (o = Returns tt -> accessDenied (storage σ) = false ->
        items (storage σ') !! STORAGE_KEYS.STRATEGY = None
        /\ items (storage σ') !! STORAGE_KEYS.ADDRESS = None).
Proof.
  intros σ.
  assert (Hcur : currentStrategy (this σ) = Some (ArweaveWalletStrategy good_page 0))
    by (vm_compute; reflexivity).
  assert (Hd : disconnect (ArweaveWalletStrategy good_page 0) (world σ) = (Returns tt, 5))
    by (vm_compute; reflexivity).
  exact (proj1 (disconnect_outcomes good_page σ _ Hcur) 5 Hd).
Defined.

(** The storage is full: connect succeeds and the cache stays empty. *)
Lemma cache_round_trip_fails : ~ AsStated.cache_round_trip.
Proof.
  intros H.
  pose (full := storage_with ∅ false true).
  destruct (H nat good_page (selected good_page full)) as [Hconn _].
  - apply reachable_after, reachable_constructed.
  - destruct (Hconn None (connected_page good_page full)) as [Hid _].
    + vm_compute. reflexivity.
    + vm_compute in Hid. discriminate Hid.
Qed.

Lemma cache_follows_session_witness :
  let σ := selected good_page empty_storage in
  let σ' := connected_page good_page empty_storage in
  items (storage σ') !! STORAGE_KEYS.STRATEGY = id <$> strategy (this_state σ')
  /\ items (storage σ') !! STORAGE_KEYS.ADDRESS = address (this_state σ').
Proof.
  intros σ σ'.
  assert (Hr : reachable good_page σ)
    by (apply reachable_after, reachable_constructed).
  assert (Hacc : accessDenied (storage σ) = false) by (vm_compute; reflexivity).
  assert (Hq : quotaExceeded (storage σ) = false) by (vm_compute; reflexivity).
  assert (Hc : WalletManager_connect good_page None σ = (Returns tt, σ'))
    by (vm_compute; reflexivity).
  assert (Ha : JsString.truthy_opt (address (this_state σ')) = true)
    by (vm_compute; reflexivity).
  exact (proj1 (cache_follows_session good_page σ Hr Hacc) None σ' Hq Hc Ha).
Defined.

(** The other two ways the cache and the session part: an empty address is
    cached as a removal, and a disconnect without an active strategy returns
    without touching the cache. *)
Example connect_with_empty_address :
  let env := page (wallet "" false false) idle in
  let σ' := connected_page env empty_storage in
  fst (WalletManager_connect env None (selected env empty_storage)) = Returns tt
  /\ address (this_state σ') = Some ""
  /\ items (storage σ') !! STORAGE_KEYS.ADDRESS = None.
Proof. vm_compute. repeat split; reflexivity. Qed.

Example disconnect_without_strategy_keeps_cache :
  let stale := storage_with {[ STORAGE_KEYS.ADDRESS := "stale-address" ]} false false in
  let σ := snd (constructor good_page 0 stale) in
  currentStrategy (this σ) = None
  /\ WalletManager_disconnect good_page σ = (Returns tt, σ)
  /\ items (storage σ) !! STORAGE_KEYS.ADDRESS = Some "stale-address".
Proof. vm_compute. repeat split; reflexivity. Qed.

End CacheAndDisconnectExamples.

(** ** C6 and C8: resolving and selecting a strategy *)

Section Selection.

Context {World : Type} (env : Environment World).
Implicit Types (σ : Machine World).

(** Stripping the namespace prefix and putting it back gives the
    identifier: the registry key of an OAuth identifier is the identifier. *)
Lemma slice_prefix p s :
  String.prefix p s = true -> p +:+ JsString.slice (String.length p) s = s.
Proof.
  revert s. induction p as [|c p IH]; intros s Hp; simpl.
  - reflexivity.
  - destruct s as [|c' s]; simpl in Hp; [discriminate Hp |].
    destruct (Ascii.ascii_dec c c') as [<-|]; [| discriminate Hp].
    change (String c (p +:+ JsString.slice (String.length p) s) = String c s).
    f_equal. apply IH, Hp.
Qed.

Lemma strip_namespace i :
  JsString.startsWith i "wauth-" = true ->
  "wauth-" +:+ JsString.replace i "wauth-" "" = i.
Proof.
  unfold JsString.startsWith. intros Hp.
  destruct i as [|c i]; [discriminate Hp |].
  unfold JsString.replace. rewrite Hp.
  change ("" +:+ ?x) with x. apply (slice_prefix "wauth-"), Hp.
Qed.

Lemma getOrCreateWAuthStrategy_present provider σ s :
  strategies (this σ) !! ("wauth-" +:+ provider) = Some s ->
  getOrCreateWAuthStrategy env provider σ = (Returns (Some s), σ).
Proof.
  intros Hl. unfold getOrCreateWAuthStrategy. cbv zeta.
  set (key := "wauth-" +:+ provider) in *.
  unfold bind, strategies_has, strategies_get, gets, ret.
  rewrite Hl. simpl. rewrite Hl. reflexivity.
Qed.

Lemma getOrCreateWAuthStrategy_creates provider σ :
  exists s σ1,
    getOrCreateWAuthStrategy env provider σ = (Returns (Some s), σ1)
    /\ strategies (this σ1) !! ("wauth-" +:+ provider) = Some s
    /\ currentStrategy (this σ1) = currentStrategy (this σ)
    /\ allocated σ1 <= S (allocated σ).
Proof.
  destruct (strategies (this σ) !! ("wauth-" +:+ provider)) as [s|] eqn:Hl.
  - exists s, σ. rewrite (getOrCreateWAuthStrategy_present _ _ _ Hl).
    repeat split; trivial. lia.
  - unfold getOrCreateWAuthStrategy. cbv zeta.
    set (key := "wauth-" +:+ provider) in *.
    unfold bind, strategies_has, strategies_get, gets, new, strategies_set, modify, ret.
    rewrite Hl. cbn [negb fst snd this with_this with_allocated strategies
                     set_strategies allocated currentStrategy].
    rewrite lookup_insert_eq. eexists _, _. split; [reflexivity |].
    cbn [this with_this with_allocated strategies set_strategies allocated
         currentStrategy].
    rewrite lookup_insert_eq. repeat split; trivial.
Qed.

(** Selecting [s] makes it the active strategy and leaves the registry. *)
Lemma select_effect {A} (s : WalletStrategy World) (a : A) σ :
  let σ1 := snd (bind (assign_currentStrategy (Some s))
                   (fun _ => bind (updateState env (only_strategy (Some s)))
                               (fun _ => ret a)) σ) in
  currentStrategy (this σ1) = Some s /\ strategies (this σ1) = strategies (this σ).
Proof.
  unfold bind, assign_currentStrategy, modify, ret. simpl.
  match goal with
  | |- context [updateState env ?u ?σb] =>
      destruct (updateState_spec env u σb) as (o & σ' & -> & _ & _ & _ & Hr & Hc & _)
  end.
  destruct o; simpl; split; assumption.
Qed.

(** [setStrategy] on an identifier whose registry key is taken selects
    the strategy under the key and leaves the registry. *)
Lemma setStrategy_known i σ s :
  strategies (this σ) !! (if JsString.startsWith i "wauth-"
                          then "wauth-" +:+ JsString.replace i "wauth-" ""
                          else i) = Some s ->
  let σ1 := snd (setStrategy env i σ) in
  currentStrategy (this σ1) = Some s /\ strategies (this σ1) = strategies (this σ).
Proof.
  intros Hl.
  assert (E : setStrategy env i σ
              = bind (assign_currentStrategy (Some s))
                  (fun _ => bind (updateState env (only_strategy (Some s)))
                              (fun _ => ret true)) σ).
  { unfold setStrategy.
    destruct (JsString.startsWith i "wauth-"); unfold bind at 1.
    - rewrite (getOrCreateWAuthStrategy_present _ _ _ Hl). reflexivity.
    - unfold strategies_get, gets. rewrite Hl. reflexivity. }
  rewrite E. apply select_effect.
Qed.

(** After [setStrategy], either the registry key of the identifier holds
    the active strategy, or nothing has happened. *)
Lemma setStrategy_effect i σ :
  let σ1 := snd (setStrategy env i σ) in
  (exists s,
      strategies (this σ1) !! (if JsString.startsWith i "wauth-"
                               then "wauth-" +:+ JsString.replace i "wauth-" ""
                               else i) = Some s
      /\ currentStrategy (this σ1) = Some s)
  \/ σ1 = σ.
Proof.
  destruct (JsString.startsWith i "wauth-") eqn:Hp.
  - destruct (getOrCreateWAuthStrategy_creates (JsString.replace i "wauth-" "") σ)
      as (s & σa & Hg & Hl & _ & _).
    assert (E : setStrategy env i σ
                = bind (assign_currentStrategy (Some s))
                    (fun _ => bind (updateState env (only_strategy (Some s)))
                                (fun _ => ret true)) σa).
    { unfold setStrategy. rewrite Hp. unfold bind at 1. rewrite Hg. reflexivity. }
    rewrite E. left. exists s. destruct (select_effect s true σa) as [Hc Hr].
    cbv zeta in *. rewrite Hr. split; assumption.
  - destruct (strategies (this σ) !! i) as [s|] eqn:Hl.
    + left. exists s.
      destruct (setStrategy_known i σ s) as [Hc Hr]; [rewrite Hp; exact Hl |].
      rewrite Hr. split; assumption.
    + right. unfold setStrategy. rewrite Hp.
      unfold bind, strategies_get, gets. rewrite Hl. reflexivity.
Qed.

(** Without an instance under the identifier, one is constructed, with a
    fresh identity, and registered under the identifier. *)
Lemma getOrCreateWAuthStrategy_absent provider σ :
  strategies (this σ) !! ("wauth-" +:+ provider) = None ->
  getOrCreateWAuthStrategy env provider σ
  = (Returns (Some (WAuthStrategy env provider (allocated σ))),
     with_this
       (set_strategies
          (<["wauth-" +:+ provider := WAuthStrategy env provider (allocated σ)]>
             (strategies (this σ)))
          (this σ))
       (with_allocated (S (allocated σ)) σ)).
Proof.
  intros Hl. unfold getOrCreateWAuthStrategy. cbv zeta.
  set (key := "wauth-" +:+ provider) in *.
  unfold bind, strategies_has, strategies_get, gets, new, strategies_set, modify, ret.
  rewrite Hl. cbn [negb fst snd this with_this with_allocated strategies
                   set_strategies allocated currentStrategy].
  rewrite lookup_insert_eq. reflexivity.
Qed.

(** *** What is registered stays registered *)

Section Entries.

Variable i : string.
Variable s : WalletStrategy World.

Local Abbreviation keeps_entry :=
  (preserves (World:=World) (fun σ => strategies (this σ) !! i = Some s)).

Lemma entry_with_world σ w :
  strategies (this σ) !! i = Some s -> strategies (this (with_world w σ)) !! i = Some s.
Proof. trivial. Qed.

Lemma entry_with_storage σ (sto : Storage) :
  strategies (this σ) !! i = Some s -> strategies (this (with_storage sto σ)) !! i = Some s.
Proof. trivial. Qed.

Lemma entry_set_currentStrategy σ c :
  strategies (this σ) !! i = Some s ->
  strategies (this (with_this (set_currentStrategy c (this σ)) σ)) !! i = Some s.
Proof. trivial. Qed.

Lemma updateState_entry updates : keeps_entry (updateState env updates).
Proof.
  intros σ H.
  destruct (updateState_spec env updates σ) as (o & σ' & -> & _ & _ & _ & Hr & _).
  simpl. rewrite Hr. exact H.
Qed.

(** A resolution registers under a free identifier only. *)
Lemma getOrCreateWAuthStrategy_entry provider :
  keeps_entry (getOrCreateWAuthStrategy env provider).
Proof.
  intros σ H.
  destruct (strategies (this σ) !! ("wauth-" +:+ provider)) as [t|] eqn:Hl.
  - rewrite (getOrCreateWAuthStrategy_present _ _ _ Hl). exact H.
  - rewrite (getOrCreateWAuthStrategy_absent _ _ Hl). simpl.
    rewrite lookup_insert_ne; [exact H |]. intros <-. congruence.
Qed.

Hint Resolve entry_with_world entry_with_storage entry_set_currentStrategy
  updateState_entry getOrCreateWAuthStrategy_entry : preserve.
Hint Resolve preserves_await preserves_storage_setItem preserves_storage_removeItem
  preserves_modify : preserve.

Lemma setStrategy_entry j : keeps_entry (setStrategy env j).
Proof. unfold setStrategy, strategies_get, assign_currentStrategy. preserving. Qed.

Hint Resolve setStrategy_entry : preserve.

Lemma connect_entry p : keeps_entry (WalletManager_connect env p).
Proof.
  unfold WalletManager_connect, this_currentStrategy, cacheStrategy, cacheAddress.
  preserving.
Qed.

Hint Resolve connect_entry : preserve.

Lemma disconnect_entry : keeps_entry (WalletManager_disconnect env).
Proof.
  unfold WalletManager_disconnect, this_currentStrategy, assign_currentStrategy,
    cacheStrategy, cacheAddress.
  preserving.
Qed.

Lemma autoReconnect_entry : keeps_entry (autoReconnect env).
Proof.
  unfold autoReconnect, getCachedAddress, wauth_probe, optional_call.
  preserving.
Qed.

Lemma after_entry op σ :
  strategies (this σ) !! i = Some s -> strategies (this (after env op σ)) !! i = Some s.
Proof.
  intros H. destruct op; simpl.
  - apply setStrategy_entry, H.
  - apply connect_entry, H.
  - apply disconnect_entry, H.
  - apply autoReconnect_entry, H.
  - exact H.
  - unfold unsubscribe, modify. simpl.
    destruct (indexOf (stateListeners (this σ)) listener); exact H.
  - exact H.
Qed.

Lemma run_entry ops : forall σ,
  strategies (this σ) !! i = Some s -> strategies (this (run env ops σ)) !! i = Some s.
Proof.
  induction ops as [|op ops IH]; intros σ H; simpl; [exact H |].
  apply IH, after_entry, H.
Qed.

End Entries.

(** C6.  Resolving an OAuth provider's strategy constructs an instance only
    when the registry has none under the identifier [wauth-<provider>]: an
    instance that is registered is the one returned, and the machine is left
    as it was; otherwise exactly one is constructed, with a fresh identity,
    and registered.  What is registered stays registered, under the same
    identifier and as the same object, through every other resolution and
    every run of operations.  So two resolutions of one provider return the
    same object, whatever runs between them, and the second constructs
    nothing.  And a second [setStrategy] with the same identifier leaves the
    active strategy the first one selected. *)
Theorem resolution_is_idempotent :
  (forall provider σ s,
      strategies (this σ) !! ("wauth-" +:+ provider) = Some s ->
      getOrCreateWAuthStrategy env provider σ = (Returns (Some s), σ))
  /\ (forall provider σ,
        strategies (this σ) !! ("wauth-" +:+ provider) = None ->
        getOrCreateWAuthStrategy env provider σ
        = (Returns (Some (WAuthStrategy env provider (allocated σ))),
           with_this
             (set_strategies
                (<["wauth-" +:+ provider := WAuthStrategy env provider (allocated σ)]>
                   (strategies (this σ)))
                (this σ))
             (with_allocated (S (allocated σ)) σ)))
  /\ (forall i s σ,
        strategies (this σ) !! i = Some s ->
        (forall provider,
            strategies (this (snd (getOrCreateWAuthStrategy env provider σ))) !! i = Some s)
        /\ (forall ops, strategies (this (run env ops σ)) !! i = Some s))
  /\ (forall provider σ ops, exists s σ1,
        getOrCreateWAuthStrategy env provider σ = (Returns (Some s), σ1)
        /\ strategies (this σ1) !! ("wauth-" +:+ provider) = Some s
        /\ allocated σ1 <= S (allocated σ)
        /\ getOrCreateWAuthStrategy env provider (run env ops σ1)
           = (Returns (Some s), run env ops σ1))
  /\ (forall i σ,
        let σ1 := snd (setStrategy env i σ) in
        currentStrategy (this (snd (setStrategy env i σ1)))
        = currentStrategy (this σ1)).
Proof.
  split; [| split; [| split; [| split]]].
  - intros provider σ s. apply getOrCreateWAuthStrategy_present.
  - intros provider σ. apply getOrCreateWAuthStrategy_absent.
  - intros i s σ H. split.
    + intros provider. apply getOrCreateWAuthStrategy_entry, H.
    + intros ops. apply run_entry, H.
  - intros provider σ ops.
    destruct (getOrCreateWAuthStrategy_creates provider σ) as (s & σ1 & H1 & Hl & _ & Ha).
    exists s, σ1. repeat split; trivial.
    apply getOrCreateWAuthStrategy_present, run_entry, Hl.
  - intros i σ. cbv zeta.
    destruct (setStrategy_effect i σ) as [(s & Hl & Hc) | Hsame]; cbv zeta in *.
    + rewrite Hc. apply (setStrategy_known i _ s Hl).
    + rewrite !Hsame. reflexivity.
Qed.

(** C8, as the code has it.  An identifier outside the OAuth namespace
    that the registry does not hold is refused: [setStrategy] returns
    false, does not throw, and the machine is as it was. *)
Theorem setStrategy_refuses_unknown i σ :
  JsString.startsWith i "wauth-" = false ->
  strategies (this σ) !! i = None ->
  setStrategy env i σ = (Returns false, σ).
Proof.
  intros Hp Hl. unfold setStrategy. rewrite Hp.
  unfold bind, strategies_get, gets. rewrite Hl. reflexivity.
Qed.

End Selection.

Section SelectionExamples.

Import Scenario.

Lemma setStrategy_refuses_unknown_witness :
  let σ := snd (constructor good_page 0 empty_storage) in
  setStrategy good_page "ledger" σ = (Returns false, σ).
Proof.
  intros σ. apply setStrategy_refuses_unknown; vm_compute; reflexivity.
Defined.

(** github, google, github: the third resolution returns the object the
    first one constructed, the third strategy object of the page, and
    changes nothing. *)
Lemma resolution_is_idempotent_witness :
  let σ := run good_page [Op_setStrategy "wauth-github"; Op_setStrategy "wauth-google"]
             (snd (constructor good_page 0 empty_storage)) in
  getOrCreateWAuthStrategy good_page "github" σ
  = (Returns (Some (WAuthStrategy good_page "github" 2)), σ)
  /\ allocated σ = 4.
Proof.
  intros σ. split; [| vm_compute; reflexivity].
  apply (proj1 (resolution_is_idempotent good_page)). vm_compute. reflexivity.
Defined.

(** An identifier in the OAuth namespace with an unknown provider is
    accepted: a strategy is constructed for it and made active. *)
Lemma unknown_id_rejected_fails : ~ AsStated.unknown_id_rejected.
Proof.
  intros H.
  specialize (H nat good_page (snd (constructor good_page 0 empty_storage)) "wauth-bogus").
  assert (Hfst : fst (setStrategy good_page "wauth-bogus"
                        (snd (constructor good_page 0 empty_storage))) = Returns false).
  { rewrite H; [reflexivity | apply reachable_constructed |].
    intros [[s Hs] | Hin].
    - vm_compute in Hs. discriminate Hs.
    - unfold AsStated.oauth_ids in Hin. simpl in Hin.
      repeat (apply elem_of_cons in Hin as [Hin | Hin]; [discriminate Hin |]).
      apply elem_of_nil in Hin. exact Hin. }
  vm_compute in Hfst. discriminate Hfst.
Qed.

End SelectionExamples.

(** ** C4: autoReconnect and the storage *)

Section AutoReconnect.

Context {World : Type} (env : Environment World).
Implicit Types (σ : Machine World).

(** A handler that returns makes the whole [try] return. *)
Lemma try_catch_returns {A} (m : M World A) (a : A) σ :
  exists b, fst (try_catch m (fun _ => ret a) σ) = Returns b.
Proof.
  unfold try_catch, ret. destruct (m σ) as [[b|e] σ']; simpl; eauto.
Qed.

(** [getCachedAddress] swallows what the storage throws. *)
Lemma getCachedAddress_returns σ :
  getCachedAddress σ
  = (Returns (if accessDenied (storage σ) then None
              else items (storage σ) !! STORAGE_KEYS.ADDRESS), σ).
Proof.
  unfold getCachedAddress, try_catch, storage_getItem, localStorage.getItem, ret.
  destruct (accessDenied (storage σ)); reflexivity.
Qed.

(** With a storage that can be read, [autoReconnect] returns a boolean
    whatever the strategies and the observers do. *)
Lemma autoReconnect_returns σ :
  accessDenied (storage σ) = false ->
  exists b, fst (autoReconnect env σ) = Returns b.
Proof.
  intros Hacc. unfold autoReconnect. unfold bind at 1.
  unfold storage_getItem at 1, localStorage.getItem. rewrite Hacc.
  cbn [fst snd]. unfold bind at 1. rewrite getCachedAddress_returns. rewrite Hacc.
  destruct (items (storage σ) !! STORAGE_KEYS.STRATEGY) as [i|]; [| simpl; eauto].
  destruct (JsString.truthy i && _); [| simpl; eauto].
  apply try_catch_returns.
Qed.

(** C4, where the code departs from it.  When the page is denied access to
    its storage, the first statement of [autoReconnect], the read of the
    cached strategy id outside the [try], throws: [autoReconnect] rejects
    with the storage's exception, having done nothing. *)
Theorem autoReconnect_rejects_on_denied_storage σ :
  accessDenied (storage σ) = true ->
  autoReconnect env σ = (Throws (DOMException "SecurityError"), σ).
Proof.
  intros Hacc. unfold autoReconnect, bind at 1.
  unfold storage_getItem at 1, localStorage.getItem. rewrite Hacc. reflexivity.
Qed.

End AutoReconnect.

Section AutoReconnectExamples.

Import Scenario.

Lemma autoReconnect_rejects_on_denied_storage_witness :
  let σ := snd (constructor good_page 0 (storage_with ∅ true false)) in
  autoReconnect good_page σ = (Throws (DOMException "SecurityError"), σ).
Proof.
  intros σ. apply autoReconnect_rejects_on_denied_storage. vm_compute. reflexivity.
Defined.

End AutoReconnectExamples.

(** ** C9: the raw-signer normalisation *)

Section SignerNormalisation.

Import Signer.

Variable createDataItemSigner : JsValue -> Outcome JsValue.

(** C9.  [createAoSigner] is a function of the raw signer alone (and of
    the adapter): a function is returned as it is; an object goes through
    the adapter, whose result is the signer, and there is no signer when
    the adapter throws; [null], [undefined] and every other value give no
    signer. *)
Theorem createAoSigner_by_shape rawSigner :
  createAoSigner createDataItemSigner rawSigner
  = match rawSigner with
    | Function _ => Some rawSigner
    | Object _ =>
        match createDataItemSigner rawSigner with
        | Returns wrapped => Some wrapped
        | Throws _ => None
        end
    | _ => None
    end.
Proof.
  destruct rawSigner as [| |b|n| |n|s|d|f|o]; try reflexivity.
  - unfold createAoSigner; simpl. destruct b; reflexivity.
  - unfold createAoSigner; simpl. destruct (Z.eqb n 0); reflexivity.
  - unfold createAoSigner; simpl. destruct (Z.eqb n 0); reflexivity.
  - unfold createAoSigner; simpl. destruct s; reflexivity.
Qed.

(** A function is a valid signer, and what comes out for a function is
    that function. *)
Lemma createAoSigner_callable rawSigner :
  isValidSigner rawSigner = true ->
  createAoSigner createDataItemSigner rawSigner = Some rawSigner.
Proof.
  destruct rawSigner; simpl; intros H; try discriminate H; reflexivity.
Qed.

(** When the adapter keeps its contract and returns a function, an object
    is normalised to a valid signer. *)
Lemma createAoSigner_wraps_object o wrapped :
  createDataItemSigner (Object o) = Returns wrapped ->
  isValidSigner wrapped = true ->
  exists signer,
    createAoSigner createDataItemSigner (Object o) = Some signer
    /\ isValidSigner signer = true.
Proof.
  intros Hw Hv. unfold createAoSigner. simpl. rewrite Hw. eauto.
Qed.

End SignerNormalisation.

(** ** C7: observers *)

Section Observers.

Context {World : Type} (env : Environment World).
Implicit Types (σ : Machine World) (ls : list nat).

(** *** A replacement during which no observer acts *)

Lemma with_trace_same σ : with_trace (trace σ) σ = σ.
Proof. destruct σ; reflexivity. Qed.

Lemma forEach_from_idle n : forall k σ,
  k + n = length (stateListeners (this σ)) ->
  (forall l, l ∈ stateListeners (this σ) -> callbacks env l (this_state σ) = []) ->
  forEach_from env n k σ
  = (Returns tt,
     with_trace (trace σ ++ ((fun l => Notified l (state (this σ)) (this_state σ))
                            <$> drop k (stateListeners (this σ)))) σ).
Proof.
  induction n as [|n IH]; intros k σ Hlen Hidle; simpl.
  - rewrite drop_ge by lia. simpl. rewrite app_nil_r, with_trace_same. reflexivity.
  - unfold bind at 1, gets at 1. cbn [fst snd].
    destruct (stateListeners (this σ) !! k) as [l|] eqn:Hk.
    + unfold bind, invoke.
      rewrite (Hidle l) by (eapply list_elem_of_lookup_2, Hk). simpl.
      rewrite IH; simpl; [| lia | exact Hidle].
      rewrite (drop_S _ _ _ Hk). simpl. rewrite <- app_assoc. reflexivity.
    + apply lookup_ge_None in Hk. lia.
Qed.

Lemma updateState_idle updates σ :
  let st := spread (this_state σ) updates in
  let obj := length (stateObjs σ) in
  (forall l, l ∈ stateListeners (this σ) -> callbacks env l st = []) ->
  updateState env updates σ
  = (Returns tt,
     with_trace (trace σ ++ ((fun l => Notified l obj st) <$> stateListeners (this σ)))
       (with_this (set_state obj (this σ))
          (with_stateObjs (stateObjs σ ++ [st]) σ))).
Proof.
  intros st obj Hidle.
  unfold updateState, bind, gets, alloc_state, modify, notifyListeners, bind, gets.
  cbn [fst snd].
  set (σb := with_this _ _).
  assert (Hst : this_state σb = st).
  { unfold this_state, σb. simpl. apply list_lookup_total_middle. reflexivity. }
  rewrite forEach_from_idle; [| reflexivity | rewrite Hst; exact Hidle].
  rewrite Hst. reflexivity.
Qed.

(** *** Callbacks that do not throw *)

Lemma perform_returns actions σ :
  (forall e, Raise e ∉ actions) -> fst (perform actions σ) = Returns tt.
Proof.
  revert σ. induction actions as [|[l|l|e] rest IH]; intros σ Hno; simpl.
  - reflexivity.
  - unfold bind, onStateChange, modify. simpl. apply IH.
    intros e He. apply (Hno e). right. exact He.
  - unfold bind, unsubscribe, modify. simpl. apply IH.
    intros e He. apply (Hno e). right. exact He.
  - exfalso. apply (Hno e). left.
Qed.

Lemma forEach_from_returns n : forall k σ,
  (forall l st e, Raise e ∉ callbacks env l st) ->
  fst (forEach_from env n k σ) = Returns tt.
Proof.
  induction n as [|n IH]; intros k σ Hno; simpl; [reflexivity |].
  unfold bind at 1, gets at 1. cbn [fst snd].
  destruct (stateListeners (this σ) !! k) as [l|]; [| apply IH, Hno].
  unfold bind. unfold invoke at 1.
  match goal with
  | |- context [perform ?acts ?σ0] =>
      pose proof (perform_returns acts σ0 (Hno _ _)) as Hp;
      destruct (perform acts σ0) as [o σ1]
  end.
  simpl in Hp. subst o. apply IH, Hno.
Qed.

Lemma updateState_returns updates σ :
  (forall l st e, Raise e ∉ callbacks env l st) ->
  exists σ', updateState env updates σ = (Returns tt, σ').
Proof.
  intros Hno.
  unfold updateState, bind, gets, alloc_state, modify, notifyListeners, bind, gets.
  cbn [fst snd].
  match goal with
  | |- context [forEach_from env ?n ?k ?σ0] =>
      pose proof (forEach_from_returns n k σ0 Hno) as Hf;
      destruct (forEach_from env n k σ0) as [o σ1]
  end.
  simpl in Hf. subst o. eauto.
Qed.

(** *** After an unsubscription *)

Lemma occurrences_app x ls ls' :
  occurrences x (ls ++ ls') = occurrences x ls + occurrences x ls'.
Proof. induction ls as [|y ls IH]; simpl; [reflexivity | rewrite IH; lia]. Qed.

Lemma indexOf_None x ls : indexOf ls x = None -> occurrences x ls = 0.
Proof.
  induction ls as [|y ls IH]; simpl; [reflexivity |].
  destruct (decide (y = x)); [discriminate |].
  destruct (indexOf ls x); [discriminate |]. intros _. apply IH. reflexivity.
Qed.

Lemma occurrences_delete_same x ls i :
  indexOf ls x = Some i -> occurrences x (delete i ls) = pred (occurrences x ls).
Proof.
  revert i. induction ls as [|y ls IH]; intros i; simpl; [discriminate |].
  destruct (decide (y = x)) as [->|Hne].
  - intros [= <-]. reflexivity.
  - destruct (indexOf ls x) as [j|] eqn:Hj; [| discriminate].
    intros [= <-]. simpl. rewrite decide_False by exact Hne. simpl. apply IH. reflexivity.
Qed.

Lemma occurrences_delete_other x y ls i :
  x <> y -> indexOf ls y = Some i -> occurrences x (delete i ls) = occurrences x ls.
Proof.
  intros Hxy. revert i. induction ls as [|z ls IH]; intros i; simpl; [discriminate |].
  destruct (decide (z = y)) as [->|Hne].
  - intros [= <-]. simpl. rewrite decide_False by congruence. reflexivity.
  - destruct (indexOf ls y) as [j|] eqn:Hj; [| discriminate].
    intros [= <-]. simpl. rewrite (IH j) by reflexivity. reflexivity.
Qed.

Lemma occurrences_zero x ls : occurrences x ls = 0 -> x ∉ ls.
Proof.
  induction ls as [|y ls IH]; simpl; intros H0 Hin.
  - apply elem_of_nil in Hin. exact Hin.
  - destruct (decide (y = x)) as [->|Hne]; [discriminate H0 |].
    apply elem_of_cons in Hin as [-> | Hin]; [congruence |]. apply IH; assumption.
Qed.

Lemma quiet_after_notify x l obj seen (evs : list (Event World)) :
  (l = x -> Unsubscribed x ∉ evs) ->
  quiet_after x evs -> quiet_after x (evs ++ [Notified l obj seen]).
Proof.
  intros Hl Hq i j o s Hi Hj.
  apply lookup_snoc_Some in Hi as [[Hi1 Hi2] | [_ Hi2]]; [| discriminate Hi2].
  apply lookup_snoc_Some in Hj as [[Hj1 Hj2] | [_ Hj2]].
  - eapply Hq; eassumption.
  - injection Hj2 as -> _ _. exfalso. apply Hl; [reflexivity |].
    eapply list_elem_of_lookup_2, Hi2.
Qed.

Lemma quiet_after_unsubscribe x y (evs : list (Event World)) :
  quiet_after x evs -> quiet_after x (evs ++ [Unsubscribed y]).
Proof.
  intros Hq i j o s Hi Hj.
  apply lookup_snoc_Some in Hj as [[Hj1 Hj2] | [_ Hj2]]; [| discriminate Hj2].
  apply lookup_snoc_Some in Hi as [[Hi1 Hi2] | [Hi1 _]].
  - eapply Hq; eassumption.
  - lia.
Qed.

Lemma observer_ok_view x σ σ' :
  stateListeners (this σ') = stateListeners (this σ) -> trace σ' = trace σ ->
  observer_ok x σ -> observer_ok x σ'.
Proof. unfold observer_ok. intros -> ->. trivial. Qed.

Lemma onStateChange_observer_ok x y σ :
  y <> x -> observer_ok x σ -> observer_ok x (snd (onStateChange y σ)).
Proof.
  intros Hne (Hocc & Hq & Hun). unfold observer_ok. simpl.
  rewrite occurrences_app. simpl. rewrite decide_False by exact Hne.
  repeat split; [lia | exact Hq |]. intros Hin. rewrite (Hun Hin). reflexivity.
Qed.

Lemma unsubscribe_observer_ok x y σ :
  observer_ok x σ -> observer_ok x (snd (unsubscribe y σ)).
Proof.
  intros (Hocc & Hq & Hun). unfold unsubscribe, modify. cbn [snd].
  assert (Hocc' : forall ls',
             ls' = match indexOf (stateListeners (this σ)) y with
                   | Some index => delete index (stateListeners (this σ))
                   | None => stateListeners (this σ)
                   end ->
             occurrences x ls' <= occurrences x (stateListeners (this σ))
             /\ (y = x -> occurrences x ls' = 0)).
  { intros ls' ->. destruct (indexOf (stateListeners (this σ)) y) as [i|] eqn:Hi.
    - destruct (decide (y = x)) as [->|Hne].
      + rewrite (occurrences_delete_same _ _ _ Hi). split; lia.
      + rewrite (occurrences_delete_other x y _ _ (not_eq_sym Hne) Hi).
        split; [lia | congruence].
    - split; [lia |]. intros ->. apply indexOf_None, Hi. }
  destruct (indexOf (stateListeners (this σ)) y) as [i|];
    (unfold observer_ok; cbn [stateListeners this trace with_trace with_this
                              set_stateListeners];
     destruct (Hocc' _ eq_refl) as [Hle Hzero];
     repeat split;
     [ lia
     | apply quiet_after_unsubscribe, Hq
     | intros Hin; apply elem_of_app in Hin as [Hin | Hin];
       [ specialize (Hun Hin); lia
       | apply list_elem_of_singleton in Hin; injection Hin as ->;
         apply Hzero; reflexivity ] ]).
Qed.

Lemma perform_observer_ok x actions : forall σ,
  Subscribe x ∉ actions ->
  observer_ok x σ -> observer_ok x (snd (perform actions σ)).
Proof.
  induction actions as [|[l|l|e] rest IH]; intros σ Hno Hok; simpl.
  - exact Hok.
  - unfold bind.
    pose proof (onStateChange_observer_ok x l σ) as Hstep.
    destruct (onStateChange l σ) as [[[]|e] σ1] eqn:Ho; [| discriminate Ho].
    apply IH.
    + intros Hin. apply Hno. right. exact Hin.
    + apply Hstep; [| exact Hok]. intros ->. apply Hno. left.
  - unfold bind.
    pose proof (unsubscribe_observer_ok x l σ Hok) as Hstep.
    destruct (unsubscribe l σ) as [[[]|e] σ1] eqn:Hu; [| discriminate Hu].
    apply IH; [| exact Hstep].
    intros Hin. apply Hno. right. exact Hin.
  - exact Hok.
Qed.

Section NoResubscription.

Variable x : nat.
Hypothesis no_resubscription : forall l st, Subscribe x ∉ callbacks env l st.

Local Abbreviation keeps_observer := (preserves (World:=World) (observer_ok x)).

Lemma invoke_observer_ok l σ :
  l ∈ stateListeners (this σ) ->
  observer_ok x σ -> observer_ok x (snd (invoke env l σ)).
Proof.
  intros Hl (Hocc & Hq & Hun). unfold invoke.
  apply perform_observer_ok; [apply no_resubscription |].
  unfold observer_ok. cbn [stateListeners this trace with_trace].
  repeat split.
  - exact Hocc.
  - apply quiet_after_notify; [| exact Hq].
    intros -> Hin. apply (occurrences_zero _ _ (Hun Hin)), Hl.
  - intros Hin. apply elem_of_app in Hin as [Hin | Hin]; [exact (Hun Hin) |].
    apply list_elem_of_singleton in Hin. discriminate Hin.
Qed.

Lemma forEach_from_observer_ok n k : keeps_observer (forEach_from env n k).
Proof.
  revert k. induction n as [|n IH]; intros k σ Hok; simpl; [exact Hok |].
  unfold bind at 1, gets at 1. cbn [fst snd].
  destruct (stateListeners (this σ) !! k) as [l|] eqn:Hk; [| apply IH, Hok].
  unfold bind.
  pose proof (invoke_observer_ok l σ (list_elem_of_lookup_2 _ _ _ Hk) Hok) as Hstep.
  destruct (invoke env l σ) as [[[]|e] σ1]; [apply IH |]; exact Hstep.
Qed.

Lemma updateState_observer_ok updates : keeps_observer (updateState env updates).
Proof.
  intros σ Hok.
  unfold updateState, bind, gets, alloc_state, modify, notifyListeners, bind, gets.
  cbn [fst snd]. apply forEach_from_observer_ok.
  eapply observer_ok_view; [| | exact Hok]; reflexivity.
Qed.

Lemma observer_ok_with_world σ w : observer_ok x σ -> observer_ok x (with_world w σ).
Proof. apply observer_ok_view; reflexivity. Qed.

Lemma observer_ok_with_storage σ (sto : Storage) :
  observer_ok x σ -> observer_ok x (with_storage sto σ).
Proof. apply observer_ok_view; reflexivity. Qed.

Lemma observer_ok_with_allocated σ n :
  observer_ok x σ -> observer_ok x (with_allocated n σ).
Proof. apply observer_ok_view; reflexivity. Qed.

Lemma observer_ok_with_stateObjs σ h :
  observer_ok x σ -> observer_ok x (with_stateObjs h σ).
Proof. apply observer_ok_view; reflexivity. Qed.

Lemma observer_ok_set_strategies σ r :
  observer_ok x σ -> observer_ok x (with_this (set_strategies r (this σ)) σ).
Proof. apply observer_ok_view; reflexivity. Qed.

Lemma observer_ok_set_currentStrategy σ s :
  observer_ok x σ -> observer_ok x (with_this (set_currentStrategy s (this σ)) σ).
Proof. apply observer_ok_view; reflexivity. Qed.

Hint Resolve observer_ok_with_world observer_ok_with_storage
  observer_ok_with_allocated observer_ok_with_stateObjs
  observer_ok_set_strategies observer_ok_set_currentStrategy
  updateState_observer_ok : preserve.
Hint Resolve preserves_await preserves_storage_setItem preserves_storage_removeItem
  preserves_modify : preserve.

Lemma setStrategy_observer_ok i : keeps_observer (setStrategy env i).
Proof.
  unfold setStrategy, getOrCreateWAuthStrategy, strategies_has, strategies_get,
    strategies_set, assign_currentStrategy, new.
  preserving. intros σ H. apply observer_ok_with_allocated, H.
Qed.

Hint Resolve setStrategy_observer_ok : preserve.

Lemma connect_observer_ok p : keeps_observer (WalletManager_connect env p).
Proof.
  unfold WalletManager_connect, this_currentStrategy, cacheStrategy, cacheAddress.
  preserving.
Qed.

Hint Resolve connect_observer_ok : preserve.

Lemma disconnect_observer_ok : keeps_observer (WalletManager_disconnect env).
Proof.
  unfold WalletManager_disconnect, this_currentStrategy, assign_currentStrategy,
    cacheStrategy, cacheAddress.
  preserving.
Qed.

Lemma autoReconnect_observer_ok : keeps_observer (autoReconnect env).
Proof.
  unfold autoReconnect, getCachedAddress, wauth_probe, optional_call.
  preserving.
Qed.

Lemma after_observer_ok op σ :
  op <> Op_onStateChange x -> observer_ok x σ -> observer_ok x (after env op σ).
Proof.
  intros Hop Hok. destruct op; simpl.
  - apply setStrategy_observer_ok, Hok.
  - apply connect_observer_ok, Hok.
  - apply disconnect_observer_ok, Hok.
  - apply autoReconnect_observer_ok, Hok.
  - apply onStateChange_observer_ok; [congruence | exact Hok].
  - apply unsubscribe_observer_ok, Hok.
  - eapply observer_ok_view; [| | exact Hok]; reflexivity.
Qed.

Lemma run_observer_ok ops : forall σ,
  Op_onStateChange x ∉ ops -> observer_ok x σ -> observer_ok x (run env ops σ).
Proof.
  induction ops as [|op ops IH]; intros σ Hno Hok; simpl; [exact Hok |].
  apply IH.
  - intros Hin. apply Hno. right. exact Hin.
  - apply after_observer_ok; [| exact Hok]. intros ->. apply Hno. left.
Qed.

End NoResubscription.

Lemma NoDup_occurrences x ls : NoDup ls -> occurrences x ls <= 1.
Proof.
  induction 1 as [|y ls Hy _ IH]; simpl; [lia |].
  destruct (decide (y = x)) as [->|_]; [| lia].
  destruct (occurrences x ls) eqn:Hocc; [lia |].
  exfalso. apply Hy. clear -Hocc.
  induction ls as [|z ls IH]; simpl in Hocc; [discriminate Hocc |].
  destruct (decide (z = x)) as [->|_]; [left | right; apply IH; exact Hocc].
Qed.

(** *** A round of notifications whose callbacks unsubscribe *)

Lemma observing_observing ls1 evs1 ls2 evs2 σ :
  observing ls2 evs2 (observing ls1 evs1 σ) = observing ls2 (evs1 ++ evs2) σ.
Proof. unfold observing. simpl. rewrite <- app_assoc. reflexivity. Qed.

Lemma observing_same σ : observing (stateListeners (this σ)) [] σ = σ.
Proof.
  destruct σ as [w sto objs n [reg cur st ls] tr]. unfold observing. simpl.
  rewrite app_nil_r. reflexivity.
Qed.

Lemma filter_all (P : nat -> Prop) `{!forall x, Decision (P x)} ls :
  (forall x, x ∈ ls -> P x) -> filter P ls = ls.
Proof.
  induction ls as [|x ls IH]; intros Hall; [reflexivity |].
  rewrite filter_cons_True by (apply Hall; left).
  rewrite IH; [reflexivity |]. intros y Hy. apply Hall. right. exact Hy.
Qed.

Lemma filter_agree (P Q : nat -> Prop)
    `{!forall x, Decision (P x), !forall x, Decision (Q x)} ls :
  (forall x, x ∈ ls -> P x <-> Q x) -> filter P ls = filter Q ls.
Proof.
  induction ls as [|x ls IH]; intros Hall; [reflexivity |].
  assert (IH' : filter P ls = filter Q ls)
    by (apply IH; intros y Hy; apply Hall; right; exact Hy).
  destruct (decide (P x)) as [HP|HP].
  - rewrite !filter_cons_True; [rewrite IH'; reflexivity | | exact HP].
    apply Hall; [left | exact HP].
  - rewrite !filter_cons_False; [exact IH' | | exact HP].
    intros HQ. apply HP, Hall; [left | exact HQ].
Qed.

(** On an array without duplicates the splice of the unsubscribe handle
    removes the callback and nothing else. *)
Lemma splice_filter y ls :
  NoDup ls ->
  match indexOf ls y with
  | Some index => delete index ls
  | None => ls
  end = filter (fun z => z <> y) ls.
Proof.
  induction 1 as [|x ls Hx Hnd IH]; simpl; [reflexivity |].
  destruct (decide (x = y)) as [->|Hne].
  - rewrite filter_cons_False by (intros Hyy; apply Hyy; reflexivity).
    simpl. symmetry. apply filter_all. intros z Hz ->. apply Hx, Hz.
  - rewrite filter_cons_True by exact Hne.
    destruct (indexOf ls y) as [j|]; simpl; rewrite <- IH; reflexivity.
Qed.

Lemma unsubscribe_observing y σ :
  NoDup (stateListeners (this σ)) ->
  unsubscribe y σ
  = (Returns tt,
     observing (filter (fun z => z <> y) (stateListeners (this σ))) [Unsubscribed y] σ).
Proof.
  intros Hnd. unfold unsubscribe, modify. cbv zeta. f_equal.
  pose proof (splice_filter y _ Hnd) as Hs.
  destruct (indexOf (stateListeners (this σ)) y) as [j|].
  - rewrite Hs. reflexivity.
  - rewrite <- Hs. unfold observing.
    destruct σ as [w sto objs n [reg cur st ls] tr]. reflexivity.
Qed.

Lemma perform_unsubscriptions actions : forall σ,
  only_unsubscribes actions ->
  NoDup (stateListeners (this σ)) ->
  perform actions σ
  = (Returns tt,
     observing (filter (fun z => z ∉ unsubscribed_by actions) (stateListeners (this σ)))
               (Unsubscribed <$> unsubscribed_by actions) σ).
Proof.
  induction actions as [|a rest IH]; intros σ Hacts Hnd.
  - simpl. unfold ret. f_equal.
    rewrite filter_all by (intros x _; apply not_elem_of_nil).
    symmetry. apply observing_same.
  - destruct (Hacts a) as [y ->]; [left |].
    assert (Hrest : only_unsubscribes rest)
      by (intros b Hb; apply Hacts; right; exact Hb).
    cbn [perform].
    change (unsubscribed_by (Unsubscribe y :: rest)) with (y :: unsubscribed_by rest).
    unfold bind. rewrite (unsubscribe_observing y σ Hnd).
    rewrite IH; [| exact Hrest | apply NoDup_filter, Hnd].
    rewrite observing_observing. f_equal. f_equal.
    unfold observing at 1. cbn [stateListeners this with_trace with_this set_stateListeners].
    rewrite list_filter_filter. apply list_filter_iff.
    intros z. rewrite not_elem_of_cons. tauto.
Qed.

Lemma invoke_unsubscriptions x σ :
  only_unsubscribes (callbacks env x (this_state σ)) ->
  NoDup (stateListeners (this σ)) ->
  invoke env x σ
  = (Returns tt,
     observing (filter (fun z => z ∉ unsubscribed_by (callbacks env x (this_state σ)))
                  (stateListeners (this σ)))
               (Notified x (state (this σ)) (this_state σ)
                :: (Unsubscribed <$> unsubscribed_by (callbacks env x (this_state σ)))) σ).
Proof.
  intros Hacts Hnd. unfold invoke. cbv zeta.
  rewrite perform_unsubscriptions; [| exact Hacts | exact Hnd].
  f_equal. unfold observing. simpl. rewrite <- app_assoc. reflexivity.
Qed.

(** Past the end of the array the iteration finds nothing. *)
Lemma forEach_from_beyond n : forall k σ,
  length (stateListeners (this σ)) <= k ->
  forEach_from env n k σ = (Returns tt, σ).
Proof.
  induction n as [|n IH]; intros k σ Hk; simpl; [reflexivity |].
  unfold bind at 1, gets at 1. cbn [fst snd].
  rewrite (lookup_ge_None_2 _ _ Hk). apply IH. lia.
Qed.

Section Round.

Variable st : WalletConnectionState World.
Variable obj : nat.

Local Abbreviation drops := (fun x => unsubscribed_by (callbacks env x st)).

(** The iteration over the live array, from a point where the observers
    [Vs] of the snapshot are behind it and [pending] ahead, [D] having been
    unsubscribed so far: it is the round over the snapshot. *)
Lemma forEach_from_round pending : forall Vs D n k σ,
  NoDup (Vs ++ pending) ->
  (forall x, x ∈ pending -> only_unsubscribes (callbacks env x st)) ->
  splice_safe drops D Vs pending ->
  stateListeners (this σ) = filter (fun y => y ∉ D) (Vs ++ pending) ->
  this_state σ = st ->
  state (this σ) = obj ->
  length pending <= n ->
  (filter (fun y => y ∉ D) pending <> [] -> k = length (filter (fun y => y ∉ D) Vs)) ->
  (filter (fun y => y ∉ D) pending = [] -> length (stateListeners (this σ)) <= k) ->
  forEach_from env n k σ
  = (Returns tt,
     observing
       (filter (fun y => y ∉ (notified_of drops D pending ≫= drops) ++ D) (Vs ++ pending))
       (round_events drops obj st (notified_of drops D pending)) σ).
Proof.
  induction pending as [|x rest IH]; intros Vs D n k σ Hnd Hacts Hsafe Hls Hst Hobj Hn Hk Hend.
  - rewrite forEach_from_beyond by (apply Hend; reflexivity).
    f_equal. simpl. rewrite <- Hls. symmetry. apply observing_same.
  - assert (Hassoc : Vs ++ x :: rest = (Vs ++ [x]) ++ rest)
      by (rewrite <- app_assoc; reflexivity).
    assert (Hrest : forall z, z ∈ rest -> only_unsubscribes (callbacks env z st))
      by (intros z Hz; apply Hacts; right; exact Hz).
    simpl in Hsafe. simpl notified_of. destruct (decide (x ∈ D)) as [Hin|Hout].
    + rewrite filter_cons_False in Hk, Hend by (intros Hnot; apply Hnot, Hin).
      rewrite Hassoc in *.
      apply IH; try assumption.
      * simpl in Hn. lia.
      * intros Hne. rewrite filter_app, filter_cons_False, filter_nil, app_nil_r;
          [exact (Hk Hne) |].
        intros Hnot. apply Hnot, Hin.
    + destruct Hsafe as [Hx Hsafe].
      rewrite filter_cons_True in Hk by exact Hout.
      specialize (Hk ltac:(discriminate)). clear Hend.
      destruct n as [|n]; [simpl in Hn; lia |].
      simpl forEach_from. unfold bind at 1, gets at 1. cbn [fst snd].
      assert (Hlook : stateListeners (this σ) !! k = Some x).
      { rewrite Hls, filter_app, filter_cons_True by exact Hout.
        rewrite Hk. apply list_lookup_middle. reflexivity. }
      rewrite Hlook. unfold bind.
      assert (Hnd' : NoDup (stateListeners (this σ)))
        by (rewrite Hls; apply NoDup_filter, Hnd).
      rewrite invoke_unsubscriptions;
        [| rewrite Hst; apply Hacts; left | exact Hnd'].
      rewrite Hst, Hobj.
      set (σ1 := observing _ _ σ).
      assert (Hls1 : stateListeners (this σ1)
                     = filter (fun y => y ∉ drops x ++ D) ((Vs ++ [x]) ++ rest)).
      { unfold σ1, observing. cbn [stateListeners this with_trace with_this set_stateListeners].
        rewrite Hls, <- Hassoc, list_filter_filter. apply list_filter_iff.
        intros z. rewrite not_elem_of_app. tauto. }
      assert (Hlen : length (filter (fun y => y ∉ D) (Vs ++ [x])) = S k).
      { rewrite filter_app, filter_cons_True, filter_nil by exact Hout.
        rewrite length_app, Hk. simpl. lia. }
      rewrite (IH (Vs ++ [x]) (drops x ++ D) n (S k) σ1); try assumption.
      * subst σ1. rewrite observing_observing. f_equal. f_equal.
        -- rewrite <- Hassoc. apply list_filter_iff. intros z.
           rewrite bind_cons, !not_elem_of_app. tauto.
      * rewrite <- Hassoc. exact Hnd.
      * simpl in Hn. lia.
      * intros Hne. rewrite <- Hlen. symmetry. apply f_equal.
        apply filter_agree. intros z Hz. rewrite not_elem_of_app.
        split; [tauto |]. intros HD. split; [| exact HD].
        intros Hdrop. apply HD. exact (Hx Hne z Hdrop Hz).
      * intros Hnil. rewrite Hls1, filter_app, Hnil, app_nil_r.
        etransitivity; [| apply Nat.eq_le_incl, Hlen].
        rewrite <- (list_filter_filter_l (fun y => y ∉ drops x ++ D) (fun y => y ∉ D));
          [apply length_filter |].
        intros z. rewrite not_elem_of_app. tauto.
Qed.

End Round.

(** A state replacement whose callbacks only unsubscribe, and for which the
    hazard does not arise: the round over the snapshot. *)
Lemma updateState_round updates σ :
  let st := spread (this_state σ) updates in
  let obj := length (stateObjs σ) in
  let drops := fun x => unsubscribed_by (callbacks env x st) in
  NoDup (stateListeners (this σ)) ->
  (forall x, x ∈ stateListeners (this σ) -> only_unsubscribes (callbacks env x st)) ->
  splice_safe drops [] [] (stateListeners (this σ)) ->
  updateState env updates σ
  = (Returns tt,
     observing
       (filter (fun y => y ∉ notified_of drops [] (stateListeners (this σ)) ≫= drops)
          (stateListeners (this σ)))
       (round_events drops obj st (notified_of drops [] (stateListeners (this σ))))
       (with_this (set_state obj (this σ))
          (with_stateObjs (stateObjs σ ++ [st]) σ))).
Proof.
  intros st obj drops Hnd Hacts Hlater.
  unfold updateState, bind, gets, alloc_state, modify, notifyListeners, bind, gets.
  cbn [fst snd].
  set (σb := with_this _ _).
  assert (Hst : this_state σb = st).
  { unfold this_state, σb. simpl. apply list_lookup_total_middle. reflexivity. }
  rewrite (forEach_from_round st obj (stateListeners (this σ)) [] [] _ 0 σb);
    try assumption; try reflexivity.
  - f_equal. f_equal. apply list_filter_iff. intros z. rewrite app_nil_r. reflexivity.
  - unfold σb. simpl. symmetry. apply filter_all. intros x _. apply not_elem_of_nil.
  - intros Hnil. unfold σb. simpl.
    rewrite filter_all in Hnil by (intros x _; apply not_elem_of_nil).
    rewrite Hnil. simpl. lia.
Qed.

(** C7, as the code has it.  A state replacement iterates over the live
    array of listeners.  With distinct observers whose callbacks do nothing
    but unsubscribe, none of them unsubscribing itself or an observer
    notified before it while an observer after it is still to be notified,
    the replacement is the round over a snapshot of the observers: it
    notifies, before it returns, in subscription order and each with the new
    state object, every observer that no observer notified before it has
    unsubscribed, and it leaves subscribed, in their order, exactly the
    observers that were not unsubscribed.  So when no callback
    acts all observers are notified in order, and when C unsubscribes B the
    observers A, B, C are notified and A, C remain.  The unsubscribe handle
    removes its observer and no other.  A replacement does not throw when
    the callbacks only subscribe and unsubscribe.  And an observer that is
    subscribed at most once and that nothing subscribes again is never
    notified after its unsubscribe handle was called, and is no longer in
    the array once it was called, over every run of operations. *)
Theorem observers_in_order :
  (forall σ updates,
      let st := spread (this_state σ) updates in
      let obj := length (stateObjs σ) in
      let drops := fun x => unsubscribed_by (callbacks env x st) in
      let notified := notified_of drops [] (stateListeners (this σ)) in
      NoDup (stateListeners (this σ)) ->
      (forall x, x ∈ stateListeners (this σ) -> only_unsubscribes (callbacks env x st)) ->
      splice_safe drops [] [] (stateListeners (this σ)) ->
      updateState env updates σ
      = (Returns tt,
         observing (filter (fun y => y ∉ notified ≫= drops) (stateListeners (this σ)))
           (round_events drops obj st notified)
           (with_this (set_state obj (this σ))
              (with_stateObjs (stateObjs σ ++ [st]) σ))))
  /\ (forall σ updates,
        let st := spread (this_state σ) updates in
        let obj := length (stateObjs σ) in
        (forall l, l ∈ stateListeners (this σ) -> callbacks env l st = []) ->
        updateState env updates σ
        = (Returns tt,
           with_trace (trace σ ++ ((fun l => Notified l obj st) <$> stateListeners (this σ)))
             (with_this (set_state obj (this σ))
                (with_stateObjs (stateObjs σ ++ [st]) σ))))
  /\ (forall σ x,
        NoDup (stateListeners (this σ)) ->
        unsubscribe x σ
        = (Returns tt,
           observing (filter (fun z => z <> x) (stateListeners (this σ)))
             [Unsubscribed x] σ))
  /\ ((forall l st e, Raise e ∉ callbacks env l st) ->
      forall updates σ, exists σ', updateState env updates σ = (Returns tt, σ'))
  /\ (forall σ x,
        observer_ok x σ ->
        (forall l st, Subscribe x ∉ callbacks env l st) ->
        forall ops,
          Op_onStateChange x ∉ ops ->
          let σ' := run env ops σ in
          quiet_after x (trace σ')
          /\ (Unsubscribed x ∈ trace σ' -> x ∉ stateListeners (this σ'))).
Proof.
  split; [| split; [| split; [| split]]].
  - intros σ updates st obj drops notified. apply updateState_round.
  - intros σ updates st obj. apply updateState_idle.
  - intros σ x. apply unsubscribe_observing.
  - intros Hno updates σ. apply updateState_returns, Hno.
  - intros σ x Hok Hx ops Hops σ'.
    destruct (run_observer_ok x Hx ops σ Hops Hok) as (_ & Hq & Hun).
    split; [exact Hq |].
    intros Hin. apply occurrences_zero, Hun, Hin.
Qed.

End Observers.

Section ObserverExamples.

Import Scenario.

(** The scenario of the specification: C unsubscribes B from its callback.
    The first replacement notifies A, B, C and leaves A, C subscribed, the
    second notifies A, C. *)
Lemma observers_in_order_witness :
  let env := page (wallet "arweave-account" false false) third_drops_second in
  let σ := observed env in
  let σ1 := snd (updateState env (only_strategy None) σ) in
  let σ2 := snd (updateState env (only_strategy None) σ1) in
  fst (updateState env (only_strategy None) σ) = Returns tt
  /\ trace σ1 = [Notified 1 1 disconnected; Notified 2 1 disconnected;
                 Notified 3 1 disconnected; Unsubscribed 2]
  /\ stateListeners (this σ1) = [1; 3]
  /\ trace σ2 = trace σ1 ++ [Notified 1 2 disconnected; Notified 3 2 disconnected;
                             Unsubscribed 2]
  /\ stateListeners (this σ2) = [1; 3].
Proof.
  intros env σ σ1 σ2.
  assert (Hls : stateListeners (this σ) = [1; 2; 3]) by (vm_compute; reflexivity).
  assert (Hacts : forall x st, only_unsubscribes (callbacks env x st)).
  { intros x st a Ha. simpl in Ha. unfold third_drops_second in Ha.
    destruct (decide (x = 3));
      [apply list_elem_of_singleton in Ha; eauto | apply elem_of_nil in Ha; destruct Ha]. }
  assert (Hround :
    updateState env (only_strategy None) σ
    = (Returns tt,
       observing [1; 3]
         [Notified 1 1 disconnected; Notified 2 1 disconnected;
          Notified 3 1 disconnected; Unsubscribed 2]
         (with_this (set_state 1 (this σ))
            (with_stateObjs (stateObjs σ ++ [disconnected]) σ)))).
  { rewrite (proj1 (observers_in_order env) σ (only_strategy None)).
    - rewrite Hls. vm_compute. reflexivity.
    - rewrite Hls. apply (bool_decide_unpack _). vm_compute. reflexivity.
    - intros x _. apply Hacts.
    - rewrite Hls. simpl. split; [| split; [| split; [| exact I]]]; intros Hne y Hy;
        first [ exfalso; apply Hne; reflexivity
              | vm_compute in Hy; apply elem_of_nil in Hy; destruct Hy ]. }
  split; [rewrite Hround; reflexivity |].
  subst σ2 σ1. rewrite Hround. vm_compute. repeat split; reflexivity.
Defined.

(** B unsubscribes A from its callback: the array shifts under the
    iteration and C, subscribed all along, is not notified. *)
Lemma observers_all_notified_fails : ~ AsStated.observers_all_notified.
Proof.
  intros H.
  pose (env := page (wallet "arweave-account" false false) second_drops_first).
  specialize (H nat env (observed env) 1 2 3 (only_strategy None)).
  destruct H with (l := 3) as (obj & seen & Hin).
  - vm_compute. reflexivity.
  - apply (bool_decide_unpack _). vm_compute. reflexivity.
  - vm_compute. reflexivity.
  - intros l st e Hin. simpl in Hin. unfold second_drops_first in Hin.
    destruct (decide (l = 2));
      [apply list_elem_of_singleton in Hin; discriminate Hin
      | apply elem_of_nil in Hin; exact Hin].
  - intros l st x Hin. simpl in Hin. unfold second_drops_first in Hin.
    destruct (decide (l = 2));
      [apply list_elem_of_singleton in Hin; discriminate Hin
      | apply elem_of_nil in Hin; exact Hin].
  - vm_compute. right. left.
  - set (t := trace _) in Hin. vm_compute in t. subst t.
    repeat (apply elem_of_cons in Hin as [Hin | Hin]; [discriminate Hin |]).
    apply elem_of_nil in Hin. exact Hin.
Qed.

End ObserverExamples.

(** ** C10: snapshots *)

Create HintDb simulate.

Section Snapshots.

Context {World : Type} (env : Environment World) (l : nat).
Implicit Types (σ σa σb : Machine World).

Local Abbreviation sim := (simulates (World:=World) l).

Lemma sim_ret {A} (a : A) : sim (ret a).
Proof. intros σa σb H. split; [reflexivity | exact H]. Qed.

Lemma sim_throw {A} e : sim (throw (A:=A) e).
Proof. intros σa σb H. split; [reflexivity | exact H]. Qed.

Lemma sim_bind {A B} (m : M World A) (k : A -> M World B) :
  sim m -> (forall a, sim (k a)) -> sim (bind m k).
Proof.
  intros Hm Hk σa σb H. unfold bind. destruct (Hm σa σb H) as [Ho Hag].
  destruct (m σa) as [[a|e] σa'], (m σb) as [[b|e'] σb']; simpl in *;
    try discriminate Ho.
  - injection Ho as <-. apply Hk, Hag.
  - injection Ho as <-. split; [reflexivity | assumption].
Qed.

Lemma sim_try_catch {A} (m : M World A) h :
  sim m -> (forall e, sim (h e)) -> sim (try_catch m h).
Proof.
  intros Hm Hh σa σb H. unfold try_catch. destruct (Hm σa σb H) as [Ho Hag].
  destruct (m σa) as [[a|e] σa'], (m σb) as [[b|e'] σb']; simpl in *;
    try discriminate Ho.
  - split; assumption.
  - injection Ho as <-. apply Hh, Hag.
Qed.

Lemma sim_gets {A} (f : Machine World -> A) :
  (forall σa σb, agree_off l σa σb -> f σa = f σb) -> sim (gets f).
Proof. intros Hf σa σb H. split; [simpl; f_equal; apply Hf, H | exact H]. Qed.

Lemma sim_modify f :
  (forall σa σb, agree_off l σa σb -> agree_off l (f σa) (f σb)) -> sim (modify f).
Proof. intros Hf σa σb H. split; [reflexivity | apply Hf, H]. Qed.

(** The two machines read the same [this.state]. *)
Lemma agree_this_state σa σb : agree_off l σa σb -> this_state σa = this_state σb.
Proof.
  intros (_ & _ & _ & Ht & _ & _ & Hlk & _ & Hst). unfold this_state.
  rewrite !list_lookup_total_alt, <- Ht, (Hlk _ Hst). reflexivity.
Qed.

(** A change to the parts the two machines share keeps them in agreement. *)
Lemma agree_off_shared σa σb σa' σb' :
  agree_off l σa σb ->
  world σa' = world σb' -> storage σa' = storage σb' ->
  allocated σa' = allocated σb' -> this σa' = this σb' -> trace σa' = trace σb' ->
  stateObjs σa' = stateObjs σa -> stateObjs σb' = stateObjs σb ->
  state (this σa') = state (this σa) ->
  agree_off l σa' σb'.
Proof.
  intros (_ & _ & _ & _ & _ & Hlen & Hlk & Hl & Hst) Hw Hs Ha Ht Htr Hoa Hob Hsa.
  unfold agree_off. rewrite Hoa, Hob, Hsa. repeat split; assumption.
Qed.

Ltac shared :=
  let H := fresh "H" in
  intros ? ? H; intros; eapply agree_off_shared; [exact H | ..];
  destruct H as (? & ? & ? & ? & ? & _); simpl; try congruence.

Lemma sim_await {A} (c : Call World A) : sim (await c).
Proof.
  intros σa σb H. unfold await.
  assert (Hw : world σa = world σb) by apply H. rewrite Hw.
  destruct (c (world σb)) as [o w]. split; [reflexivity |].
  revert σa σb H Hw. shared.
Qed.

Lemma sim_storage_getItem key : sim (storage_getItem key).
Proof.
  intros σa σb H. unfold storage_getItem.
  assert (Hs : storage σa = storage σb) by apply H. rewrite Hs.
  split; [reflexivity | exact H].
Qed.

Lemma sim_storage_setItem key value : sim (storage_setItem key value).
Proof.
  intros σa σb H. unfold storage_setItem.
  assert (Hs : storage σa = storage σb) by apply H. rewrite Hs.
  destruct (localStorage.setItem key value (storage σb)) as [o sto].
  split; [reflexivity |]. revert σa σb H Hs. shared.
Qed.

Lemma sim_storage_removeItem key : sim (storage_removeItem key).
Proof.
  intros σa σb H. unfold storage_removeItem.
  assert (Hs : storage σa = storage σb) by apply H. rewrite Hs.
  destruct (localStorage.removeItem key (storage σb)) as [o sto].
  split; [reflexivity |]. revert σa σb H Hs. shared.
Qed.

Lemma sim_new C : sim (new (World:=World) C).
Proof.
  intros σa σb H. unfold new.
  assert (Ha : allocated σa = allocated σb) by apply H. rewrite Ha.
  split; [reflexivity |]. revert σa σb H Ha. shared.
Qed.

Lemma sim_onStateChange x : sim (onStateChange x).
Proof. apply sim_modify. shared. Qed.

Lemma sim_unsubscribe x : sim (unsubscribe x).
Proof.
  apply sim_modify. intros σa σb H. cbv beta zeta.
  assert (Ht : this σa = this σb) by apply H. rewrite Ht.
  destruct (indexOf (stateListeners (this σb)) x); revert σa σb H Ht; shared.
Qed.

Lemma sim_perform actions : sim (perform actions).
Proof.
  induction actions as [|[x|x|e] rest IH]; simpl.
  - apply sim_ret.
  - apply sim_bind; [apply sim_onStateChange | intros _; exact IH].
  - apply sim_bind; [apply sim_unsubscribe | intros _; exact IH].
  - apply sim_throw.
Qed.

Lemma sim_invoke x : sim (invoke env x).
Proof.
  intros σa σb H. unfold invoke.
  rewrite (agree_this_state σa σb H).
  assert (Ht : this σa = this σb) by apply H. rewrite Ht.
  apply sim_perform. revert σa σb H Ht. shared.
Qed.

Lemma sim_forEach_from n k : sim (forEach_from env n k).
Proof.
  revert k. induction n as [|n IH]; intros k; simpl.
  - apply sim_ret.
  - apply sim_bind.
    + apply sim_gets. intros σa σb H.
      assert (Ht : this σa = this σb) by apply H. rewrite Ht. reflexivity.
    + intros ls. destruct (ls !! k).
      * apply sim_bind; [apply sim_invoke | intros _; apply IH].
      * apply IH.
Qed.

Lemma sim_notifyListeners : sim (notifyListeners env).
Proof.
  apply sim_bind.
  - apply sim_gets. intros σa σb H.
    assert (Ht : this σa = this σb) by apply H. rewrite Ht. reflexivity.
  - intros len. apply sim_forEach_from.
Qed.

(** Allocating the same object on both sides. *)
Lemma agree_off_alloc σa σb o :
  agree_off l σa σb ->
  agree_off l (with_stateObjs (stateObjs σa ++ [o]) σa)
              (with_stateObjs (stateObjs σb ++ [o]) σb).
Proof.
  intros (Hw & Hs & Ha & Ht & Htr & Hlen & Hlk & Hl & Hst).
  unfold agree_off. simpl. rewrite !length_app. simpl.
  repeat split; try assumption; try lia.
  intros i Hi. destruct (decide (i < length (stateObjs σa))) as [Hlt|Hge].
  - rewrite !lookup_app_l by lia. apply Hlk, Hi.
  - rewrite !lookup_app_r by lia. rewrite Hlen. reflexivity.
Qed.

Lemma sim_updateState updates : sim (updateState env updates).
Proof.
  intros σa σb H. unfold updateState, bind, gets, alloc_state, modify. cbn [fst snd].
  apply sim_notifyListeners.
  rewrite (agree_this_state σa σb H).
  pose proof (agree_off_alloc σa σb (spread (this_state σb) updates) H)
    as (Hw & Hs & Ha & Ht & Htr & Hlen & Hlk & Hl & Hst).
  destruct H as (_ & _ & _ & _ & _ & Hlen0 & _ & Hl0 & _).
  unfold agree_off. simpl in *. rewrite Ht, Hlen0.
  repeat split; try assumption. lia.
Qed.

Lemma sim_getState : sim (getState (World:=World)).
Proof.
  intros σa σb H. unfold getState, bind, gets, alloc_state. cbn [fst snd].
  rewrite (agree_this_state σa σb H). split.
  - f_equal. apply H.
  - apply agree_off_alloc, H.
Qed.

Lemma sim_gets_this {A} (g : WalletManager World -> A) :
  sim (gets (fun σ => g (this σ))).
Proof.
  apply sim_gets. intros σa σb H.
  assert (Ht : this σa = this σb) by apply H. rewrite Ht. reflexivity.
Qed.

Lemma sim_gets_currentStrategy : sim (gets (fun σ => currentStrategy (this σ))).
Proof. apply (sim_gets_this currentStrategy). Qed.

Lemma sim_strategies_get i : sim (strategies_get (World:=World) i).
Proof. apply (sim_gets_this (fun m => strategies m !! i)). Qed.

Lemma sim_strategies_has i : sim (strategies_has (World:=World) i).
Proof.
  apply (sim_gets_this (fun m => match strategies m !! i with
                                 | Some _ => true
                                 | None => false
                                 end)).
Qed.

Lemma sim_strategies_set i (s : WalletStrategy World) : sim (strategies_set i s).
Proof. apply sim_modify. shared. Qed.

Lemma sim_assign_currentStrategy (s : option (WalletStrategy World)) :
  sim (assign_currentStrategy s).
Proof. apply sim_modify. shared. Qed.

Lemma sim_elapse ms :
  sim (modify (fun σ => with_world (elapse env ms (world σ)) σ)).
Proof. apply sim_modify. shared. Qed.

Hint Resolve sim_gets_currentStrategy sim_strategies_get sim_strategies_has
  sim_strategies_set sim_assign_currentStrategy sim_elapse sim_await
  sim_storage_getItem sim_storage_setItem sim_storage_removeItem sim_new
  sim_updateState sim_getState : simulate.

Ltac simulating :=
  repeat first
    [ solve [auto with simulate]
    | match goal with
      | |- simulates _ (ret _) => apply sim_ret
      | |- simulates _ (throw _) => apply sim_throw
      | |- simulates _ (bind _ _) => apply sim_bind; [| intros ?]
      | |- simulates _ (try_catch _ _) => apply sim_try_catch; [| intros ?]
      | |- simulates _ (match ?x with _ => _ end) => destruct x
      end
    | progress cbv zeta ].

Lemma sim_setStrategy i : sim (setStrategy env i).
Proof. unfold setStrategy, getOrCreateWAuthStrategy. simulating. Qed.

Hint Resolve sim_setStrategy : simulate.

Lemma sim_connect p : sim (WalletManager_connect env p).
Proof.
  unfold WalletManager_connect, this_currentStrategy, cacheStrategy, cacheAddress.
  simulating.
Qed.

Hint Resolve sim_connect : simulate.

Lemma sim_disconnect : sim (WalletManager_disconnect env).
Proof.
  unfold WalletManager_disconnect, this_currentStrategy, cacheStrategy, cacheAddress.
  simulating.
Qed.

Lemma sim_autoReconnect : sim (autoReconnect env).
Proof.
  unfold autoReconnect, getCachedAddress, wauth_probe, optional_call.
  simulating.
Qed.

Lemma after_agree op σa σb :
  agree_off l σa σb -> agree_off l (after env op σa) (after env op σb).
Proof.
  intros H. destruct op; simpl.
  - apply sim_setStrategy, H.
  - apply sim_connect, H.
  - apply sim_disconnect, H.
  - apply sim_autoReconnect, H.
  - apply sim_onStateChange, H.
  - apply sim_unsubscribe, H.
  - apply sim_getState, H.
Qed.

Lemma run_agree ops : forall σa σb,
  agree_off l σa σb -> agree_off l (run env ops σa) (run env ops σb).
Proof.
  induction ops as [|op ops IH]; intros σa σb H; simpl; [exact H |].
  apply IH, after_agree, H.
Qed.

End Snapshots.

Section SnapshotTheorem.

Context {World : Type} (env : Environment World).
Implicit Types (σ : Machine World).

(** C10.  [getState()] returns a reference that was not allocated before
    the call and is not [this.state]; the object behind it holds the
    fields of the state, and the manager's own fields are as before.
    Whatever field of that object is then assigned, the state the manager
    holds is the same, and so are, over every later run of operations, the
    outcomes, the trace of what the observers were given, and the state
    the manager ends with. *)
Theorem getState_is_a_copy σ :
  state (this σ) < length (stateObjs σ) ->
  exists snapshot σ',
    getState σ = (Returns snapshot, σ')
    /\ stateObjs σ !! snapshot = None
    /\ snapshot <> state (this σ')
    /\ stateObjs σ' !! snapshot = Some (this_state σ)
    /\ this σ' = this σ
    /\ this_state σ' = this_state σ
    /\ forall w,
         let σw := snd (assign snapshot w σ') in
         this σw = this σ'
         /\ this_state σw = this_state σ'
         /\ forall ops,
              trace (run env ops σw) = trace (run env ops σ')
              /\ this_state (run env ops σw) = this_state (run env ops σ').
Proof.
  intros Hwf. exists (length (stateObjs σ)), (with_stateObjs (stateObjs σ ++ [this_state σ]) σ).
  split; [reflexivity |].
  split; [apply lookup_ge_None; lia |].
  split; [simpl; lia |].
  split; [simpl; apply list_lookup_middle; reflexivity |].
  split; [reflexivity |].
  split; [unfold this_state; simpl; apply lookup_total_app_l, Hwf |].
  intros w σw.
  assert (Hag : agree_off (length (stateObjs σ)) σw
                  (with_stateObjs (stateObjs σ ++ [this_state σ]) σ)).
  { unfold agree_off, σw, assign, modify. simpl.
    rewrite length_alter, length_app. simpl.
    repeat split; try lia.
    intros i Hi. apply list_lookup_alter_ne. congruence. }
  split; [reflexivity |].
  split; [apply (agree_this_state _ _ _ Hag) |].
  intros ops. pose proof (run_agree env _ ops _ _ Hag) as Hrun.
  split; [apply Hrun | apply (agree_this_state _ _ _ Hrun)].
Qed.

End SnapshotTheorem.

Section SnapshotExamples.

Import Scenario.

Lemma getState_is_a_copy_witness :
  let σ := connected_page good_page empty_storage in
  exists snapshot σ',
    getState σ = (Returns snapshot, σ')
    /\ stateObjs σ !! snapshot = None
    /\ snapshot <> state (this σ')
    /\ stateObjs σ' !! snapshot = Some (this_state σ)
    /\ this σ' = this σ
    /\ this_state σ' = this_state σ
    /\ forall w,
         let σw := snd (assign snapshot w σ') in
         this σw = this σ'
         /\ this_state σw = this_state σ'
         /\ forall ops,
              trace (run good_page ops σw) = trace (run good_page ops σ')
              /\ this_state (run good_page ops σw) = this_state (run good_page ops σ').
Proof.
  intros σ. apply getState_is_a_copy. vm_compute. lia.
Defined.

End SnapshotExamples.

(** ** C1, continued: the anomaly and the provider's forced disconnect *)

Section ForcedDisconnect.

Context {World : Type} (env : Environment World).
Variable DOMException_message : string -> string.
Implicit Types (σ : Machine World).

Local Abbreviation keeps_strategy :=
  (preserves (World:=World) (fun σ => is_Some (currentStrategy (this σ)))).
Local Abbreviation keeps_idle :=
  (preserves (World:=World) (fun σ => connected (this_state σ) = false)).

(** What runs after a sub-computation is run from the state it leaves. *)
Lemma bind_after {A B} (P : Machine World -> Prop) (m : M World A)
    (k : A -> M World B) σ :
  (forall a σ1, m σ = (Returns a, σ1) -> P (snd (k a σ1))) ->
  (forall e σ1, m σ = (Throws e, σ1) -> P σ1) ->
  P (snd (bind m k σ)).
Proof.
  intros Hr Ht. unfold bind. destruct (m σ) as [[a|e] σ1]; [apply Hr | apply (Ht e)]; reflexivity.
Qed.

(** *** Steps that leave the active strategy in place *)

Lemma strategy_with_world σ w :
  is_Some (currentStrategy (this σ)) -> is_Some (currentStrategy (this (with_world w σ))).
Proof. trivial. Qed.

Lemma strategy_with_storage σ (sto : Storage) :
  is_Some (currentStrategy (this σ)) -> is_Some (currentStrategy (this (with_storage sto σ))).
Proof. trivial. Qed.

Lemma updateState_strategy updates : keeps_strategy (updateState env updates).
Proof.
  intros σ H.
  destruct (updateState_spec env updates σ) as (o & σ' & -> & _ & _ & _ & _ & Hc & _).
  simpl. rewrite Hc. exact H.
Qed.

Hint Resolve strategy_with_world strategy_with_storage updateState_strategy : preserve.
Hint Resolve preserves_await preserves_storage_setItem preserves_storage_removeItem
  preserves_modify : preserve.

Lemma connect_strategy p : keeps_strategy (WalletManager_connect env p).
Proof.
  unfold WalletManager_connect, this_currentStrategy, cacheStrategy, cacheAddress.
  preserving.
Qed.

Lemma wauth_probe_strategy : keeps_strategy (wauth_probe env).
Proof. unfold wauth_probe, optional_call. preserving. Qed.

Hint Resolve connect_strategy wauth_probe_strategy : preserve.

(** *** The constructor leaves the manager disconnected *)

Lemma idle_with_storage σ (sto : Storage) :
  connected (this_state σ) = false -> connected (this_state (with_storage sto σ)) = false.
Proof. trivial. Qed.

Lemma idle_with_allocated σ n :
  connected (this_state σ) = false -> connected (this_state (with_allocated n σ)) = false.
Proof. trivial. Qed.

Lemma idle_set_strategies σ r :
  connected (this_state σ) = false ->
  connected (this_state (with_this (set_strategies r (this σ)) σ)) = false.
Proof. trivial. Qed.

Lemma idle_set_currentStrategy σ c :
  connected (this_state σ) = false ->
  connected (this_state (with_this (set_currentStrategy c (this σ)) σ)) = false.
Proof. trivial. Qed.

Lemma updateState_only_strategy_idle c : keeps_idle (updateState env (only_strategy c)).
Proof. intros σ H. rewrite updateState_this_state. exact H. Qed.

Hint Resolve idle_with_storage idle_with_allocated idle_set_strategies
  idle_set_currentStrategy updateState_only_strategy_idle : preserve.

Lemma constructor_idle w ls : connected (this_state (snd (constructor env w ls))) = false.
Proof.
  unfold constructor.
  assert (Hp : keeps_idle (bind (initializeStrategies env)
                             (fun _ => loadCachedStrategy env))).
  { unfold initializeStrategies, loadCachedStrategy, getOrCreateWAuthStrategy,
      strategies_set, strategies_get, strategies_has, assign_currentStrategy, new.
    preserving; intros σ H; exact H. }
  apply Hp. reflexivity.
Qed.

(** *** A connected state has an active strategy *)

Lemma has_strategy_view σ σ' :
  this_state σ' = this_state σ -> currentStrategy (this σ') = currentStrategy (this σ) ->
  connected_has_strategy σ -> connected_has_strategy σ'.
Proof. unfold connected_has_strategy. intros -> ->. trivial. Qed.

Lemma has_strategy_active σ :
  is_Some (currentStrategy (this σ)) -> connected_has_strategy σ.
Proof. intros H _. exact H. Qed.

(** [setStrategy] returns false and does nothing, or leaves a strategy
    active. *)
Lemma setStrategy_result i σ :
  setStrategy env i σ = (Returns false, σ)
  \/ (is_Some (currentStrategy (this (snd (setStrategy env i σ))))
      /\ fst (setStrategy env i σ) <> Returns false).
Proof.
  assert (Hsel : forall s σa,
             let r := bind (assign_currentStrategy (Some s))
                        (fun _ => bind (updateState env (only_strategy (Some s)))
                                    (fun _ => ret true)) σa in
             is_Some (currentStrategy (this (snd r))) /\ fst r <> Returns false).
  { intros s σa. unfold bind, assign_currentStrategy, modify, ret. simpl.
    match goal with
    | |- context [updateState env ?u ?σb] =>
        destruct (updateState_spec env u σb) as (o & σ' & -> & _ & _ & _ & _ & Hc & _)
    end.
    destruct o; simpl; (split; [rewrite Hc; simpl; eauto | discriminate]). }
  destruct (JsString.startsWith i "wauth-") eqn:Hp.
  - destruct (getOrCreateWAuthStrategy_creates env (JsString.replace i "wauth-" "") σ)
      as (s & σa & Hg & _).
    right.
    assert (E : setStrategy env i σ
                = bind (assign_currentStrategy (Some s))
                    (fun _ => bind (updateState env (only_strategy (Some s)))
                                (fun _ => ret true)) σa).
    { unfold setStrategy. rewrite Hp. unfold bind at 1. rewrite Hg. reflexivity. }
    rewrite E. apply Hsel.
  - destruct (strategies (this σ) !! i) as [s|] eqn:Hl.
    + right.
      assert (E : setStrategy env i σ
                  = bind (assign_currentStrategy (Some s))
                      (fun _ => bind (updateState env (only_strategy (Some s)))
                                  (fun _ => ret true)) σ).
      { unfold setStrategy. rewrite Hp. unfold bind at 1, strategies_get, gets.
        rewrite Hl. reflexivity. }
      rewrite E. apply Hsel.
    + left. unfold setStrategy. rewrite Hp.
      unfold bind, strategies_get, gets. rewrite Hl. reflexivity.
Qed.

Lemma setStrategy_has_strategy i σ :
  connected_has_strategy σ -> connected_has_strategy (snd (setStrategy env i σ)).
Proof.
  intros H. destruct (setStrategy_result i σ) as [-> | [HQ _]];
    [exact H | apply has_strategy_active, HQ].
Qed.

Lemma connect_has_strategy p σ :
  connected_has_strategy σ -> connected_has_strategy (snd (WalletManager_connect env p σ)).
Proof.
  intros H. destruct (currentStrategy (this σ)) as [s|] eqn:Hcur.
  - apply has_strategy_active, connect_strategy. rewrite Hcur. eauto.
  - unfold WalletManager_connect, bind, gets. simpl. rewrite Hcur. exact H.
Qed.

Lemma disconnect_has_strategy σ :
  connected_has_strategy σ -> connected_has_strategy (snd (WalletManager_disconnect env σ)).
Proof.
  intros H. destruct (currentStrategy (this σ)) as [s|] eqn:Hcur.
  - destruct (disconnect s (world σ)) as [[[]|e] w] eqn:Hd.
    + destruct (disconnect_after_backend_returns env σ s w Hcur Hd)
        as (o & σ' & -> & _ & Hst & _).
      intros Hc. simpl in Hc. rewrite Hst in Hc. discriminate Hc.
    + rewrite (disconnect_after_backend_throws env σ s e w Hcur Hd).
      eapply has_strategy_view; [| | exact H]; reflexivity.
  - unfold WalletManager_disconnect, bind, gets. simpl. rewrite Hcur. exact H.
Qed.

Lemma autoReconnect_has_strategy σ :
  connected_has_strategy σ -> connected_has_strategy (snd (autoReconnect env σ)).
Proof.
  intros H. unfold autoReconnect.
  apply bind_after; [| intros e σ1 [= _ <-]; exact H].
  intros cached σ1 [= _ <-].
  apply bind_after;
    [| intros e σ1; unfold getCachedAddress, try_catch, storage_getItem;
       destruct (localStorage.getItem _ _); discriminate].
  intros cachedAddress σ1 Hg.
  assert (σ1 = σ) as ->.
  { unfold getCachedAddress, try_catch, storage_getItem, ret in Hg.
    destruct (localStorage.getItem _ _); injection Hg as _ <-; reflexivity. }
  destruct cached as [i|]; [| exact H].
  destruct (JsString.truthy i && JsString.truthy_opt cachedAddress); [| exact H].
  assert (Hcatch : forall (m : M World bool) σ0,
             snd (try_catch m (fun _ => ret false) σ0) = snd (m σ0)).
  { intros m σ0. unfold try_catch. destruct (m σ0) as [[b|e] σ2]; reflexivity. }
  rewrite Hcatch.
  apply bind_after.
  - intros success σ1 Hs.
    destruct (setStrategy_result i σ) as [Hfalse | [HQ Hne]]; rewrite Hs in *.
    + injection Hfalse as -> ->. exact H.
    + simpl in HQ, Hne. destruct success; [| congruence].
      apply has_strategy_active. cbn [negb].
      match goal with
      | |- is_Some (currentStrategy (this (snd (?k σ1)))) =>
          assert (Hk : keeps_strategy k) by preserving
      end.
      apply Hk, HQ.
  - intros e σ1 Hs.
    destruct (setStrategy_result i σ) as [Hfalse | [HQ _]]; rewrite Hs in *.
    + discriminate Hfalse.
    + apply has_strategy_active, HQ.
Qed.

Lemma getState_this_state σ :
  state (this σ) < length (stateObjs σ) ->
  this_state (snd (getState σ)) = this_state σ.
Proof.
  intros Hlt. unfold getState, bind, gets, alloc_state, this_state. simpl.
  apply lookup_total_app_l, Hlt.
Qed.

Lemma after_has_strategy op σ :
  state_ok σ -> connected_has_strategy σ -> connected_has_strategy (after env op σ).
Proof.
  intros [Hlt _] H. destruct op; simpl.
  - apply setStrategy_has_strategy, H.
  - apply connect_has_strategy, H.
  - apply disconnect_has_strategy, H.
  - apply autoReconnect_has_strategy, H.
  - eapply has_strategy_view; [| | exact H]; reflexivity.
  - unfold unsubscribe, modify. simpl.
    destruct (indexOf (stateListeners (this σ)) listener);
      (eapply has_strategy_view; [| | exact H]; reflexivity).
  - eapply has_strategy_view; [| | exact H]; [apply getState_this_state, Hlt | reflexivity].
Qed.

Lemma reachable_has_strategy σ : reachable env σ -> connected_has_strategy σ.
Proof.
  induction 1 as [w ls | op σ Hr IH].
  - intros Hc. rewrite constructor_idle in Hc. discriminate Hc.
  - apply after_has_strategy; [apply (reachable_state_ok env), Hr | exact IH].
Qed.

(** *** The commits of the provider *)

(** A commit whose state has become connected without an address runs the
    fix, which calls the provider's [disconnect]. *)
Lemma later_commit_runs prev st ui σ :
  connected_without_address prev = false ->
  connected_without_address st = true ->
  later_commit env DOMException_message prev st ui σ
  = (let '(_, ui', σ') := provider_disconnect env DOMException_message ui σ in (ui', σ')).
Proof.
  intros Hprev Hst. unfold later_commit.
  rewrite bool_decide_eq_false_2.
  - unfold fixConnectionEdgeCase. rewrite Hst. reflexivity.
  - intros [Hc Ha]. unfold connected_without_address in *.
    rewrite Hc, Ha in Hprev. congruence.
Qed.


End ForcedDisconnect.

Section ForcedDisconnectExamples.

Import Scenario.


End ForcedDisconnectExamples.

(** * Further properties *)

(** ** The registry over the life of a manager *)

Section RegistryInvariant.

Context {World : Type} (env : Environment World).
Implicit Types (σ : Machine World).

Local Abbreviation registered := (registry_ok env).
Local Abbreviation keeps_registry := (preserves (World:=World) (registry_ok env)).

Lemma registry_view σ σ' :
  strategies (this σ') = strategies (this σ) ->
  currentStrategy (this σ') = currentStrategy (this σ) ->
  allocated σ' = allocated σ ->
  registered σ -> registered σ'.
Proof. unfold registry_ok. intros -> -> ->. trivial. Qed.

Lemma registry_with_world σ w : registered σ -> registered (with_world w σ).
Proof. apply registry_view; reflexivity. Qed.

Lemma registry_with_storage σ (sto : Storage) :
  registered σ -> registered (with_storage sto σ).
Proof. apply registry_view; reflexivity. Qed.

Lemma registry_clear σ :
  registered σ -> registered (with_this (set_currentStrategy None (this σ)) σ).
Proof.
  intros (R1 & R2 & R3 & R4).
  split; [exact R1 |]. split; [exact R2 |]. split; [| exact R4]. simpl. discriminate.
Qed.

Lemma registry_select σ s :
  strategies (this σ) !! id s = Some s ->
  registered σ -> registered (with_this (set_currentStrategy (Some s) (this σ)) σ).
Proof.
  intros Hs (R1 & R2 & R3 & R4).
  split; [exact R1 |]. split; [exact R2 |]. split; [| exact R4].
  simpl. intros s' [= <-]. exact Hs.
Qed.

Lemma updateState_registry updates : keeps_registry (updateState env updates).
Proof.
  intros σ H.
  destruct (updateState_spec env updates σ) as (o & σ' & -> & _ & _ & Ha & Hr & Hc & _).
  simpl. eapply registry_view; eassumption.
Qed.

Hint Resolve registry_with_world registry_with_storage registry_clear
  updateState_registry : preserve.
Hint Resolve preserves_await preserves_storage_setItem preserves_storage_removeItem
  preserves_modify : preserve.

(** A resolution keeps the registry in order and returns its entry for the
    identifier. *)
Lemma getOrCreateWAuthStrategy_registry provider σ :
  registered σ ->
  exists s σ1,
    getOrCreateWAuthStrategy env provider σ = (Returns (Some s), σ1)
    /\ registered σ1
    /\ strategies (this σ1) !! id s = Some s
    /\ id s = "wauth-" +:+ provider.
Proof.
  intros (R1 & R2 & R3 & R4).
  destruct (strategies (this σ) !! ("wauth-" +:+ provider)) as [s|] eqn:Hl.
  - exists s, σ. destruct (R1 _ _ Hl) as [Hid _].
    split; [apply getOrCreateWAuthStrategy_present, Hl |].
    split; [split; [exact R1 | split; [exact R2 | split; [exact R3 | exact R4]]] |].
    split; [rewrite Hid; exact Hl | exact Hid].
  - eexists _, _. split; [apply getOrCreateWAuthStrategy_absent, Hl |].
    unfold registry_ok.
    cbn [this with_this with_allocated strategies set_strategies allocated
         currentStrategy id oid WAuthStrategy].
    split; [split; [| split; [| split]] |].
    + intros i s Hi. apply lookup_insert_Some in Hi as [[<- <-] | [_ Hi]].
      * simpl. split; [reflexivity | lia].
      * destruct (R1 _ _ Hi). split; [assumption | lia].
    + intros i j s t Hi Hj Hoid.
      apply lookup_insert_Some in Hi as [[<- <-] | [Hni Hi]];
        apply lookup_insert_Some in Hj as [[<- <-] | [Hnj Hj]].
      * reflexivity.
      * destruct (R1 _ _ Hj) as [_ Hlt]. simpl in Hoid. lia.
      * destruct (R1 _ _ Hi) as [_ Hlt]. simpl in Hoid. lia.
      * eapply R2; eassumption.
    + intros s Hs. rewrite lookup_insert_ne; [apply R3, Hs |].
      intros Heq. specialize (R3 _ Hs). rewrite <- Heq in R3. congruence.
    + intros i s Hi. apply lookup_insert_Some in Hi as [[_ <-] | [_ Hi]].
      * right. right. exists provider. reflexivity.
      * eapply R4, Hi.
    + split; [apply lookup_insert_eq | reflexivity].
Qed.

Lemma select_registry {A} (k : M World A) s :
  (forall σ, registered σ -> registered (snd (k σ))) ->
  forall σ,
    strategies (this σ) !! id s = Some s ->
    registered σ ->
    registered (snd (bind (assign_currentStrategy (Some s))
                       (fun _ => bind (updateState env (only_strategy (Some s)))
                                   (fun _ => k)) σ)).
Proof.
  intros Hk σ Hs H.
  assert (Hp : keeps_registry (bind (updateState env (only_strategy (Some s)))
                                 (fun _ => k))).
  { apply preserves_bind; [apply updateState_registry | intros _; exact Hk]. }
  unfold bind at 1, assign_currentStrategy, modify. cbn [fst snd].
  apply Hp, registry_select; assumption.
Qed.

Lemma setStrategy_registry i : keeps_registry (setStrategy env i).
Proof.
  intros σ H. unfold setStrategy. unfold bind at 1.
  destruct (JsString.startsWith i "wauth-").
  - destruct (getOrCreateWAuthStrategy_registry (JsString.replace i "wauth-" "") σ H)
      as (s & σ1 & -> & H1 & Hs & _).
    apply (select_registry (ret true)); [intros σ0 H0; exact H0 | exact Hs | exact H1].
  - unfold strategies_get, gets.
    destruct (strategies (this σ) !! i) as [s|] eqn:Hl; [| exact H].
    apply (select_registry (ret true)); [intros σ0 H0; exact H0 | | exact H].
    destruct (proj1 H _ _ Hl) as [-> _]. exact Hl.
Qed.

Hint Resolve setStrategy_registry : preserve.

Lemma connect_registry p : keeps_registry (WalletManager_connect env p).
Proof.
  unfold WalletManager_connect, this_currentStrategy, cacheStrategy, cacheAddress.
  preserving.
Qed.

Hint Resolve connect_registry : preserve.

Lemma disconnect_registry : keeps_registry (WalletManager_disconnect env).
Proof.
  unfold WalletManager_disconnect, this_currentStrategy, assign_currentStrategy,
    cacheStrategy, cacheAddress.
  preserving.
Qed.

Lemma autoReconnect_registry : keeps_registry (autoReconnect env).
Proof.
  unfold autoReconnect, getCachedAddress, wauth_probe, optional_call.
  preserving.
Qed.

Lemma after_registry op σ : registered σ -> registered (after env op σ).
Proof.
  intros H. destruct op; simpl.
  - apply setStrategy_registry, H.
  - apply connect_registry, H.
  - apply disconnect_registry, H.
  - apply autoReconnect_registry, H.
  - eapply registry_view; [| | | exact H]; reflexivity.
  - unfold unsubscribe, modify. simpl.
    destruct (indexOf (stateListeners (this σ)) listener);
      (eapply registry_view; [| | | exact H]; reflexivity).
  - eapply registry_view; [| | | exact H]; reflexivity.
Qed.

Lemma initializeStrategies_fresh w ls :
  registered (snd (initializeStrategies env (fresh w ls))).
Proof.
  unfold initializeStrategies, bind, new, strategies_set, modify, fresh. simpl.
  split; [| split; [| split]]; simpl.
  - intros i s Hi.
    apply lookup_insert_Some in Hi as [[<- <-] | [_ Hi]]; [simpl; split; [reflexivity | lia] |].
    apply lookup_insert_Some in Hi as [[<- <-] | [_ Hi]]; [simpl; split; [reflexivity | lia] |].
    rewrite lookup_empty in Hi. discriminate Hi.
  - intros i j s t Hi Hj Hoid.
    apply lookup_insert_Some in Hi as [[<- <-] | [_ Hi]];
      [| apply lookup_insert_Some in Hi as [[<- <-] | [_ Hi]];
         [| rewrite lookup_empty in Hi; discriminate Hi]];
      (apply lookup_insert_Some in Hj as [[<- <-] | [_ Hj]];
       [| apply lookup_insert_Some in Hj as [[<- <-] | [_ Hj]];
          [| rewrite lookup_empty in Hj; discriminate Hj]]);
      first [reflexivity | discriminate Hoid].
  - discriminate.
  - intros i s Hi.
    apply lookup_insert_Some in Hi as [[_ <-] | [_ Hi]]; [right; left; reflexivity |].
    apply lookup_insert_Some in Hi as [[_ <-] | [_ Hi]]; [left; reflexivity |].
    rewrite lookup_empty in Hi. discriminate Hi.
Qed.

Lemma loadCachedStrategy_registry : keeps_registry (loadCachedStrategy env).
Proof.
  unfold loadCachedStrategy. apply preserves_try_catch; [| intros e; apply preserves_ret].
  apply preserves_bind; [apply preserves_storage_getItem |].
  intros [i|]; [| apply preserves_ret].
  destruct (JsString.truthy i); [| apply preserves_ret].
  intros σ H. cbv zeta.
  destruct (JsString.startsWith i "wauth-"); unfold bind at 1.
  - destruct (getOrCreateWAuthStrategy_registry (JsString.replace i "wauth-" "") σ H)
      as (s & σ1 & -> & H1 & Hs & _).
    assert (Hp : keeps_registry (updateState env (only_strategy (Some s))))
      by apply updateState_registry.
    unfold bind, assign_currentStrategy, modify. cbn [fst snd].
    apply Hp, registry_select; assumption.
  - unfold strategies_get, gets.
    destruct (strategies (this σ) !! i) as [s|] eqn:Hl; [| exact H].
    assert (Hp : keeps_registry (updateState env (only_strategy (Some s))))
      by apply updateState_registry.
    unfold bind, assign_currentStrategy, modify. cbn [fst snd].
    apply Hp, registry_select; [| exact H].
    destruct (proj1 H _ _ Hl) as [-> _]. exact Hl.
Qed.

Lemma reachable_registry σ : reachable env σ -> registered σ.
Proof.
  induction 1 as [w ls | op σ _ IH].
  - unfold constructor, bind.
    pose proof (initializeStrategies_fresh w ls) as H0.
    destruct (initializeStrategies env (fresh w ls)) as [[[]|e] σ0]; simpl in *.
    + apply loadCachedStrategy_registry, H0.
    + exact H0.
  - apply after_registry, IH.
Qed.

(** X1.  In every state the manager reaches, the registry files each
    strategy under the strategy's own identifier; the strategies in it are
    instances of the three strategy classes, each constructed by the manager
    and no object filed twice; and the active strategy, when there is one,
    is the registry's entry for its identifier. *)
Theorem registry_in_order σ :
  reachable env σ ->
  (forall i s, strategies (this σ) !! i = Some s ->
     id s = i /\ oid s < allocated σ
     /\ (s = ArweaveWalletStrategy env (oid s)
         \/ s = MetaMaskWalletStrategy env (oid s)
         \/ exists provider, s = WAuthStrategy env provider (oid s)))
  /\ (forall i j s t,
        strategies (this σ) !! i = Some s -> strategies (this σ) !! j = Some t ->
        oid s = oid t -> i = j)
  /\ (forall s, currentStrategy (this σ) = Some s ->
                strategies (this σ) !! id s = Some s).
Proof.
  intros Hr. destruct (reachable_registry σ Hr) as (R1 & R2 & R3 & R4).
  split; [| split; [exact R2 | exact R3]].
  intros i s Hi. destruct (R1 _ _ Hi) as [Hid Hlt].
  split; [exact Hid |]. split; [exact Hlt |]. eapply R4, Hi.
Qed.

(** A resolution leaves the connection state and the active strategy
    alone. *)
Lemma getOrCreateWAuthStrategy_session provider σ :
  let σ1 := snd (getOrCreateWAuthStrategy env provider σ) in
  this_state σ1 = this_state σ
  /\ currentStrategy (this σ1) = currentStrategy (this σ)
  /\ world σ1 = world σ /\ storage σ1 = storage σ /\ trace σ1 = trace σ.
Proof.
  destruct (strategies (this σ) !! ("wauth-" +:+ provider)) as [s|] eqn:Hl.
  - rewrite (getOrCreateWAuthStrategy_present env _ _ _ Hl). simpl. repeat split.
  - rewrite (getOrCreateWAuthStrategy_absent env _ _ Hl). simpl. repeat split.
Qed.

(** X2.  [setStrategy] in a state the manager reaches: either it returns
    false and the machine is as it was, or the strategy that the registry
    holds under the identifier is the active strategy afterwards; it has
    this identifier, it is recorded in the connection state, and nothing
    else of the connection state changes (a session that was connected stays
    connected, with the address it had); the result is true unless an
    observer threw. *)
Theorem setStrategy_outcome i σ :
  reachable env σ ->
  setStrategy env i σ = (Returns false, σ)
  \/ exists s o σ',
       setStrategy env i σ = (o, σ')
       /\ (o = Returns true \/ exists e, o = Throws e)
       /\ id s = i
       /\ strategies (this σ') !! i = Some s
       /\ currentStrategy (this σ') = Some s
       /\ this_state σ' = spread (this_state σ) (only_strategy (Some s)).
Proof.
  intros Hr. pose proof (reachable_registry σ Hr) as H.
  assert (Hsel : forall s σa,
             strategies (this σa) !! i = Some s -> id s = i ->
             this_state σa = this_state σ ->
             exists o σ',
               bind (assign_currentStrategy (Some s))
                 (fun _ => bind (updateState env (only_strategy (Some s)))
                             (fun _ => ret true)) σa = (o, σ')
               /\ (o = Returns true \/ exists e, o = Throws e)
               /\ id s = i
               /\ strategies (this σ') !! i = Some s
               /\ currentStrategy (this σ') = Some s
               /\ this_state σ' = spread (this_state σ) (only_strategy (Some s))).
  { intros s σa Hl Hid Hst. unfold bind, assign_currentStrategy, modify, ret. simpl.
    match goal with
    | |- context [updateState env ?u ?σb] =>
        destruct (updateState_spec env u σb) as (o & σ' & -> & _ & _ & _ & Hreg & Hc & Hs)
    end.
    simpl in Hreg, Hc, Hs.
    assert (Hs' : this_state σ' = spread (this_state σ) (only_strategy (Some s)))
      by (rewrite Hs; unfold this_state in *; simpl; rewrite Hst; reflexivity).
    destruct o as [[]|e]; eexists _, _; (split; [reflexivity |]);
      (split; [eauto |]); rewrite Hreg; repeat split; assumption. }
  destruct (JsString.startsWith i "wauth-") eqn:Hp.
  - right.
    destruct (getOrCreateWAuthStrategy_registry (JsString.replace i "wauth-" "") σ H)
      as (s & σ1 & Hg & _ & Hs & Hid).
    rewrite (strip_namespace i Hp) in Hid.
    destruct (getOrCreateWAuthStrategy_session (JsString.replace i "wauth-" "") σ)
      as (Hst & _). rewrite Hg in Hst. simpl in Hst.
    rewrite Hid in Hs.
    destruct (Hsel s σ1 Hs Hid Hst) as (o & σ' & E & Hrest).
    exists s, o, σ'. split; [| exact Hrest].
    unfold setStrategy. rewrite Hp. unfold bind at 1. rewrite Hg. exact E.
  - destruct (strategies (this σ) !! i) as [s|] eqn:Hl.
    + right. destruct (proj1 H _ _ Hl) as [Hid _].
      destruct (Hsel s σ Hl Hid eq_refl) as (o & σ' & E & Hrest).
      exists s, o, σ'. split; [| exact Hrest].
      unfold setStrategy. rewrite Hp. unfold bind at 1, strategies_get, gets.
      rewrite Hl. exact E.
    + left. unfold setStrategy. rewrite Hp.
      unfold bind, strategies_get, gets. rewrite Hl. reflexivity.
Qed.

End RegistryInvariant.

Section RegistryExamples.

Import Scenario.

Lemma registry_in_order_witness :
  let σ := connected_page good_page empty_storage in
  reachable good_page σ
  /\ strategies (this σ) !! "arweave-native" = currentStrategy (this σ)
  /\ currentStrategy (this σ) = Some (ArweaveWalletStrategy good_page 0).
Proof.
  intros σ.
  assert (Hr : reachable good_page σ)
    by (apply reachable_after, reachable_after, reachable_constructed).
  assert (Hcur : currentStrategy (this σ) = Some (ArweaveWalletStrategy good_page 0))
    by (vm_compute; reflexivity).
  split; [exact Hr |]. split; [| exact Hcur].
  rewrite Hcur.
  exact (proj2 (proj2 (registry_in_order good_page σ Hr)) _ Hcur).
Defined.

(** Selecting the browser wallet while connected through the extension:
    the session stays connected, with the extension's address. *)
Lemma setStrategy_outcome_witness :
  let σ := connected_page good_page empty_storage in
  let σ' := snd (setStrategy good_page "metamask" σ) in
  (id <$> currentStrategy (this σ')) = Some "metamask"
  /\ connected (this_state σ') = true
  /\ address (this_state σ') = Some "arweave-account".
Proof.
  intros σ σ'.
  assert (Hr : reachable good_page σ)
    by (apply reachable_after, reachable_after, reachable_constructed).
  destruct (setStrategy_outcome good_page "metamask" σ Hr)
    as [Hfalse | (s & o & σ1 & E & _ & Hid & _ & Hcur & Hst)].
  - exfalso. apply (f_equal fst) in Hfalse. vm_compute in Hfalse. discriminate Hfalse.
  - split; [| split; vm_compute; reflexivity].
    subst σ'. rewrite E. cbn [snd]. rewrite Hcur.
    cbn [fmap option_fmap option_map]. rewrite Hid. reflexivity.
Defined.

End RegistryExamples.

(** ** Queries and pass-through methods of the manager *)

Section Queries.

Import Signer.

Context {World : Type} (env : Environment World) (browser : Browser World).
Implicit Types (σ : Machine World).

(** X3.  The three wallet-kind flags in a state the manager reaches: none
    holds without an active strategy, and exactly one holds with one. *)
Theorem wallet_kind_flags σ :
  reachable env σ ->
  exists wauth native metamask,
    isWAuthStrategy σ = (Returns wauth, σ)
    /\ isArweaveNativeStrategy σ = (Returns native, σ)
    /\ isMetaMaskStrategy σ = (Returns metamask, σ)
    /\ match currentStrategy (this σ) with
       | None => (wauth, native, metamask) = (false, false, false)
       | Some _ =>
           (wauth, native, metamask) = (true, false, false)
           \/ (wauth, native, metamask) = (false, true, false)
           \/ (wauth, native, metamask) = (false, false, true)
       end.
Proof.
  intros Hr. destruct (reachable_registry env σ Hr) as (_ & _ & R3 & R4).
  unfold isWAuthStrategy, isArweaveNativeStrategy, isMetaMaskStrategy, gets.
  eexists _, _, _. split; [reflexivity |]. split; [reflexivity |]. split; [reflexivity |].
  destruct (currentStrategy (this σ)) as [s|]; [| reflexivity].
  destruct (R4 _ _ (R3 s eq_refl)) as [-> | [-> | [provider ->]]].
  - right. left. reflexivity.
  - right. right. reflexivity.
  - left. cbn [id WAuthStrategy]. destruct provider; reflexivity.
Qed.

(** X4.  Without an active strategy no method of the manager reaches a
    backend or changes anything: [connect] and [sign] throw "No wallet
    strategy selected", the four optional operations throw their own error,
    [disconnect] returns, and the queries give their null answer. *)
Theorem without_strategy σ :
  currentStrategy (this σ) = None ->
  (forall permissions,
      WalletManager_connect env permissions σ
      = (Throws (Error "No wallet strategy selected"), σ))
  /\ WalletManager_disconnect env σ = (Returns tt, σ)
  /\ (forall transaction options,
        WalletManager_sign browser transaction options σ
        = (Throws (Error "No wallet strategy selected"), σ))
  /\ (forall dataItem,
        WalletManager_signDataItem browser dataItem σ
        = (Throws (Error "Sign data item not supported by current strategy"), σ))
  /\ (forall dataItem,
        WalletManager_signAns104 browser dataItem σ
        = (Throws (Error "Sign ANS-104 not supported by current strategy"), σ))
  /\ (forall wallet,
        WalletManager_addConnectedWallet browser wallet σ
        = (Throws (Error "Add connected wallet not supported by current strategy"), σ))
  /\ (forall walletId,
        WalletManager_removeConnectedWallet browser walletId σ
        = (Throws (Error "Remove connected wallet not supported by current strategy"), σ))
  /\ WalletManager_getActiveAddress σ = (Returns None, σ)
  /\ WalletManager_getActivePublicKey σ = (Returns None, σ)
  /\ WalletManager_getEmail browser σ = (Returns Null, σ)
  /\ WalletManager_getUsername browser σ = (Returns None, σ)
  /\ WalletManager_getConnectedWallets browser σ = (Returns [], σ)
  /\ WalletManager_getAuthData browser σ = (Returns Null, σ)
  /\ (forall callback, WalletManager_onAuthDataChange browser callback σ = (Returns tt, σ))
  /\ WalletManager_getAoSigner browser σ = (Returns Null, σ)
  /\ getRawSigner browser σ = (Returns Null, σ)
  /\ getCurrentStrategy σ = (Returns None, σ).
Proof.
  intros Hcur.
  unfold WalletManager_connect, WalletManager_disconnect, WalletManager_sign,
    WalletManager_signDataItem, WalletManager_signAns104,
    WalletManager_addConnectedWallet, WalletManager_removeConnectedWallet,
    WalletManager_getActiveAddress, WalletManager_getActivePublicKey,
    WalletManager_getEmail, WalletManager_getUsername,
    WalletManager_getConnectedWallets, WalletManager_getAuthData,
    WalletManager_onAuthDataChange, WalletManager_getAoSigner, getRawSigner,
    getCurrentStrategy, optional_member, not_in_session, bind, gets, ret, throw.
  rewrite Hcur. simpl. repeat split.
Qed.

(** *** What a query leaves alone *)

Local Abbreviation keeps_manager c :=
  (preserves (World:=World) (fun σ => beside_world σ = c)).

Lemma beside_world_with_world σ w c :
  beside_world σ = c -> beside_world (with_world w σ) = c.
Proof. trivial. Qed.

Hint Resolve beside_world_with_world : preserve.
Hint Resolve preserves_await : preserve.

(** X5.  The address queries, the signing operations and the queries on the
    OAuth account change nothing of the manager and of the storage,
    whatever the backend does: the registry, the active strategy, the
    connection state, the observers and the cache are as before.  And the
    queries that guard their call ([getActiveAddress], [getActivePublicKey],
    [getEmail], [getUsername], [getConnectedWallets]) do not throw, whatever
    the backend throws. *)
Theorem queries_leave_the_manager σ :
  beside_world (snd (WalletManager_getActiveAddress σ)) = beside_world σ
  /\ beside_world (snd (WalletManager_getActivePublicKey σ)) = beside_world σ
  /\ (forall transaction options,
        beside_world (snd (WalletManager_sign browser transaction options σ))
        = beside_world σ)
  /\ (forall dataItem,
        beside_world (snd (WalletManager_signDataItem browser dataItem σ)) = beside_world σ)
  /\ (forall dataItem,
        beside_world (snd (WalletManager_signAns104 browser dataItem σ)) = beside_world σ)
  /\ (forall wallet,
        beside_world (snd (WalletManager_addConnectedWallet browser wallet σ))
        = beside_world σ)
  /\ (forall walletId,
        beside_world (snd (WalletManager_removeConnectedWallet browser walletId σ))
        = beside_world σ)
  /\ beside_world (snd (WalletManager_getEmail browser σ)) = beside_world σ
  /\ beside_world (snd (WalletManager_getUsername browser σ)) = beside_world σ
  /\ beside_world (snd (WalletManager_getConnectedWallets browser σ)) = beside_world σ
  /\ beside_world (snd (WalletManager_getAuthData browser σ)) = beside_world σ
  /\ (forall callback,
        beside_world (snd (WalletManager_onAuthDataChange browser callback σ))
        = beside_world σ)
  /\ beside_world (snd (getRawSigner browser σ)) = beside_world σ
  /\ (exists a, fst (WalletManager_getActiveAddress σ) = Returns a)
  /\ (exists k, fst (WalletManager_getActivePublicKey σ) = Returns k)
  /\ (exists v, fst (WalletManager_getEmail browser σ) = Returns v)
  /\ (exists v, fst (WalletManager_getUsername browser σ) = Returns v)
  /\ (exists v, fst (WalletManager_getConnectedWallets browser σ) = Returns v).
Proof.
  assert (Hkeep : forall A (m : M World A),
             keeps_manager (beside_world σ) m ->
             beside_world (snd (m σ)) = beside_world σ)
    by (intros A m Hm; apply Hm; reflexivity).
  repeat match goal with
         | |- _ /\ _ => split
         | |- forall _, _ => intros ?
         | |- beside_world _ = _ => apply Hkeep
         end.
  all: try (unfold getRawSigner;
            unfold WalletManager_getActiveAddress, WalletManager_getActivePublicKey,
              WalletManager_sign, WalletManager_signDataItem, WalletManager_signAns104,
              WalletManager_addConnectedWallet, WalletManager_removeConnectedWallet,
              WalletManager_getEmail, WalletManager_getUsername,
              WalletManager_getConnectedWallets, WalletManager_getAuthData,
              WalletManager_onAuthDataChange, WalletManager_getAoSigner,
              optional_member, this_currentStrategy;
            solve [preserving]).
  - unfold WalletManager_getActiveAddress, bind at 1, gets at 1. cbn [fst snd].
    destruct (not_in_session σ); [eexists; reflexivity |].
    unfold try_catch.
    destruct (bind this_currentStrategy _ σ) as [[a|e] σ1]; eexists; reflexivity.
  - unfold WalletManager_getActivePublicKey, bind at 1, gets at 1. cbn [fst snd].
    destruct (not_in_session σ); [eexists; reflexivity |].
    unfold try_catch.
    destruct (bind this_currentStrategy _ σ) as [[a|e] σ1]; eexists; reflexivity.
  - unfold WalletManager_getEmail, optional_member, bind, gets. cbn [fst snd].
    destruct (currentStrategy (this σ) ≫= _) as [c|]; [| eexists; reflexivity].
    unfold try_catch. destruct (await c σ) as [[a|e] σ1]; eexists; reflexivity.
  - unfold WalletManager_getUsername, optional_member, bind, gets. cbn [fst snd].
    destruct (currentStrategy (this σ) ≫= _) as [c|]; [| eexists; reflexivity].
    unfold try_catch. destruct (await c σ) as [[a|e] σ1]; eexists; reflexivity.
  - unfold WalletManager_getConnectedWallets, optional_member, bind, gets. cbn [fst snd].
    destruct (currentStrategy (this σ) ≫= _) as [c|]; [| eexists; reflexivity].
    unfold try_catch. destruct (await c σ) as [[a|e] σ1]; eexists; reflexivity.
Qed.

End Queries.

Section QueryExamples.

Import Scenario Pages Signer.

Lemma wallet_kind_flags_witness :
  let σ := connected_page good_page empty_storage in
  exists wauth native metamask,
    isWAuthStrategy σ = (Returns wauth, σ)
    /\ isArweaveNativeStrategy σ = (Returns native, σ)
    /\ isMetaMaskStrategy σ = (Returns metamask, σ)
    /\ match currentStrategy (this σ) with
       | None => (wauth, native, metamask) = (false, false, false)
       | Some _ =>
           (wauth, native, metamask) = (true, false, false)
           \/ (wauth, native, metamask) = (false, true, false)
           \/ (wauth, native, metamask) = (false, false, true)
       end.
Proof.
  intros σ. apply (wallet_kind_flags good_page).
  apply reachable_after, reachable_after, reachable_constructed.
Defined.

(** A manager constructed on an empty storage has no active strategy:
    signing a data item is refused without a call to any backend. *)
Lemma without_strategy_witness :
  let σ := snd (constructor good_page 0 empty_storage) in
  WalletManager_signDataItem (plain_browser plain_members) (Object 1) σ
  = (Throws (Error "Sign data item not supported by current strategy"), σ).
Proof.
  intros σ.
  assert (Hcur : currentStrategy (this σ) = None) by (vm_compute; reflexivity).
  apply (without_strategy good_page (plain_browser plain_members) σ Hcur).
Defined.

End QueryExamples.

(** ** The connection state and the active strategy *)

Section SessionInvariant.

Context {World : Type} (env : Environment World).
Implicit Types (σ : Machine World).

Local Abbreviation mirrors :=
  (fun σ : Machine World => strategy (this_state σ) = currentStrategy (this σ)).
Local Abbreviation keeps_mirror :=
  (preserves (World:=World)
     (fun σ => strategy (this_state σ) = currentStrategy (this σ))).

Lemma mirror_with_world σ w : mirrors σ -> mirrors (with_world w σ).
Proof. trivial. Qed.

Lemma mirror_with_storage σ (sto : Storage) : mirrors σ -> mirrors (with_storage sto σ).
Proof. trivial. Qed.

Lemma mirror_with_allocated σ n : mirrors σ -> mirrors (with_allocated n σ).
Proof. trivial. Qed.

Lemma mirror_set_strategies σ r :
  mirrors σ -> mirrors (with_this (set_strategies r (this σ)) σ).
Proof. trivial. Qed.

Hint Resolve mirror_with_world mirror_with_storage mirror_with_allocated
  mirror_set_strategies : preserve.
Hint Resolve preserves_await preserves_storage_setItem preserves_storage_removeItem
  preserves_modify : preserve.

(** An update that carries the active strategy leaves the two in step,
    whatever they were. *)
Lemma published updates σ :
  p_strategy updates = Some (currentStrategy (this σ)) ->
  mirrors (snd (updateState env updates σ)).
Proof.
  intros Hu.
  destruct (updateState_spec env updates σ) as (o & σ' & -> & _ & _ & _ & _ & Hc & Hs).
  simpl. rewrite Hs, Hc. unfold spread. simpl. rewrite Hu. reflexivity.
Qed.

Lemma published_then {A} updates (k : M World A) σ :
  p_strategy updates = Some (currentStrategy (this σ)) ->
  keeps_mirror k ->
  mirrors (snd (bind (updateState env updates) (fun _ => k) σ)).
Proof.
  intros Hu Hk. pose proof (published updates σ Hu) as Hp.
  apply bind_after.
  - intros [] σ1 E. apply Hk. rewrite E in Hp. exact Hp.
  - intros e σ1 E. rewrite E in Hp. exact Hp.
Qed.

(** An assignment to [this.currentStrategy] followed by the update that
    publishes the same strategy. *)
Lemma assigned_and_published c updates :
  p_strategy updates = Some c ->
  keeps_mirror (bind (assign_currentStrategy c) (fun _ => updateState env updates)).
Proof.
  intros Hu σ _. unfold bind at 1, assign_currentStrategy, modify. cbn [fst snd].
  apply published. exact Hu.
Qed.

Lemma assigned_and_published_then {A} c updates (k : M World A) :
  p_strategy updates = Some c ->
  keeps_mirror k ->
  keeps_mirror (bind (assign_currentStrategy c)
                  (fun _ => bind (updateState env updates) (fun _ => k))).
Proof.
  intros Hu Hk σ _. unfold bind at 1, assign_currentStrategy, modify. cbn [fst snd].
  apply published_then; assumption.
Qed.

(** The update that publishes the active strategy as it is read. *)
Lemma read_and_published_then {A}
    (updates : option (WalletStrategy World) -> Partial World) (k : M World A) :
  (forall c, p_strategy (updates c) = Some c) ->
  keeps_mirror k ->
  keeps_mirror (bind (gets (fun σ => currentStrategy (this σ)))
                  (fun c => bind (updateState env (updates c)) (fun _ => k))).
Proof.
  intros Hu Hk σ _. unfold bind at 1, gets. cbn [fst snd].
  apply published_then; [apply Hu | exact Hk].
Qed.

(** As [preserving], with the publishing steps taken as a whole. *)
Ltac mirroring :=
  repeat first
    [ solve [auto with preserve]
    | match goal with
      | |- preserves _ (bind (assign_currentStrategy _) (fun _ => updateState _ _)) =>
          apply assigned_and_published; reflexivity
      | |- preserves _ (bind (assign_currentStrategy _)
                          (fun _ => bind (updateState _ _) _)) =>
          apply assigned_and_published_then; [reflexivity |]
      | |- preserves _ (bind (gets _) (fun c => bind (updateState _ (@?u c)) _)) =>
          apply read_and_published_then; [intros ?; reflexivity |]
      | |- preserves _ (ret _) => apply preserves_ret
      | |- preserves _ (throw _) => apply preserves_throw
      | |- preserves _ (gets _) => apply preserves_gets
      | |- preserves _ (storage_getItem _) => apply preserves_storage_getItem
      | |- preserves _ (bind _ _) => apply preserves_bind; [| intros ?]
      | |- preserves _ (try_catch _ _) => apply preserves_try_catch; [| intros ?]
      | |- preserves _ (match ?x with _ => _ end) => destruct x
      end
    | progress cbv zeta ].

Lemma getOrCreateWAuthStrategy_mirror provider :
  keeps_mirror (getOrCreateWAuthStrategy env provider).
Proof.
  intros σ H.
  destruct (getOrCreateWAuthStrategy_session env provider σ) as (Hs & Hc & _).
  cbv zeta in Hs, Hc. rewrite Hs, Hc. exact H.
Qed.

Hint Resolve getOrCreateWAuthStrategy_mirror : preserve.

Lemma setStrategy_mirror i : keeps_mirror (setStrategy env i).
Proof. unfold setStrategy, strategies_get. mirroring. Qed.

Hint Resolve setStrategy_mirror : preserve.

Lemma loadCachedStrategy_mirror : keeps_mirror (loadCachedStrategy env).
Proof. unfold loadCachedStrategy, strategies_get. mirroring. Qed.

Lemma connect_mirror p : keeps_mirror (WalletManager_connect env p).
Proof.
  unfold WalletManager_connect, this_currentStrategy, cacheStrategy, cacheAddress.
  mirroring.
Qed.

Hint Resolve connect_mirror : preserve.

Lemma disconnect_mirror : keeps_mirror (WalletManager_disconnect env).
Proof.
  unfold WalletManager_disconnect, this_currentStrategy, cacheStrategy, cacheAddress.
  mirroring.
Qed.

Lemma autoReconnect_mirror : keeps_mirror (autoReconnect env).
Proof.
  unfold autoReconnect, getCachedAddress, wauth_probe, optional_call.
  mirroring.
Qed.

Lemma after_mirror op σ : state_ok σ -> mirrors σ -> mirrors (after env op σ).
Proof.
  intros [Hlt _] H. destruct op; cbn [after].
  - apply setStrategy_mirror, H.
  - apply connect_mirror, H.
  - apply disconnect_mirror, H.
  - apply autoReconnect_mirror, H.
  - exact H.
  - unfold unsubscribe, modify. simpl.
    destruct (indexOf (stateListeners (this σ)) listener); exact H.
  - rewrite getState_this_state by exact Hlt. exact H.
Qed.

Lemma constructor_mirror w ls : mirrors (snd (constructor env w ls)).
Proof.
  unfold constructor.
  assert (Hp : keeps_mirror (bind (initializeStrategies env)
                               (fun _ => loadCachedStrategy env))).
  { apply preserves_bind; [| intros _; apply loadCachedStrategy_mirror].
    unfold initializeStrategies, strategies_set, new. mirroring;
      intros σ H; exact H. }
  apply Hp. reflexivity.
Qed.

(** X6.  In every state the manager reaches, [this.state] is one of the
    state objects, the strategy recorded in the connection state is the
    active strategy, and a connected state has an active strategy. *)
Theorem session_in_step σ :
  reachable env σ ->
  state (this σ) < length (stateObjs σ)
  /\ strategy (this_state σ) = currentStrategy (this σ)
  /\ (connected (this_state σ) = true -> is_Some (currentStrategy (this σ))).
Proof.
  intros Hr. split; [apply (reachable_state_ok env σ Hr) |].
  split; [| apply (reachable_has_strategy env σ Hr)].
  induction Hr as [w ls | op σ Hr IH].
  - apply constructor_mirror.
  - apply after_mirror; [apply (reachable_state_ok env), Hr | exact IH].
Qed.

(** X7.  A manager is never connected when it has been constructed,
    whatever the cache holds: the constructor returns, calls no backend,
    notifies nobody, and leaves the manager disconnected, without an
    address; reading the cache is all it does with the storage. *)
Theorem constructor_outcome w ls :
  exists σ,
    constructor env w ls = (Returns tt, σ)
    /\ world σ = w /\ storage σ = ls
    /\ stateListeners (this σ) = [] /\ trace σ = []
    /\ connected (this_state σ) = false /\ address (this_state σ) = None
    /\ publicKey (this_state σ) = None /\ permissions (this_state σ) = [].
Proof.
  assert (Hup : forall c σ0,
             stateListeners (this σ0) = [] ->
             updateState env (only_strategy c) σ0
             = (Returns tt,
                with_trace (trace σ0 ++ [])
                  (with_this (set_state (length (stateObjs σ0)) (this σ0))
                     (with_stateObjs
                        (stateObjs σ0 ++ [spread (this_state σ0) (only_strategy c)]) σ0)))).
  { intros c σ0 Hl. rewrite updateState_idle.
    - rewrite Hl. reflexivity.
    - rewrite Hl. intros l Hin. apply elem_of_nil in Hin. destruct Hin. }
  unfold constructor, bind at 1.
  unfold initializeStrategies, bind, new, strategies_set, modify. cbn [fst snd].
  set (σ0 := with_this _ _).
  assert (Hl0 : stateListeners (this σ0) = []) by reflexivity.
  unfold loadCachedStrategy, try_catch, bind at 1, storage_getItem.
  change (storage σ0) with ls. unfold localStorage.getItem.
  destruct (accessDenied ls); [eexists; split; [reflexivity | repeat split] |].
  destruct (items ls !! STORAGE_KEYS.STRATEGY) as [i|];
    [| eexists; split; [reflexivity | repeat split]].
  destruct (JsString.truthy i); [| eexists; split; [reflexivity | repeat split]].
  cbv zeta. destruct (JsString.startsWith i "wauth-").
  - unfold bind at 1.
    destruct (strategies (this σ0) !! ("wauth-" +:+ JsString.replace i "wauth-" ""))
      as [s|] eqn:Hlook.
    + rewrite (getOrCreateWAuthStrategy_present env _ _ _ Hlook).
      unfold bind, assign_currentStrategy, modify. cbn [fst snd].
      rewrite Hup by reflexivity.
      eexists; split; [reflexivity |]. simpl. repeat split.
    + rewrite (getOrCreateWAuthStrategy_absent env _ _ Hlook).
      unfold bind, assign_currentStrategy, modify. cbn [fst snd].
      rewrite Hup by reflexivity.
      eexists; split; [reflexivity |]. simpl. repeat split.
  - unfold bind at 1, strategies_get, gets. cbn [fst snd].
    destruct (strategies (this σ0) !! i) as [s|];
      [| eexists; split; [reflexivity | repeat split]].
    unfold bind, assign_currentStrategy, modify. cbn [fst snd].
    rewrite Hup by reflexivity.
    eexists; split; [reflexivity |]. simpl. repeat split.
Qed.

(** X8.  Without a cached session, that is when the storage can be read
    and holds no strategy identifier or no address (or an empty one),
    [autoReconnect] returns false and does nothing: no strategy is selected
    and no backend is called. *)
Theorem autoReconnect_without_session σ :
  accessDenied (storage σ) = false ->
  JsString.truthy_opt (items (storage σ) !! STORAGE_KEYS.STRATEGY) = false
  \/ JsString.truthy_opt (items (storage σ) !! STORAGE_KEYS.ADDRESS) = false ->
  autoReconnect env σ = (Returns false, σ).
Proof.
  intros Hacc Hno.
  unfold autoReconnect, bind, getCachedAddress, try_catch, storage_getItem,
    localStorage.getItem.
  rewrite Hacc. cbn [fst snd].
  destruct (items (storage σ) !! STORAGE_KEYS.STRATEGY) as [i|]; [| reflexivity].
  simpl in Hno. destruct (JsString.truthy i); [| reflexivity].
  destruct Hno as [Hno | Hno]; [discriminate Hno |].
  rewrite Hno. reflexivity.
Qed.

End SessionInvariant.

Section SessionExamples.

Import Scenario.

Lemma session_in_step_witness :
  let σ := connected_page good_page empty_storage in
  state (this σ) < length (stateObjs σ)
  /\ strategy (this_state σ) = currentStrategy (this σ)
  /\ (connected (this_state σ) = true -> is_Some (currentStrategy (this σ))).
Proof.
  intros σ. apply (session_in_step good_page).
  apply reachable_after, reachable_after, reachable_constructed.
Defined.

Lemma autoReconnect_without_session_witness :
  let σ := snd (constructor good_page 0
                  (storage_with {[ STORAGE_KEYS.STRATEGY := "metamask" ]} false false)) in
  autoReconnect good_page σ = (Returns false, σ).
Proof.
  intros σ. apply autoReconnect_without_session.
  - vm_compute. reflexivity.
  - right. vm_compute. reflexivity.
Defined.

End SessionExamples.

(** ** Listing the strategies *)

Section Listing.

Context {World : Type} (env : Environment World).
Implicit Types (σ : Machine World).

(** Resolving a list of providers: each of them is registered afterwards,
    what was registered stays, at most one strategy is constructed for each,
    nothing else changes, and nothing at all when all were registered. *)
Lemma forEach_provider_spec providers : forall σ,
  exists σ',
    forEach_provider env providers σ = (Returns tt, σ')
    /\ (forall provider, provider ∈ providers ->
          is_Some (strategies (this σ') !! ("wauth-" +:+ provider)))
    /\ (forall i s, strategies (this σ) !! i = Some s -> strategies (this σ') !! i = Some s)
    /\ allocated σ <= allocated σ' <= allocated σ + length providers
    /\ (this_state σ' = this_state σ
        /\ currentStrategy (this σ') = currentStrategy (this σ)
        /\ world σ' = world σ /\ storage σ' = storage σ /\ trace σ' = trace σ)
    /\ ((forall provider, provider ∈ providers ->
           is_Some (strategies (this σ) !! ("wauth-" +:+ provider))) ->
        σ' = σ).
Proof.
  induction providers as [|p rest IH]; intros σ.
  - exists σ. simpl. unfold ret. split; [reflexivity |].
    split; [intros provider Hin; apply elem_of_nil in Hin; destruct Hin |].
    split; [trivial |]. split; [lia |]. split; [repeat split | trivial].
  - cbn [forEach_provider]. unfold bind at 1.
    destruct (getOrCreateWAuthStrategy_creates env p σ) as (s & σ1 & Hg & Hl & _ & Ha).
    pose proof (getOrCreateWAuthStrategy_session env p σ) as Hsession.
    pose proof (fun i t => getOrCreateWAuthStrategy_entry env i t p σ) as Hkeep.
    assert (Hmono : allocated σ <= allocated σ1).
    { destruct (strategies (this σ) !! ("wauth-" +:+ p)) as [t|] eqn:Hp.
      - rewrite (getOrCreateWAuthStrategy_present env _ _ _ Hp) in Hg.
        injection Hg as _ <-. lia.
      - rewrite (getOrCreateWAuthStrategy_absent env _ _ Hp) in Hg.
        injection Hg as _ <-. simpl. lia. }
    rewrite Hg in Hsession, Hkeep. cbn [fst snd] in Hsession, Hkeep.
    rewrite Hg.
    destruct (IH σ1) as (σ' & -> & Hall & Hstay & Hcount & Hsame & Hnone).
    exists σ'. split; [reflexivity |]. split; [| split; [| split; [| split]]].
    + intros provider Hin. apply elem_of_cons in Hin as [-> | Hin].
      * rewrite (Hstay _ _ Hl). eauto.
      * apply Hall, Hin.
    + intros i t Hi. apply Hstay, Hkeep, Hi.
    + simpl. lia.
    + destruct Hsession as (H1 & H2 & H3 & H4 & H5).
      destruct Hsame as (G1 & G2 & G3 & G4 & G5).
      repeat split; congruence.
    + intros Hpresent.
      destruct (Hpresent p) as [t Hp]; [left |].
      rewrite (getOrCreateWAuthStrategy_present env _ _ _ Hp) in Hg.
      injection Hg as _ <-.
      apply Hnone. intros provider Hin. apply Hpresent. right. exact Hin.
Qed.

(** X9.  [getStrategies] is not a pure query: it registers the strategies
    of the four OAuth providers that are not registered yet, constructing at
    most four.  It keeps what was registered, returns the strategies of the
    registry and no other, and leaves the session, the storage and the
    observers alone; called again it returns the same list and changes
    nothing. *)
Theorem getStrategies_registers σ :
  exists l σ',
    getStrategies env σ = (Returns l, σ')
    /\ (forall provider,
          provider ∈ [WAuthProviders.Github; WAuthProviders.Google;
                      WAuthProviders.Discord; WAuthProviders.X] ->
          is_Some (strategies (this σ') !! ("wauth-" +:+ provider)))
    /\ (forall i s, strategies (this σ) !! i = Some s -> strategies (this σ') !! i = Some s)
    /\ (forall s, s ∈ l <-> exists i, strategies (this σ') !! i = Some s)
    /\ allocated σ <= allocated σ' <= allocated σ + 4
    /\ (this_state σ' = this_state σ
        /\ currentStrategy (this σ') = currentStrategy (this σ)
        /\ world σ' = world σ /\ storage σ' = storage σ /\ trace σ' = trace σ)
    /\ getStrategies env σ' = (Returns l, σ').
Proof.
  unfold getStrategies.
  set (providers := [WAuthProviders.Github; WAuthProviders.Google;
                     WAuthProviders.Discord; WAuthProviders.X]).
  destruct (forEach_provider_spec providers σ)
    as (σ' & Hrun & Hall & Hstay & Hcount & Hsame & _).
  destruct (forEach_provider_spec providers σ')
    as (σ'' & Hrun' & _ & _ & _ & _ & Hnone).
  specialize (Hnone Hall). subst σ''.
  unfold bind. rewrite Hrun. unfold gets. cbn [fst snd].
  eexists _, σ'. split; [reflexivity |].
  split; [exact Hall |]. split; [exact Hstay |]. split; [| split; [exact Hcount |]].
  - intros s. rewrite list_elem_of_fmap. split.
    + intros [[i t] [-> Hin]]. exists i. apply elem_of_map_to_list in Hin. exact Hin.
    + intros [i Hi]. exists (i, s). split; [reflexivity |].
      apply elem_of_map_to_list. exact Hi.
  - split; [exact Hsame |]. rewrite Hrun'. reflexivity.
Qed.

End Listing.
